(** * Hexagonal binning for map figures: model of [_hexbin_mapbox.py]

    A shallow embedding of [plotly/express/_hexbin_mapbox.py].  NumPy's
    double-precision arrays are modelled as lists of real numbers, so every
    arithmetic operation is exact; [nan] cells are modelled by [None].
    Exceptions raised by NumPy or by Python's list indexing are values of
    [exn] carried by the [result] type.  The model follows the real-number
    reading of the code wherever no division by zero occurs (a float
    division by zero yields [inf] or [nan] and does not raise). *)

From Stdlib Require Import Reals Lra Lia ZArith List Bool Permutation Sorted.
Import ListNotations.
Open Scope R_scope.

(** ** Exceptions *)

Inductive exn : Set :=
| ValueError   (* negative array dimension, reduction of an empty array *)
| IndexError.  (* list index out of range *)

Inductive result (A : Type) : Type :=
| Value (a : A)
| Raise (e : exn).
Arguments Value {A} a.
Arguments Raise {A} e.

Definition bind {A B : Type} (m : result A) (k : A -> result B) : result B :=
  match m with
  | Value a => k a
  | Raise e => Raise e
  end.

Notation "x <- m ;; k" := (bind m (fun x => k))
  (at level 61, m at next level, right associativity).
Notation "' p <- m ;; k" := (bind m (fun x => let p := x in k))
  (at level 61, p pattern, m at next level, right associativity).

(** ** NumPy helpers *)

(** [np.arctanh] on the open interval (-1, 1). *)
Definition arctanh (s : R) : R := ln ((1 + s) / (1 - s)) / 2.

(** [np.floor(x).astype(int)]. *)
Definition np_floor (x : R) : Z := Zfloor x.

(** [np.round(x).astype(int)]: NumPy rounds halves to the even neighbour. *)
Definition np_round (x : R) : Z :=
  let f := Zfloor x in
  let r := x - IZR f in
  if Rlt_dec r (1 / 2) then f
  else if Rlt_dec (1 / 2) r then (f + 1)%Z
  else if Z.even f then f else (f + 1)%Z.

(** [np.arange(n)] as floats. *)
Definition np_arange (n : Z) : list R :=
  map (fun k => IZR (Z.of_nat k)) (seq 0 (Z.to_nat n)).

(** [np.repeat(a, k)] and [np.tile(a, k)]. *)
Definition np_repeat (a : list R) (k : Z) : list R :=
  flat_map (fun v => repeat v (Z.to_nat k)) a.

Definition np_tile (a : list R) (k : Z) : list R :=
  concat (repeat a (Z.to_nat k)).

(** [np.diff] of a one-dimensional array. *)
Fixpoint np_diff (a : list R) : list R :=
  match a with
  | u :: (v :: _) as t => (v - u) :: np_diff t
  | _ => []
  end.

(** [a.min()] and [a.max()]; NumPy raises on an empty array. *)
Definition np_min (a : list R) : result R :=
  match a with
  | [] => Raise ValueError
  | u :: t => Value (fold_left Rmin t u)
  end.

Definition np_max (a : list R) : result R :=
  match a with
  | [] => Raise ValueError
  | u :: t => Value (fold_left Rmax t u)
  end.

(** [np.zeros((r, c))]: a list of [r] rows of [c] zeros. *)
Definition np_zeros (r c : Z) : result (list (list R)) :=
  if ((r <? 0) || (c <? 0))%Z then Raise ValueError
  else Value (repeat (repeat 0 (Z.to_nat c)) (Z.to_nat r)).

(** [np.empty((r, c), dtype=object)] with every cell set to [[]]. *)
Definition np_empty_lists (r c : Z) : result (list (list (list R))) :=
  if ((r <? 0) || (c <? 0))%Z then Raise ValueError
  else Value (repeat (repeat [] (Z.to_nat c)) (Z.to_nat r)).

(** In-place update of one cell.  Every update in the source is guarded by
    an explicit bounds test, so the out-of-range behaviour (here: no change)
    is never exercised. *)
Fixpoint upd {A : Type} (f : A -> A) (n : nat) (l : list A) : list A :=
  match l, n with
  | [], _ => []
  | a :: t, O => f a :: t
  | a :: t, S n' => a :: upd f n' t
  end.

Definition upd2 {A : Type} (f : A -> A) (i j : Z) (l : list (list A))
  : list (list A) :=
  upd (upd f (Z.to_nat j)) (Z.to_nat i) l.

(** [np.add.at(lattice, (is, js), 1)]. *)
Definition np_add_at (l : list (list R)) (idx : list (Z * Z)) : list (list R) :=
  fold_left (fun acc ij => upd2 (fun c => c + 1) (fst ij) (snd ij) acc) idx l.

(** [a.ravel()] for a two-dimensional array (row-major). *)
Definition ravel {A : Type} (l : list (list A)) : list A := concat l.

(** [a[mask]] for a boolean mask. *)
Fixpoint mask_select {A : Type} (a : list A) (m : list bool) : list A :=
  match a, m with
  | u :: a', true :: m' => u :: mask_select a' m'
  | _ :: a', false :: m' => mask_select a' m'
  | _, _ => []
  end.

(** [sorted(a)] on floats. *)
Fixpoint insert_sorted (v : R) (l : list R) : list R :=
  match l with
  | [] => [v]
  | u :: t => if Rle_dec v u then v :: l else u :: insert_sorted v t
  end.

Definition sorted (a : list R) : list R := fold_right insert_sorted [] a.

(** [list(set(a))]: the distinct values (their order is irrelevant, the
    source sorts them at once). *)
Definition pyset (a : list R) : list R := nodup Req_EM_T a.

Definition sumR (a : list R) : R := fold_right Rplus 0 a.

(** A two-dimensional array with [r] rows and [c] columns. *)
Definition shaped {A : Type} (r c : nat) (l : list (list A)) : Prop :=
  length l = r /\ Forall (fun row => length row = c) l.

(** The content of a two-dimensional array, each cell weighed by [weight]:
    the sum of the counts of a count lattice, the number of collected
    values of a value lattice. *)
Definition total {A : Type} (weight : A -> R) (l : list (list A)) : R :=
  sumR (map weight (ravel l)).

(** ** Projector (lines 10-24) *)

Definition project_x (lon : R) : R := lon * PI / 180.
Definition project_y (lat : R) : R := arctanh (sin (lat * PI / 180)).

Definition _project_latlon_to_wgs84 (lat lon : R) : R * R :=
  let x := project_x lon in
  let y := project_y lat in
  (x, y).

Definition unproject_lon (x : R) : R := x * 180 / PI.
Definition unproject_lat (y : R) : R := (2 * atan (exp y) - PI / 2) * 180 / PI.

Definition _project_wgs84_to_latlon (x y : R) : R * R :=
  let lon := unproject_lon x in
  let lat := unproject_lat y in
  (lat, lon).

(** ** Zoom estimator (lines 35-61) *)

Module Zoom.

Record MapDim : Type := { height : R; width : R }.

Definition scale : R := 2.
Definition WORLD_DIM : MapDim := {| height := 256 * scale; width := 256 * scale |}.
Definition ZOOM_MAX : R := 18.

Definition latRad (lat : R) : R :=
  let sin_ := sin (lat * PI / 180) in
  let radX2 := ln ((1 + sin_) / (1 - sin_)) / 2 in
  Rmax (Rmin radX2 PI) (- PI) / 2.

Definition zoom (mapPx worldPx fraction : R) : R :=
  0.95 * ln (mapPx / worldPx / fraction) / ln 2.

Definition latFraction (lat_min lat_max : R) : R :=
  (latRad lat_max - latRad lat_min) / PI.

Definition lngFraction (lon_min lon_max : R) : R :=
  let lngDiff := lon_max - lon_min in
  (if Rlt_dec lngDiff 0 then lngDiff + 360 else lngDiff) / 360.

Definition _getBoundsZoomLevel
  (lon_min lon_max lat_min lat_max : R) (mapDim : MapDim) : R :=
  let latZoom := zoom (height mapDim) (height WORLD_DIM)
                      (latFraction lat_min lat_max) in
  let lngZoom := zoom (width mapDim) (width WORLD_DIM)
                      (lngFraction lon_min lon_max) in
  Rmin (Rmin latZoom lngZoom) ZOOM_MAX.

(** The estimate as the specification words it. *)
Definition log2 (v : R) : R := ln v / ln 2.

Definition axis_estimate (pixel_dimension fraction : R) : R :=
  0.95 * log2 (pixel_dimension / (256 * 2) / fraction).

Definition lon_fraction (lon_min lon_max : R) : R :=
  if Rlt_dec lon_max lon_min
  then (lon_max - lon_min + 360) / 360
  else (lon_max - lon_min) / 360.

(** Map dimensions shrunk by the same factor on both axes. *)
Definition shrink (k : R) (d : MapDim) : MapDim :=
  {| height := k * height d; width := k * width d |}.

End Zoom.

(** ** Hexbin aggregator and polygon builder (lines 63-237) *)

Module Hexbin.

(** Values [min_count] may take: the caller passes [-np.inf] for the
    geometry pass. *)
Inductive ExtR : Type :=
| NegInf
| Finite (r : R)
| PosInf.

(** [c < m] and [c > m] for a finite [c]. *)
Definition lt_ext (c : R) (m : ExtR) : bool :=
  match m with
  | NegInf => false
  | Finite r => if Rlt_dec c r then true else false
  | PosInf => true
  end.

Definition gt_ext (c : R) (m : ExtR) : bool :=
  match m with
  | NegInf => true
  | Finite r => if Rlt_dec r c then true else false
  | PosInf => false
  end.

Record Args : Type := {
  lat : list R;
  lon : list R;
  lat_range : option (R * R);
  lon_range : option (R * R);
  color : option (list R);
  nx : Z;
  agg_func : list R -> R;
  min_count : option ExtR
}.

(** The lattice fixed by lines 105-134. *)
Record Lattice : Type := {
  xmin : R;
  ymin : R;
  dx : R;
  dy : R;
  nx1 : Z;
  ny1 : Z;
  nx2 : Z;
  ny2 : Z
}.

Definition range_or_default (r : option (R * R)) (a : list R)
  : result (R * R) :=
  match r with
  | Some p => Value p
  | None => lo <- np_min a ;; hi <- np_max a ;; Value (lo, hi)
  end.

Definition make_lattice (a : Args) : result Lattice :=
  lat_range <- range_or_default (lat_range a) (lat a) ;;
  lon_range <- range_or_default (lon_range a) (lon a) ;;
  let x_range := (project_x (fst lon_range), project_x (snd lon_range)) in
  let y_range := (project_y (fst lat_range), project_y (snd lat_range)) in
  let xmin := Rmin (fst x_range) (snd x_range) in
  let xmax := Rmax (fst x_range) (snd x_range) in
  let ymin := Rmin (fst y_range) (snd y_range) in
  let ymax := Rmax (fst y_range) (snd y_range) in
  let Dx := xmax - xmin in
  let Dy := ymax - ymin in
  let dx := Dx / IZR (nx a) in
  let dy := dx * sqrt 3 in
  let ny := np_round (Dy / dy) in
  Value {| xmin := xmin; ymin := ymin; dx := dx; dy := dy;
           nx1 := nx a + 1; ny1 := ny + 1; nx2 := nx a; ny2 := ny |}.

(** A point in lattice-cell units (lines 123-124). *)
Definition point : Type := (R * R)%type.

Definition normalise (L : Lattice) (lat lon : list R) : list point :=
  let x := map project_x lon in
  let y := map project_y lat in
  let x := map (fun v => (v - xmin L) / dx L) x in
  let y := map (fun v => (v - ymin L) / dy L) y in
  combine x y.

(** The two candidate cells of a point and the comparison of their
    distances (lines 125-138). *)
Definition ix1 (p : point) : Z := np_round (fst p).
Definition iy1 (p : point) : Z := np_round (snd p).
Definition ix2 (p : point) : Z := np_floor (fst p).
Definition iy2 (p : point) : Z := np_floor (snd p).

Definition d1 (p : point) : R :=
  (fst p - IZR (ix1 p)) ^ 2 + 3 * (snd p - IZR (iy1 p)) ^ 2.

Definition d2 (p : point) : R :=
  (fst p - IZR (ix2 p) - 0.5) ^ 2 + 3 * (snd p - IZR (iy2 p) - 0.5) ^ 2.

Definition bdist (p : point) : bool :=
  if Rlt_dec (d1 p) (d2 p) then true else false.

Definition in_bounds (nxk nyk ix iy : Z) : bool :=
  ((0 <=? ix) && (ix <? nxk) && (0 <=? iy) && (iy <? nyk))%Z.

Definition c1 (L : Lattice) (p : point) : bool :=
  in_bounds (nx1 L) (ny1 L) (ix1 p) (iy1 p) && bdist p.

Definition c2 (L : Lattice) (p : point) : bool :=
  in_bounds (nx2 L) (ny2 L) (ix2 p) (iy2 p) && negb (bdist p).

(** Count mode (lines 140-151). *)
Definition count_lattices (L : Lattice) (pts : list point)
  : result (list (list R) * list (list R)) :=
  lattice1 <- np_zeros (nx1 L) (ny1 L) ;;
  lattice2 <- np_zeros (nx2 L) (ny2 L) ;;
  let lattice1 :=
    np_add_at lattice1 (map (fun p => (ix1 p, iy1 p)) (filter (c1 L) pts)) in
  let lattice2 :=
    np_add_at lattice2 (map (fun p => (ix2 p, iy2 p)) (filter (c2 L) pts)) in
  Value (lattice1, lattice2).

Definition count_cell (min_count : option ExtR) (c : R) : option R :=
  match min_count with
  | Some m => if lt_ext c m then None else Some c
  | None => Some c
  end.

Definition accum_count (L : Lattice) (pts : list point)
  (min_count : option ExtR) : result (list (option R)) :=
  ' (lattice1, lattice2) <- count_lattices L pts ;;
  let lattice1 := map (map (count_cell min_count)) lattice1 in
  let lattice2 := map (map (count_cell min_count)) lattice2 in
  Value (ravel lattice1 ++ ravel lattice2).

(** Value mode (lines 152-191).  [fill] is the loop of lines 166-172; it
    reads [color[i]] only when the point is appended. *)
Fixpoint fill (L : Lattice) (pts : list point) (i : nat) (color : list R)
  (lattice1 lattice2 : list (list (list R)))
  : result (list (list (list R)) * list (list (list R))) :=
  match pts with
  | [] => Value (lattice1, lattice2)
  | p :: pts' =>
      if bdist p then
        if in_bounds (nx1 L) (ny1 L) (ix1 p) (iy1 p) then
          match nth_error color i with
          | Some v =>
              fill L pts' (S i) color
                   (upd2 (fun vals => vals ++ [v]) (ix1 p) (iy1 p) lattice1)
                   lattice2
          | None => Raise IndexError
          end
        else fill L pts' (S i) color lattice1 lattice2
      else
        if in_bounds (nx2 L) (ny2 L) (ix2 p) (iy2 p) then
          match nth_error color i with
          | Some v =>
              fill L pts' (S i) color lattice1
                   (upd2 (fun vals => vals ++ [v]) (ix2 p) (iy2 p) lattice2)
          | None => Raise IndexError
          end
        else fill L pts' (S i) color lattice1 lattice2
  end.

Definition value_lattices (L : Lattice) (pts : list point) (color : list R)
  : result (list (list (list R)) * list (list (list R))) :=
  lattice1 <- np_empty_lists (nx1 L) (ny1 L) ;;
  lattice2 <- np_empty_lists (nx2 L) (ny2 L) ;;
  fill L pts 0 color lattice1 lattice2.

Definition default_min_count (min_count : option ExtR) : ExtR :=
  match min_count with
  | None => Finite 0
  | Some m => m
  end.

Definition value_cell (agg_func : list R -> R) (min_count : ExtR)
  (vals : list R) : option R :=
  if gt_ext (INR (length vals)) min_count then Some (agg_func vals) else None.

Definition accum_values (L : Lattice) (pts : list point) (color : list R)
  (agg_func : list R -> R) (min_count : option ExtR)
  : result (list (option R)) :=
  let min_count := default_min_count min_count in
  ' (lattice1, lattice2) <- value_lattices L pts color ;;
  let lattice1 := map (map (value_cell agg_func min_count)) lattice1 in
  let lattice2 := map (map (value_cell agg_func min_count)) lattice2 in
  Value (ravel lattice1 ++ ravel lattice2).

Definition accumulate (a : Args) (L : Lattice) (pts : list point)
  : result (list (option R)) :=
  match color a with
  | None => accum_count L pts (min_count a)
  | Some col => accum_values L pts col (agg_func a) (min_count a)
  end.

(** [~np.isnan(accum)] and [accum[good_idxs]] (lines 151, 191, 193). *)
Definition good (c : option R) : bool :=
  match c with
  | Some _ => true
  | None => false
  end.

Fixpoint values_of (accum : list (option R)) : list R :=
  match accum with
  | [] => []
  | Some v :: t => v :: values_of t
  | None :: t => values_of t
  end.

(** Cell centres before filtering (lines 195-203). *)
Definition all_centers (L : Lattice) : list (R * R) :=
  let col0 :=
    np_repeat (np_arange (nx1 L)) (ny1 L)
    ++ np_repeat (map (fun v => v + 0.5) (np_arange (nx2 L))) (ny2 L) in
  let col1 :=
    np_tile (np_arange (ny1 L)) (nx1 L)
    ++ map (fun v => v + 0.5) (np_tile (np_arange (ny2 L)) (nx2 L)) in
  let col0 := map (fun v => v * dx L + xmin L) col0 in
  let col1 := map (fun v => v * dy L + ymin L) col1 in
  combine col0 col1.

(** Scale of the hexagons (lines 220-224). *)
Definition item1 (l : list R) : result R :=
  match nth_error l 1 with
  | Some v => Value v
  | None => Raise IndexError
  end.

Definition spacing (coords : list R) : result R :=
  item1 (sorted (pyset (np_diff (sorted coords)))).

Definition hex_scale (centers : list (R * R)) : result (R * R) :=
  dxh <- spacing (map fst centers) ;;
  dyh <- spacing (map snd centers) ;;
  let nx := dxh * 2 in
  let ny := 2 / 3 * dyh / (0.5 / cos (PI / 6)) in
  Value (nx, ny).

Definition hx : list R := [0; 0.5; 0.5; 0; -0.5; -0.5].
Definition hy : list R :=
  [ -0.5 / cos (PI / 6);
    -0.5 * tan (PI / 6);
    0.5 * tan (PI / 6);
    0.5 / cos (PI / 6);
    0.5 * tan (PI / 6);
    -0.5 * tan (PI / 6) ].

(** The four returned arrays.  [hexagons_ids] holds each centre pair; the
    source renders the pair as the string ["x,y"]. *)
Record Output : Type := {
  hexagons_lats : list (list R);
  hexagons_lons : list (list R);
  hexagons_ids : list (R * R);
  agreggated_value : list R
}.

Definition polygons (centers : list (R * R)) (agreggated_value : list R)
  : result Output :=
  ' (nx, ny) <- hex_scale centers ;;
  let hxs := map (fun c => map (fun h => h * nx + fst c) hx) centers in
  let hys := map (fun c => map (fun h => h * ny + snd c) hy) centers in
  let hexagons_lats := map (map unproject_lat) hys in
  let hexagons_lons := map (map unproject_lon) hxs in
  Value {| hexagons_lats := hexagons_lats;
           hexagons_lons := hexagons_lons;
           hexagons_ids := centers;
           agreggated_value := agreggated_value |}.

Definition _compute_hexbin (a : Args) : result Output :=
  L <- make_lattice a ;;
  let pts := normalise L (lat a) (lon a) in
  accum <- accumulate a L pts ;;
  let good_idxs := map good accum in
  let agreggated_value := values_of accum in
  let centers := mask_select (all_centers L) good_idxs in
  polygons centers agreggated_value.

(** *** Notions used by the statements *)

(** A point lies within the bounding latitude/longitude range. *)
Definition in_range (lo hi v : R) : bool :=
  if Rle_dec lo v then (if Rle_dec v hi then true else false) else false.

Definition within (lat_range lon_range : R * R) (p : R * R) : bool :=
  in_range (fst lat_range) (snd lat_range) (fst p)
  && in_range (fst lon_range) (snd lon_range) (snd p).

(** Both lattices can be allocated. *)
Definition nonneg_dims (L : Lattice) : Prop :=
  (0 <= nx1 L)%Z /\ (0 <= ny1 L)%Z /\ (0 <= nx2 L)%Z /\ (0 <= ny2 L)%Z.

(** The point is accumulated into one of the two lattices. *)
Definition selected (L : Lattice) (p : point) : bool := c1 L p || c2 L p.

(** [c < m] and [c > m] as propositions. *)
Definition ext_lt (c : R) (m : ExtR) : Prop :=
  match m with
  | NegInf => False
  | Finite r => c < r
  | PosInf => True
  end.

Definition ext_gt (c : R) (m : ExtR) : Prop :=
  match m with
  | NegInf => True
  | Finite r => r < c
  | PosInf => False
  end.

(** [d] is the second-smallest of the distinct values of [ds]. *)
Definition second_smallest (d : R) (ds : list R) : Prop :=
  In d ds
  /\ exists d0, In d0 ds /\ d0 < d /\ forall e, In e ds -> e = d0 \/ d <= e.

(** The spacing as the specification words it: the second-smallest of the
    distinct positive consecutive differences. *)
Definition positive (v : R) : bool := if Rlt_dec 0 v then true else false.

Definition spec_spacing (coords : list R) : option R :=
  nth_error (sorted (pyset (filter positive (np_diff (sorted coords))))) 1.

(** *** Example calls

    A bounding range of 30 degrees by 30 degrees from the equator and the
    prime meridian, with one hexagon horizontally. *)
Definition mean (vals : list R) : R := sumR vals / INR (length vals).

Definition box30 (lat lon : list R) (color : option (list R))
  (min_count : option ExtR) : Args :=
  {| lat := lat; lon := lon;
     lat_range := Some (0, 30); lon_range := Some (0, 30);
     color := color; nx := 1; agg_func := mean; min_count := min_count |}.

Definition lattice30 : Lattice :=
  {| xmin := 0; ymin := 0; dx := PI / 6; dy := PI / 6 * sqrt 3;
     nx1 := 2; ny1 := 2; nx2 := 1; ny2 := 1 |}.

(** Two points on the equator: the bounding range has zero latitude
    extent. *)
Definition flat30 : Args :=
  {| lat := [0; 0]; lon := [0; 30];
     lat_range := Some (0, 0); lon_range := Some (0, 30);
     color := None; nx := 1; agg_func := mean; min_count := Some NegInf |}.

Definition flat_lattice : Lattice :=
  {| xmin := 0; ymin := 0; dx := PI / 6; dy := PI / 6 * sqrt 3;
     nx1 := 2; ny1 := 1; nx2 := 1; ny2 := 0 |}.

(** The normalised ordinate of latitude 30 on [lattice30]. *)
Definition y30 : R := ln 3 / 2 / (PI / 6 * sqrt 3).

End Hexbin.

(** ** Further notions used by the statements *)

(** The number of cells of the two lattices. *)
Definition cells (L : Hexbin.Lattice) : nat :=
  (Z.to_nat (Hexbin.nx1 L) * Z.to_nat (Hexbin.ny1 L)
   + Z.to_nat (Hexbin.nx2 L) * Z.to_nat (Hexbin.ny2 L))%nat.

(** The two columns of the array of centres (lines 196-203). *)
Definition column0 (L : Hexbin.Lattice) : list R :=
  map (fun v => v * Hexbin.dx L + Hexbin.xmin L)
      (np_repeat (np_arange (Hexbin.nx1 L)) (Hexbin.ny1 L)
       ++ np_repeat (map (fun v => v + 0.5) (np_arange (Hexbin.nx2 L)))
                    (Hexbin.ny2 L)).

Definition column1 (L : Hexbin.Lattice) : list R :=
  map (fun v => v * Hexbin.dy L + Hexbin.ymin L)
      (np_tile (np_arange (Hexbin.ny1 L)) (Hexbin.nx1 L)
       ++ map (fun v => v + 0.5)
              (np_tile (np_arange (Hexbin.ny2 L)) (Hexbin.nx2 L))).

(** ** GeoJSON packaging (lines 239-257) *)

Module Geojson.

(** The constant strings of the ['type'] fields. *)
Inductive type_tag : Set :=
| Feature_tag             (* 'Feature' *)
| Polygon_tag             (* 'Polygon' *)
| FeatureCollection_tag.  (* 'FeatureCollection' *)

(** A feature identifier: an index of [np.arange] when [ids] is [None],
    otherwise the identifier supplied. *)
Inductive feature_id (A : Type) : Type :=
| Index (k : Z)
| Given (a : A).
Arguments Index {A} k.
Arguments Given {A} a.

Record Geometry : Type := {
  geometry_type : type_tag;
  coordinates : list (list (R * R))
}.

Record Feature (A : Type) : Type := {
  feature_type : type_tag;
  id : feature_id A;
  geometry : Geometry
}.
Arguments feature_type {A} _.
Arguments id {A} _.
Arguments geometry {A} _.

Record FeatureCollection (A : Type) : Type := {
  collection_type : type_tag;
  features : list (Feature A)
}.
Arguments collection_type {A} _.
Arguments features {A} _.

(** [np.array([lon, lat]).T.tolist()] followed by
    [points.append(points[0])]: the vertices as [lon, lat] pairs, the first
    one repeated at the end.  [points[0]] fails on an empty list.  Rows of
    different lengths are outside the intended use (current NumPy rejects
    the ragged array); the properties below assume equal lengths. *)
Definition ring_of (lat lon : list R) : result (list (R * R)) :=
  if Nat.eqb (length lon) (length lat) then
    let points := combine lon lat in
    match points with
    | [] => Raise IndexError
    | p0 :: _ => Value (points ++ [p0])
    end
  else Raise ValueError.

(** [zip(hexagons_lats, hexagons_lons, ids)] stops at the shortest. *)
Fixpoint zip3 {A B C : Type} (u : list A) (v : list B) (w : list C)
  : list (A * B * C) :=
  match u, v, w with
  | a :: u', b :: v', c :: w' => (a, b, c) :: zip3 u' v' w'
  | _, _, _ => []
  end.

(** The loop of lines 247-256. *)
Fixpoint features_of {A : Type}
  (rows : list (list R * list R * feature_id A))
  : result (list (Feature A)) :=
  match rows with
  | [] => Value []
  | (lat, lon, idx) :: rows' =>
      points <- ring_of lat lon ;;
      rest <- features_of rows' ;;
      Value ({| feature_type := Feature_tag;
                id := idx;
                geometry := {| geometry_type := Polygon_tag;
                               coordinates := [points] |} |} :: rest)
  end.

Definition default_ids {A : Type} (n : nat) : list (feature_id A) :=
  map (fun k => Index (Z.of_nat k)) (seq 0 n).

Definition _hexagons_to_geojson {A : Type}
  (hexagons_lats hexagons_lons : list (list R)) (ids : option (list A))
  : result (FeatureCollection A) :=
  let ids :=
    match ids with
    | None => default_ids (length hexagons_lats)
    | Some l => map Given l
    end in
  features <- features_of (zip3 hexagons_lats hexagons_lons ids) ;;
  Value {| collection_type := FeatureCollection_tag; features := features |}.

(** A ring whose last vertex repeats the first. *)
Definition closed (ring : list (R * R)) : Prop :=
  exists p0 rest, ring = p0 :: rest ++ [p0].

(** A zipped row that can be drawn: as many longitudes as latitudes, and
    at least one vertex. *)
Definition drawable {A : Type} (row : list R * list R * feature_id A)
  : Prop :=
  length (snd (fst row)) = length (fst (fst row)) /\ fst (fst row) <> [].

End Geojson.

(** ** Further notions for the aggregator *)

(** [np.sum] as an aggregation function. *)
Definition np_sum (vals : list R) : R := sumR vals.

(** The colours read by the loop of lines 166-172: those of the points
    accumulated into one of the two lattices, in input order. *)
Definition selected_colors (L : Hexbin.Lattice) (pts : list Hexbin.point)
  (color : list R) : list R :=
  map snd (filter (fun pc => Hexbin.selected L (fst pc)) (combine pts color)).

(** ** Default view of the figure (lines 303-315 of [hexbin_mapbox]) *)

Module View.

(** [mapDim] as chosen from the optional [height] and [width]. *)
Definition default_mapDim (height width : option R) : Zoom.MapDim :=
  match height, width with
  | None, None => {| Zoom.height := 450; Zoom.width := 450 |}
  | None, Some w => {| Zoom.height := 450; Zoom.width := w |}
  | Some h, None => {| Zoom.height := h; Zoom.width := h |}
  | Some h, Some w => {| Zoom.height := h; Zoom.width := w |}
  end.

(** The zoom when [zoom] is [None]: [_getBoundsZoomLevel] applied to the
    two bounds of [lon_range], the two bounds of [lat_range] and
    [mapDim]. *)
Definition resolve_zoom (zoom : option R) (height width : option R)
  (lon_range lat_range : R * R) : R :=
  match zoom with
  | Some z => z
  | None =>
      Zoom._getBoundsZoomLevel (fst lon_range) (snd lon_range)
                               (fst lat_range) (snd lat_range)
                               (default_mapDim height width)
  end.

(** [center = dict(lat=lat_range.mean(), lon=lon_range.mean())] when
    [center] is [None]; the pair is (lat, lon). *)
Definition resolve_center (center : option (R * R))
  (lat_range lon_range : R * R) : R * R :=
  match center with
  | Some c => c
  | None => ((fst lat_range + snd lat_range) / 2,
             (fst lon_range + snd lon_range) / 2)
  end.

End View.

(** * Projector *)

Lemma sin_open_unit (phi : R) :
  - (PI / 2) < phi < PI / 2 -> -1 < sin phi < 1.
Proof.
  intros [Hl Hu]. split.
  - replace (-1) with (sin (- (PI / 2))) by (rewrite sin_neg, sin_PI2; lra).
    apply sin_increasing_1; lra.
  - rewrite <- sin_PI2. apply sin_increasing_1; lra.
Qed.

Lemma tan_half_shift_sqr (phi : R) :
  - (PI / 2) < phi < PI / 2 ->
  Rsqr (tan (phi / 2 + PI / 4)) = (1 + sin phi) / (1 - sin phi).
Proof.
  intros Hphi.
  pose proof (sin_open_unit phi Hphi) as Hs.
  set (u := phi / 2 + PI / 4).
  assert (Hc : 0 < cos u) by (apply cos_gt_0; unfold u; lra).
  assert (Hsin : sin phi = - cos (2 * u)).
  { rewrite (sin_cos phi). f_equal. f_equal. unfold u. field. }
  assert (H1 : 1 + sin phi = 2 * Rsqr (sin u)).
  { rewrite Hsin, cos_2a_sin. unfold Rsqr. ring. }
  assert (H2 : 1 - sin phi = 2 * Rsqr (cos u)).
  { rewrite Hsin, cos_2a_cos. unfold Rsqr. ring. }
  rewrite H1, H2. unfold tan, Rsqr. field. lra.
Qed.

Lemma exp_arctanh_sqr (s : R) :
  -1 < s < 1 -> Rsqr (exp (arctanh s)) = (1 + s) / (1 - s).
Proof.
  intros Hs. unfold arctanh, Rsqr.
  rewrite <- exp_plus.
  replace (ln ((1 + s) / (1 - s)) / 2 + ln ((1 + s) / (1 - s)) / 2)
    with (ln ((1 + s) / (1 - s))) by field.
  apply exp_ln. apply Rdiv_lt_0_compat; lra.
Qed.

Lemma gudermann_inverse (phi : R) :
  - (PI / 2) < phi < PI / 2 ->
  2 * atan (exp (arctanh (sin phi))) - PI / 2 = phi.
Proof.
  intros Hphi.
  assert (Ht : exp (arctanh (sin phi)) = tan (phi / 2 + PI / 4)).
  { apply Rsqr_inj.
    - left. apply exp_pos.
    - left. apply tan_gt_0; lra.
    - rewrite exp_arctanh_sqr by (apply sin_open_unit; exact Hphi).
      symmetry. apply tan_half_shift_sqr. exact Hphi. }
  rewrite Ht, atan_tan by lra. field.
Qed.

Lemma degrees_in_quadrant (lat : R) :
  -90 < lat < 90 -> - (PI / 2) < lat * PI / 180 < PI / 2.
Proof.
  intros [Hl Hu]. pose proof PI_RGT_0 as Hpi.
  split; nra.
Qed.

Lemma unproject_project_lat (lat : R) :
  -90 < lat < 90 -> unproject_lat (project_y lat) = lat.
Proof.
  intros Hlat. unfold unproject_lat, project_y.
  rewrite gudermann_inverse by (apply degrees_in_quadrant; exact Hlat).
  pose proof PI_RGT_0. field. lra.
Qed.

Lemma unproject_project_lon (lon : R) :
  unproject_lon (project_x lon) = lon.
Proof.
  unfold unproject_lon, project_x. pose proof PI_RGT_0. field. lra.
Qed.

(** C7. Round trip of the projector: for every latitude in
    (-89.999, 89.999) and longitude in [-180, 180], projecting to the plane
    and back returns the input pair within 1e-9.  Over the reals the two
    transforms are exact inverses, so both differences are zero. *)
Theorem projector_roundtrip (lat lon : R) :
  -89.999 < lat < 89.999 ->
  -180 <= lon <= 180 ->
  let '(x, y) := _project_latlon_to_wgs84 lat lon in
  let '(lat', lon') := _project_wgs84_to_latlon x y in
  Rabs (lat' - lat) <= 1 / 10 ^ 9 /\ Rabs (lon' - lon) <= 1 / 10 ^ 9.
Proof.
  intros Hlat Hlon.
  unfold _project_latlon_to_wgs84, _project_wgs84_to_latlon.
  rewrite unproject_project_lat by lra.
  rewrite unproject_project_lon.
  replace (lat - lat) with 0 by ring.
  replace (lon - lon) with 0 by ring.
  rewrite Rabs_R0. split; lra.
Qed.

Lemma projector_roundtrip_witness :
  (-89.999 < 45 < 89.999) /\ (-180 <= 120 <= 180) /\
  (let '(x, y) := _project_latlon_to_wgs84 45 120 in
   let '(lat', lon') := _project_wgs84_to_latlon x y in
   Rabs (lat' - 45) <= 1 / 10 ^ 9 /\ Rabs (lon' - 120) <= 1 / 10 ^ 9).
Proof.
  assert (H1 : -89.999 < 45 < 89.999) by lra.
  assert (H2 : -180 <= 120 <= 180) by lra.
  split; [exact H1 | split; [exact H2 |]].
  exact (projector_roundtrip 45 120 H1 H2).
Defined.

(** * Zoom estimator *)

Module ZoomFacts.
Import Zoom.

Lemma ln2_pos : 0 < ln 2.
Proof. rewrite <- ln_1. apply ln_increasing; lra. Qed.

Lemma zoom_axis_estimate (mapPx fraction : R) :
  zoom mapPx (256 * scale) fraction = axis_estimate mapPx fraction.
Proof.
  unfold zoom, axis_estimate, log2, scale. unfold Rdiv. ring.
Qed.

Lemma lngFraction_lon_fraction (lon_min lon_max : R) :
  lngFraction lon_min lon_max = lon_fraction lon_min lon_max.
Proof.
  unfold lngFraction, lon_fraction.
  destruct (Rlt_dec (lon_max - lon_min) 0), (Rlt_dec lon_max lon_min);
    try reflexivity; lra.
Qed.

(** Shrinking a pixel dimension by [k] lowers its axis estimate by the
    constant [0.95 * log2 (1 / k)]. *)
Lemma zoom_scaled (k mapPx worldPx fraction : R) :
  0 < k -> 0 < mapPx -> 0 < worldPx -> 0 < fraction ->
  zoom (k * mapPx) worldPx fraction
  = zoom mapPx worldPx fraction + 0.95 * ln k / ln 2.
Proof.
  intros Hk Hm Hw Hf. unfold zoom.
  assert (Hq : 0 < mapPx / worldPx / fraction).
  { apply Rdiv_lt_0_compat; [apply Rdiv_lt_0_compat|]; assumption. }
  replace (k * mapPx / worldPx / fraction)
    with (k * (mapPx / worldPx / fraction)) by (field; lra).
  rewrite ln_mult by assumption.
  pose proof ln2_pos. field. lra.
Qed.

Lemma zoom_large (mapPx worldPx fraction : R) :
  0 < worldPx -> 0 < fraction ->
  524288 * worldPx * fraction <= mapPx ->
  18 <= zoom mapPx worldPx fraction.
Proof.
  intros Hw Hf Hbig. unfold zoom.
  pose proof ln2_pos as Hln2.
  assert (H19 : 2 ^ 19 = 524288) by (simpl; lra).
  rewrite <- H19 in Hbig.
  assert (Hq : 2 ^ 19 <= mapPx / worldPx / fraction).
  { apply Rmult_le_reg_r with (worldPx * fraction); [nra|].
    replace (mapPx / worldPx / fraction * (worldPx * fraction))
      with mapPx by (field; lra).
    lra. }
  assert (Hln : 19 * ln 2 <= ln (mapPx / worldPx / fraction)).
  { replace (19 * ln 2) with (ln (2 ^ 19)).
    - destruct Hq as [Hq | Hq].
      + left. apply ln_increasing; [lra | exact Hq].
      + right. rewrite Hq. reflexivity.
    - rewrite ln_pow by lra. simpl INR. ring. }
  apply Rmult_le_reg_r with (ln 2); [exact Hln2|].
  replace (0.95 * ln (mapPx / worldPx / fraction) / ln 2 * ln 2)
    with (0.95 * ln (mapPx / worldPx / fraction)) by (field; lra).
  lra.
Qed.

Lemma Rmin_shift (a b d : R) : Rmin (a + d) (b + d) = Rmin a b + d.
Proof.
  unfold Rmin. destruct (Rle_dec (a + d) (b + d)), (Rle_dec a b); lra.
Qed.

Lemma ln_le_minus_1 (v : R) : 0 < v -> ln v <= v - 1.
Proof.
  intros Hv.
  pose proof (exp_ineq1_le (v - 1)) as He.
  replace (1 + (v - 1)) with v in He by ring.
  destruct He as [He | He].
  - left. rewrite <- (ln_exp (v - 1)). apply ln_increasing; assumption.
  - right. rewrite He at 1. apply ln_exp.
Qed.

Lemma latRad_0 : latRad 0 = 0.
Proof.
  unfold latRad.
  replace (0 * PI / 180) with 0 by (unfold Rdiv; ring).
  rewrite sin_0.
  replace ((1 + 0) / (1 - 0)) with 1 by field.
  rewrite ln_1.
  pose proof PI_RGT_0.
  replace (0 / 2) with 0 by field.
  rewrite Rmin_left by lra. rewrite Rmax_left by lra. field.
Qed.

(** Near the equator [latRad] is positive and small. *)
Lemma latRad_small (lat : R) :
  0 < lat <= 1 / 1000 -> 0 < latRad lat <= lat / 40.
Proof.
  intros [Hpos Hle]. unfold latRad.
  pose proof PI_RGT_0 as Hpi0. pose proof PI_4 as Hpi4.
  pose proof PI2_3_2 as Hpi3.
  set (phi := lat * PI / 180).
  assert (Hphi : 0 < phi <= lat / 45) by (unfold phi; split; nra).
  assert (Hs : 0 < sin phi < phi).
  { split; [apply sin_gt_0; lra | apply sin_lt_x; lra]. }
  set (s := sin phi) in *.
  assert (Hq : 1 < (1 + s) / (1 - s)).
  { apply Rmult_lt_reg_r with (1 - s); [lra|].
    replace ((1 + s) / (1 - s) * (1 - s)) with (1 + s) by (field; lra). lra. }
  assert (Hlo : 0 < ln ((1 + s) / (1 - s))).
  { rewrite <- ln_1. apply ln_increasing; lra. }
  assert (Hhi : ln ((1 + s) / (1 - s)) <= lat / 20).
  { apply Rle_trans with ((1 + s) / (1 - s) - 1);
      [apply ln_le_minus_1; lra|].
    apply Rmult_le_reg_r with (1 - s); [lra|].
    replace (((1 + s) / (1 - s) - 1) * (1 - s)) with (2 * s) by (field; lra).
    nra. }
  rewrite Rmin_left by lra. rewrite Rmax_left by lra. lra.
Qed.

Lemma latFraction_tiny_box :
  0 < latFraction 0 (1 / 100000) <= 1 / 10000000.
Proof.
  unfold latFraction. rewrite latRad_0.
  assert (Hr : 0 < 1 / 100000 <= 1 / 1000) by lra.
  pose proof (latRad_small _ Hr) as [Hlo Hhi].
  pose proof PI_RGT_0 as Hpi0. pose proof PI2_3_2 as Hpi3.
  set (r := latRad (1 / 100000)) in *.
  replace ((r - 0) / PI) with (r / PI) by (field; lra).
  split.
  - apply Rdiv_lt_0_compat; lra.
  - apply Rmult_le_reg_r with PI; [lra|].
    replace (r / PI * PI) with r by (field; lra). nra.
Qed.

Lemma lngFraction_tiny_box : lngFraction 0 (1 / 100000) = 1 / 36000000.
Proof.
  unfold lngFraction. destruct (Rlt_dec (1 / 100000 - 0) 0); [lra | field].
Qed.

Lemma zoom_tiny_box_capped (px : R) :
  225 <= px ->
  _getBoundsZoomLevel 0 (1 / 100000) 0 (1 / 100000)
                      {| height := px; width := px |} = 18.
Proof.
  intros Hpx. unfold _getBoundsZoomLevel, WORLD_DIM, scale, ZOOM_MAX.
  cbn [height width].
  pose proof latFraction_tiny_box as [Hf0 Hf1].
  assert (Hlat : 18 <= zoom px (256 * 2) (latFraction 0 (1 / 100000))).
  { apply zoom_large; [lra | exact Hf0 | lra]. }
  assert (Hlng : 18 <= zoom px (256 * 2) (lngFraction 0 (1 / 100000))).
  { rewrite lngFraction_tiny_box. apply zoom_large; lra. }
  apply Rmin_right. apply Rmin_glb; assumption.
Qed.

End ZoomFacts.

(** C8. The zoom estimator returns the minimum of the latitude-axis
    estimate, the longitude-axis estimate and the cap 18, each axis estimate
    being 0.95 * log2 (pixel_dimension / (256 * 2) / fraction), with 360
    added to the longitude difference when lon_max < lon_min; hence the
    returned zoom never exceeds 18. *)
Theorem zoom_is_min_of_estimates_and_cap
  (lon_min lon_max lat_min lat_max : R) (mapDim : Zoom.MapDim) :
  Zoom._getBoundsZoomLevel lon_min lon_max lat_min lat_max mapDim
  = Rmin (Rmin (Zoom.axis_estimate (Zoom.height mapDim)
                                   (Zoom.latFraction lat_min lat_max))
               (Zoom.axis_estimate (Zoom.width mapDim)
                                   (Zoom.lon_fraction lon_min lon_max)))
         18
  /\ Zoom._getBoundsZoomLevel lon_min lon_max lat_min lat_max mapDim <= 18.
Proof.
  unfold Zoom._getBoundsZoomLevel, Zoom.WORLD_DIM, Zoom.ZOOM_MAX.
  cbn [Zoom.height Zoom.width].
  rewrite !ZoomFacts.zoom_axis_estimate, ZoomFacts.lngFraction_lon_fraction.
  split; [reflexivity | apply Rmin_r].
Qed.

(** C9, as stated, fails: for a box one hundred-thousandth of a degree wide and
    high the estimate is the cap 18 both at 450 x 450 pixels and at the
    proportionally smaller 225 x 225 pixels, so it does not strictly
    decrease. *)
Lemma zoom_not_strictly_decreasing_at_cap :
  let big := {| Zoom.height := 450; Zoom.width := 450 |} in
  let small := Zoom.shrink (1 / 2) big in
  Zoom.height small = 225 /\ Zoom.width small = 225 /\
  ~ (Zoom._getBoundsZoomLevel 0 (1 / 100000) 0 (1 / 100000) small
     < Zoom._getBoundsZoomLevel 0 (1 / 100000) 0 (1 / 100000) big).
Proof.
  cbn zeta. unfold Zoom.shrink. cbn [Zoom.height Zoom.width].
  replace (1 / 2 * 450) with 225 by field.
  split; [reflexivity | split; [reflexivity |]].
  rewrite !ZoomFacts.zoom_tiny_box_capped by lra. lra.
Qed.

(** C9, amended.  For a fixed bounding box with positive latitude and
    longitude fractions, shrinking both pixel dimensions by the same factor
    k in (0, 1) never increases the estimated zoom, and strictly decreases
    it whenever the estimate for the smaller dimensions is below the cap
    18. *)
Theorem zoom_monotone_below_cap
  (lon_min lon_max lat_min lat_max k : R) (mapDim : Zoom.MapDim) :
  0 < k < 1 ->
  0 < Zoom.height mapDim -> 0 < Zoom.width mapDim ->
  0 < Zoom.latFraction lat_min lat_max ->
  0 < Zoom.lngFraction lon_min lon_max ->
  let z := Zoom._getBoundsZoomLevel lon_min lon_max lat_min lat_max mapDim in
  let z' := Zoom._getBoundsZoomLevel lon_min lon_max lat_min lat_max
                                     (Zoom.shrink k mapDim) in
  z' <= z /\ (z' < Zoom.ZOOM_MAX -> z' < z).
Proof.
  intros Hk Hh Hw Hlat Hlng.
  unfold Zoom._getBoundsZoomLevel, Zoom.shrink, Zoom.WORLD_DIM, Zoom.scale.
  cbn [Zoom.height Zoom.width].
  rewrite !ZoomFacts.zoom_scaled by lra.
  set (a := Zoom.zoom (Zoom.height mapDim) (256 * 2) _).
  set (b := Zoom.zoom (Zoom.width mapDim) (256 * 2) _).
  assert (Hd : 0.95 * ln k / ln 2 < 0).
  { pose proof ZoomFacts.ln2_pos as Hln2.
    assert (Hlnk : ln k < 0) by (rewrite <- ln_1; apply ln_increasing; lra).
    apply Rmult_lt_reg_r with (ln 2); [exact Hln2|].
    replace (0.95 * ln k / ln 2 * ln 2) with (0.95 * ln k) by (field; lra).
    lra. }
  set (d := 0.95 * ln k / ln 2) in *.
  cbn zeta. rewrite ZoomFacts.Rmin_shift.
  set (m := Rmin a b). unfold Rmin, Zoom.ZOOM_MAX.
  destruct (Rle_dec (m + d) 18), (Rle_dec m 18); split; intros; lra.
Qed.

Lemma zoom_monotone_below_cap_witness :
  let mapDim := {| Zoom.height := 450; Zoom.width := 450 |} in
  let z := Zoom._getBoundsZoomLevel 0 (1 / 100000) 0 (1 / 100000) mapDim in
  let z' := Zoom._getBoundsZoomLevel 0 (1 / 100000) 0 (1 / 100000)
                                     (Zoom.shrink (1 / 2) mapDim) in
  z' <= z /\ (z' < Zoom.ZOOM_MAX -> z' < z).
Proof.
  refine (zoom_monotone_below_cap 0 (1 / 100000) 0 (1 / 100000) (1 / 2)
            {| Zoom.height := 450; Zoom.width := 450 |} _ _ _ _ _).
  - lra.
  - cbn. lra.
  - cbn. lra.
  - exact (proj1 ZoomFacts.latFraction_tiny_box).
  - rewrite ZoomFacts.lngFraction_tiny_box. lra.
Defined.

(** * Arrays *)

Lemma sumR_app (a b : list R) : sumR (a ++ b) = sumR a + sumR b.
Proof.
  induction a as [|u t IH]; simpl; [ring | rewrite IH; ring].
Qed.

Lemma upd_length {A : Type} (f : A -> A) (n : nat) (l : list A) :
  length (upd f n l) = length l.
Proof.
  revert n. induction l as [|a t IH]; intros [|n]; simpl; auto.
Qed.

Lemma shaped_repeat {A : Type} (r c : nat) (v : A) :
  shaped r c (repeat (repeat v c) r).
Proof.
  split.
  - apply repeat_length.
  - apply Forall_forall. intros row Hin.
    apply repeat_spec in Hin. subst row. apply repeat_length.
Qed.

Lemma upd_rows_shaped {A : Type} (g : list A -> list A) (r c n : nat)
  (l : list (list A)) :
  (forall row, length (g row) = length row) ->
  shaped r c l -> shaped r c (upd g n l).
Proof.
  intros Hg [Hlen Hrows]. split.
  - rewrite upd_length. exact Hlen.
  - clear Hlen. revert n.
    induction Hrows as [|row t Hrow Ht IH]; intros [|n]; simpl;
      constructor; auto.
    rewrite Hg. exact Hrow.
Qed.

Lemma upd2_shaped {A : Type} (f : A -> A) (r c : nat) (i j : Z)
  (l : list (list A)) :
  shaped r c l -> shaped r c (upd2 f i j l).
Proof.
  unfold upd2. apply upd_rows_shaped. intros row. apply upd_length.
Qed.

Lemma total_cons {A : Type} (weight : A -> R) (row : list A)
  (l : list (list A)) :
  total weight (row :: l) = sumR (map weight row) + total weight l.
Proof.
  unfold total, ravel. simpl. rewrite map_app, sumR_app. reflexivity.
Qed.

Lemma total_repeat {A : Type} (weight : A -> R) (v : A) (r c : nat) :
  weight v = 0 -> total weight (repeat (repeat v c) r) = 0.
Proof.
  intros Hv.
  assert (Hrow : sumR (map weight (repeat v c)) = 0).
  { induction c as [|c IH]; simpl; [reflexivity | rewrite Hv, IH; ring]. }
  induction r as [|r IH]; [reflexivity|].
  simpl repeat. rewrite total_cons, Hrow, IH. ring.
Qed.

(** Updating one in-range cell by a function that adds [step] to its weight
    adds [step] to the content of the array. *)
Section Measure.

Context {A : Type} (weight : A -> R) (f : A -> A) (step : R).
Hypothesis f_step : forall a, weight (f a) = weight a + step.

Lemma row_upd (n : nat) (row : list A) :
  (n < length row)%nat ->
  sumR (map weight (upd f n row)) = sumR (map weight row) + step.
Proof.
  revert n.
  induction row as [|a t IH]; intros [|n] Hn; simpl in *; try lia.
  - rewrite f_step. ring.
  - rewrite IH by lia. ring.
Qed.

Lemma total_upd (r c i j : nat) (l : list (list A)) :
  shaped r c l -> (i < r)%nat -> (j < c)%nat ->
  total weight (upd (upd f j) i l) = total weight l + step.
Proof.
  intros [Hlen Hrows]. subst r. revert i.
  induction Hrows as [|row t Hrow Ht IH]; intros [|i] Hi Hj;
    simpl in *; try lia.
  - rewrite !total_cons, row_upd by lia. ring.
  - rewrite !total_cons, IH by lia. ring.
Qed.

Lemma total_upd2 (nxk nyk ix iy : Z) (l : list (list A)) :
  shaped (Z.to_nat nxk) (Z.to_nat nyk) l ->
  Hexbin.in_bounds nxk nyk ix iy = true ->
  total weight (upd2 f ix iy l) = total weight l + step.
Proof.
  intros Hs Hb. unfold Hexbin.in_bounds in Hb.
  apply andb_prop in Hb as [Hb Hy2]. apply andb_prop in Hb as [Hb Hy1].
  apply andb_prop in Hb as [Hx1 Hx2].
  apply Z.leb_le in Hx1, Hy1. apply Z.ltb_lt in Hx2, Hy2.
  unfold upd2. apply total_upd with (1 := Hs); lia.
Qed.

End Measure.

Lemma np_zeros_ok (r c : Z) :
  (0 <= r)%Z -> (0 <= c)%Z ->
  exists l, np_zeros r c = Value l
            /\ shaped (Z.to_nat r) (Z.to_nat c) l
            /\ total (fun v => v) l = 0.
Proof.
  intros Hr Hc. unfold np_zeros.
  replace ((r <? 0) || (c <? 0))%Z with false
    by (symmetry; apply orb_false_iff; split; apply Z.ltb_ge; assumption).
  eexists. split; [reflexivity | split].
  - apply shaped_repeat.
  - apply total_repeat. reflexivity.
Qed.

Lemma np_empty_lists_ok (r c : Z) :
  (0 <= r)%Z -> (0 <= c)%Z ->
  exists l, np_empty_lists r c = Value l
            /\ shaped (Z.to_nat r) (Z.to_nat c) l
            /\ total (fun vals : list R => INR (length vals)) l = 0.
Proof.
  intros Hr Hc. unfold np_empty_lists.
  replace ((r <? 0) || (c <? 0))%Z with false
    by (symmetry; apply orb_false_iff; split; apply Z.ltb_ge; assumption).
  eexists. split; [reflexivity | split].
  - apply shaped_repeat.
  - apply total_repeat. reflexivity.
Qed.

Lemma np_zeros_negative (r c : Z) :
  (r < 0)%Z \/ (c < 0)%Z -> np_zeros r c = Raise ValueError.
Proof.
  intros H. unfold np_zeros.
  replace ((r <? 0) || (c <? 0))%Z with true; [reflexivity|].
  symmetry. apply orb_true_iff.
  destruct H; [left | right]; apply Z.ltb_lt; assumption.
Qed.

Lemma np_empty_lists_negative (r c : Z) :
  (r < 0)%Z \/ (c < 0)%Z -> np_empty_lists r c = Raise ValueError.
Proof.
  intros H. unfold np_empty_lists.
  replace ((r <? 0) || (c <? 0))%Z with true; [reflexivity|].
  symmetry. apply orb_true_iff.
  destruct H; [left | right]; apply Z.ltb_lt; assumption.
Qed.

(** [np.add.at] with in-range indices adds one per index. *)
Lemma np_add_at_total (nxk nyk : Z) (idx : list (Z * Z)) (l : list (list R)) :
  shaped (Z.to_nat nxk) (Z.to_nat nyk) l ->
  Forall (fun ij => Hexbin.in_bounds nxk nyk (fst ij) (snd ij) = true) idx ->
  shaped (Z.to_nat nxk) (Z.to_nat nyk) (np_add_at l idx)
  /\ total (fun v => v) (np_add_at l idx)
     = total (fun v => v) l + INR (length idx).
Proof.
  intros Hs Hidx. revert l Hs.
  induction Hidx as [|ij t Hij Ht IH]; intros l Hs.
  - simpl. split; [exact Hs | ring].
  - unfold np_add_at in *. cbn [fold_left].
    destruct (IH (upd2 (fun c => c + 1) (fst ij) (snd ij) l)) as [Hs' Ht'].
    { apply upd2_shaped. exact Hs. }
    split; [exact Hs'|].
    rewrite Ht'.
    rewrite (total_upd2 (fun v => v) (fun c => c + 1) 1
               (fun a => eq_refl) nxk nyk _ _ l Hs Hij).
    change (length (ij :: t)) with (S (length t)). rewrite S_INR. ring.
Qed.

(** * Rounding and numeric bounds *)

Lemma np_floor_eq (z : Z) (x : R) :
  IZR z <= x < IZR z + 1 -> np_floor x = z.
Proof. apply Zfloor_eq. Qed.

Lemma np_round_near (z : Z) (x : R) :
  IZR z - 1 / 2 < x < IZR z + 1 / 2 -> np_round x = z.
Proof.
  intros [Hlo Hhi]. unfold np_round.
  destruct (Rle_dec (IZR z) x) as [Hge | Hlt].
  - rewrite (Zfloor_eq z x) by lra.
    destruct (Rlt_dec (x - IZR z) (1 / 2)); [reflexivity | lra].
  - rewrite (Zfloor_eq (z - 1) x) by (rewrite minus_IZR; lra).
    rewrite minus_IZR.
    destruct (Rlt_dec (x - (IZR z - 1)) (1 / 2)); [lra|].
    destruct (Rlt_dec (1 / 2) (x - (IZR z - 1))); [lia | lra].
Qed.

Lemma np_round_nonneg (x : R) : 0 <= x -> (0 <= np_round x)%Z.
Proof.
  intros Hx. unfold np_round.
  assert (Hf : (0 <= Zfloor x)%Z) by (apply Zfloor_lub; exact Hx).
  destruct (Rlt_dec (x - IZR (Zfloor x)) (1 / 2)); [exact Hf|].
  destruct (Rlt_dec (1 / 2) (x - IZR (Zfloor x))); [lia|].
  destruct (Z.even (Zfloor x)); lia.
Qed.

Lemma sqrt3_bounds : 1732 / 1000 < sqrt 3 < 17321 / 10000.
Proof.
  split.
  - rewrite <- (sqrt_square (1732 / 1000)) by lra.
    apply sqrt_lt_1; lra.
  - rewrite <- (sqrt_square (17321 / 10000)) by lra.
    apply sqrt_lt_1; lra.
Qed.

Lemma PI_bounds : 313 / 100 < PI < 324 / 100.
Proof.
  pose proof (PI_2_3_7_ineq 0) as [Hlo Hhi].
  unfold sum_f_R0, tg_alt, PI_2_3_7_tg, Ratan_seq in Hlo, Hhi.
  simpl in Hlo, Hhi. split; lra.
Qed.

Lemma ln3_bounds : 1 <= ln 3 <= 12 / 10.
Proof.
  split.
  - rewrite <- (ln_exp 1). pose proof exp_le_3 as [Hlt | Heq].
    + left. apply ln_increasing; [apply exp_pos | exact Hlt].
    + right. rewrite Heq. reflexivity.
  - assert (H0 : 115 / 100 <= exp (15 / 100)).
    { pose proof (exp_ineq1_le (15 / 100)). lra. }
    assert (H1 : exp (3 / 10) = exp (15 / 100) * exp (15 / 100)).
    { rewrite <- exp_plus. f_equal. field. }
    assert (H2 : exp (6 / 10) = exp (3 / 10) * exp (3 / 10)).
    { rewrite <- exp_plus. f_equal. field. }
    assert (H3 : exp (12 / 10) = exp (6 / 10) * exp (6 / 10)).
    { rewrite <- exp_plus. f_equal. field. }
    assert (H4 : 13225 / 10000 <= exp (3 / 10)) by nra.
    assert (H5 : 1749 / 1000 <= exp (6 / 10)) by nra.
    assert (H6 : 3 < exp (12 / 10)) by nra.
    rewrite <- (ln_exp (12 / 10)). left.
    apply ln_increasing; lra.
Qed.

Lemma project_y_0 : project_y 0 = 0.
Proof.
  unfold project_y, arctanh.
  replace (0 * PI / 180) with 0 by (unfold Rdiv; ring).
  rewrite sin_0. replace ((1 + 0) / (1 - 0)) with 1 by field.
  rewrite ln_1. field.
Qed.

Lemma project_y_30 : project_y 30 = ln 3 / 2.
Proof.
  unfold project_y, arctanh.
  replace (30 * PI / 180) with (PI / 6) by field.
  rewrite sin_PI6. replace ((1 + 1 / 2) / (1 - 1 / 2)) with 3 by field.
  reflexivity.
Qed.

(** * Point assignment and accumulation *)

Module HexbinFacts.
Import Hexbin.

Lemma c1_c2_exclusive (L : Lattice) (p : point) : c1 L p && c2 L p = false.
Proof.
  unfold c1, c2. destruct (bdist p); simpl.
  - rewrite andb_false_r. apply andb_false_r.
  - rewrite andb_false_r. reflexivity.
Qed.

Lemma c1_in_bounds (L : Lattice) (pts : list point) :
  Forall (fun ij => in_bounds (nx1 L) (ny1 L) (fst ij) (snd ij) = true)
         (map (fun p => (ix1 p, iy1 p)) (filter (c1 L) pts)).
Proof.
  apply Forall_forall. intros ij Hin.
  apply in_map_iff in Hin as [p [Hp Hin]]. subst ij.
  apply filter_In in Hin as [_ Hc]. unfold c1 in Hc.
  apply andb_prop in Hc as [Hb _]. exact Hb.
Qed.

Lemma c2_in_bounds (L : Lattice) (pts : list point) :
  Forall (fun ij => in_bounds (nx2 L) (ny2 L) (fst ij) (snd ij) = true)
         (map (fun p => (ix2 p, iy2 p)) (filter (c2 L) pts)).
Proof.
  apply Forall_forall. intros ij Hin.
  apply in_map_iff in Hin as [p [Hp Hin]]. subst ij.
  apply filter_In in Hin as [_ Hc]. unfold c2 in Hc.
  apply andb_prop in Hc as [Hb _]. exact Hb.
Qed.

Lemma selected_split (L : Lattice) (pts : list point) :
  length (filter (selected L) pts)
  = (length (filter (c1 L) pts) + length (filter (c2 L) pts))%nat.
Proof.
  induction pts as [|p t IH]; [reflexivity|].
  simpl. unfold selected at 1.
  pose proof (c1_c2_exclusive L p) as Hx.
  destruct (c1 L p), (c2 L p); simpl in *; try discriminate; lia.
Qed.

Lemma filter_length_le {A : Type} (f : A -> bool) (l : list A) :
  (length (filter f l) <= length l)%nat.
Proof.
  induction l as [|a t IH]; simpl; [lia | destruct (f a); simpl; lia].
Qed.

(** Count mode: the two lattices are allocated and the content of each is
    the number of points selected for it. *)
Lemma count_lattices_ok (L : Lattice) (pts : list point) :
  nonneg_dims L ->
  exists l1 l2,
    count_lattices L pts = Value (l1, l2)
    /\ total (fun v => v) l1 = INR (length (filter (c1 L) pts))
    /\ total (fun v => v) l2 = INR (length (filter (c2 L) pts)).
Proof.
  intros (Hx1 & Hy1 & Hx2 & Hy2). unfold count_lattices.
  destruct (np_zeros_ok _ _ Hx1 Hy1) as (z1 & Hz1 & Hs1 & Ht1).
  destruct (np_zeros_ok _ _ Hx2 Hy2) as (z2 & Hz2 & Hs2 & Ht2).
  rewrite Hz1, Hz2. cbn [bind].
  destruct (np_add_at_total _ _ _ _ Hs1 (c1_in_bounds L pts)) as [_ Ha1].
  destruct (np_add_at_total _ _ _ _ Hs2 (c2_in_bounds L pts)) as [_ Ha2].
  eexists. eexists. split; [reflexivity|].
  rewrite Ha1, Ha2, Ht1, Ht2, !length_map. split; ring.
Qed.

(** Value mode: the loop of lines 166-172. *)
Lemma fill_total (L : Lattice) (color : list R) (pts : list point) :
  forall (i : nat) (l1 l2 l1' l2' : list (list (list R))),
    shaped (Z.to_nat (nx1 L)) (Z.to_nat (ny1 L)) l1 ->
    shaped (Z.to_nat (nx2 L)) (Z.to_nat (ny2 L)) l2 ->
    fill L pts i color l1 l2 = Value (l1', l2') ->
    total (fun vals => INR (length vals)) l1'
    = total (fun vals => INR (length vals)) l1
      + INR (length (filter (c1 L) pts))
    /\ total (fun vals => INR (length vals)) l2'
       = total (fun vals => INR (length vals)) l2
         + INR (length (filter (c2 L) pts)).
Proof.
  assert (Hstep : forall v (a : list R),
             INR (length (a ++ [v])) = INR (length a) + 1).
  { intros v a. rewrite length_app. simpl length. rewrite plus_INR.
    simpl. ring. }
  induction pts as [|p t IH]; intros i l1 l2 l1' l2' Hs1 Hs2 Hfill.
  - simpl in Hfill. injection Hfill as <- <-. simpl. split; ring.
  - cbn [fill] in Hfill. cbn [filter]. unfold c1 at 1, c2 at 1.
    destruct (bdist p); cbn [negb].
    + rewrite andb_true_r, andb_false_r.
      destruct (in_bounds (nx1 L) (ny1 L) (ix1 p) (iy1 p)) eqn:Hb.
      * destruct (nth_error color i) as [v|]; [|discriminate].
        apply IH in Hfill as [H1 H2];
          [| apply upd2_shaped; exact Hs1 | exact Hs2].
        rewrite (total_upd2 _ _ 1 (Hstep v) _ _ _ _ _ Hs1 Hb) in H1.
        split; [| exact H2].
        rewrite H1. cbn [length]. rewrite S_INR. ring.
      * apply IH in Hfill; assumption.
    + rewrite andb_true_r, andb_false_r.
      destruct (in_bounds (nx2 L) (ny2 L) (ix2 p) (iy2 p)) eqn:Hb.
      * destruct (nth_error color i) as [v|]; [|discriminate].
        apply IH in Hfill as [H1 H2];
          [| exact Hs1 | apply upd2_shaped; exact Hs2].
        rewrite (total_upd2 _ _ 1 (Hstep v) _ _ _ _ _ Hs2 Hb) in H2.
        split; [exact H1 |].
        rewrite H2. cbn [length]. rewrite S_INR. ring.
      * apply IH in Hfill; assumption.
Qed.

Lemma fill_returns (L : Lattice) (color : list R) (pts : list point) :
  forall (i : nat) (l1 l2 : list (list (list R))),
    (i + length pts <= length color)%nat ->
    exists l1' l2', fill L pts i color l1 l2 = Value (l1', l2').
Proof.
  induction pts as [|p t IH]; intros i l1 l2 Hlen.
  - simpl. eauto.
  - cbn [fill]. cbn [length] in Hlen.
    assert (Hnth : exists v, nth_error color i = Some v).
    { destruct (nth_error color i) as [v|] eqn:Hn; [eauto|].
      apply nth_error_None in Hn. lia. }
    destruct Hnth as [v Hv]. rewrite Hv.
    destruct (bdist p).
    + destruct (in_bounds (nx1 L) (ny1 L) (ix1 p) (iy1 p));
        apply IH; lia.
    + destruct (in_bounds (nx2 L) (ny2 L) (ix2 p) (iy2 p));
        apply IH; lia.
Qed.

Lemma value_lattices_ok (L : Lattice) (pts : list point) (color : list R) :
  nonneg_dims L ->
  (length pts <= length color)%nat ->
  exists l1 l2,
    value_lattices L pts color = Value (l1, l2)
    /\ total (fun vals => INR (length vals)) l1
       = INR (length (filter (c1 L) pts))
    /\ total (fun vals => INR (length vals)) l2
       = INR (length (filter (c2 L) pts)).
Proof.
  intros (Hx1 & Hy1 & Hx2 & Hy2) Hlen. unfold value_lattices.
  destruct (np_empty_lists_ok _ _ Hx1 Hy1) as (e1 & He1 & Hs1 & Ht1).
  destruct (np_empty_lists_ok _ _ Hx2 Hy2) as (e2 & He2 & Hs2 & Ht2).
  rewrite He1, He2. cbn [bind].
  destruct (fill_returns L color pts 0%nat e1 e2) as (l1 & l2 & Hfill);
    [simpl; exact Hlen|].
  exists l1, l2. split; [exact Hfill|].
  destruct (fill_total _ _ _ _ _ _ _ _ Hs1 Hs2 Hfill) as [H1 H2].
  rewrite H1, H2, Ht1, Ht2. split; ring.
Qed.

(** The lattice returned by [make_lattice]. *)
Lemma make_lattice_inv (a : Args) (L : Lattice) :
  make_lattice a = Value L ->
  exists (Dy : R),
    0 <= Dy
    /\ dy L = dx L * sqrt 3
    /\ ny2 L = np_round (Dy / dy L)
    /\ ny1 L = (ny2 L + 1)%Z
    /\ nx1 L = (nx a + 1)%Z
    /\ nx2 L = nx a.
Proof.
  unfold make_lattice.
  destruct (range_or_default (lat_range a) (lat a)) as [lat_r|]; [|discriminate].
  destruct (range_or_default (lon_range a) (lon a)) as [lon_r|]; [|discriminate].
  cbn [bind]. intros H. injection H as <-. cbn [dy dx ny1 ny2 nx1 nx2].
  exists (Rmax (project_y (fst lat_r)) (project_y (snd lat_r))
          - Rmin (project_y (fst lat_r)) (project_y (snd lat_r))).
  split; [| repeat split; reflexivity].
  pose proof (Rmin_l (project_y (fst lat_r)) (project_y (snd lat_r))).
  pose proof (Rmax_l (project_y (fst lat_r)) (project_y (snd lat_r))).
  lra.
Qed.

Lemma make_lattice_dims (a : Args) (L : Lattice) :
  make_lattice a = Value L -> (0 < nx a)%Z -> 0 < dx L -> nonneg_dims L.
Proof.
  intros HL Hnx Hdx.
  destruct (make_lattice_inv a L HL) as (Dy & HDy & Hdy & Hny2 & Hny1 & Hnx1 & Hnx2).
  assert (Hny : (0 <= ny2 L)%Z).
  { rewrite Hny2. apply np_round_nonneg.
    pose proof sqrt3_bounds as [Hs _].
    apply Rmult_le_reg_r with (dy L); [rewrite Hdy; nra|].
    replace (Dy / dy L * dy L) with Dy by (field; rewrite Hdy; nra).
    lra. }
  unfold nonneg_dims. lia.
Qed.

Lemma values_of_all_some (l : list R) : values_of (map Some l) = l.
Proof.
  induction l as [|c t IH]; simpl; [reflexivity | f_equal; exact IH].
Qed.

Lemma ravel_map {A B : Type} (f : A -> B) (l : list (list A)) :
  ravel (map (map f) l) = map f (ravel l).
Proof.
  unfold ravel. symmetry. apply concat_map.
Qed.

Lemma total_id (l : list (list R)) : total (fun v => v) l = sumR (ravel l).
Proof. unfold total. rewrite map_id. reflexivity. Qed.

(** The values returned are those of the surviving cells. *)
Lemma compute_hexbin_values (a : Args) (L : Lattice) (accum : list (option R))
  (out : Output) :
  make_lattice a = Value L ->
  accumulate a L (normalise L (lat a) (lon a)) = Value accum ->
  _compute_hexbin a = Value out ->
  agreggated_value out = values_of accum.
Proof.
  intros HL Hacc. unfold _compute_hexbin. rewrite HL. cbn [bind].
  rewrite Hacc. cbn [bind]. unfold polygons.
  destruct (hex_scale _) as [[w h]|]; [|discriminate].
  cbn [bind]. intros H. injection H as <-. reflexivity.
Qed.

Lemma mask_select_none {A : Type} (l : list A) (accum : list (option R)) :
  Forall (fun c => good c = false) accum ->
  mask_select l (map good accum) = [].
Proof.
  intros Hall. revert l.
  induction Hall as [|c t Hc Ht IH]; intros [|u l]; simpl; try reflexivity.
  rewrite Hc. apply IH.
Qed.

(** With no surviving bin the scale of the hexagons cannot be inferred. *)
Lemma compute_hexbin_no_bins (a : Args) (L : Lattice)
  (accum : list (option R)) :
  make_lattice a = Value L ->
  accumulate a L (normalise L (lat a) (lon a)) = Value accum ->
  Forall (fun c => good c = false) accum ->
  _compute_hexbin a = Raise IndexError.
Proof.
  intros HL Hacc Hnone. unfold _compute_hexbin.
  rewrite HL. cbn [bind]. rewrite Hacc. cbn [bind].
  rewrite (mask_select_none _ _ Hnone). reflexivity.
Qed.

End HexbinFacts.

(** * Sorting and distinct values *)

Lemma insert_sorted_perm (v : R) (l : list R) :
  Permutation (insert_sorted v l) (v :: l).
Proof.
  induction l as [|u t IH]; simpl; [reflexivity|].
  destruct (Rle_dec v u); [reflexivity|].
  rewrite IH. apply perm_swap.
Qed.

Lemma sorted_perm (l : list R) : Permutation (sorted l) l.
Proof.
  induction l as [|u t IH]; simpl; [reflexivity|].
  rewrite insert_sorted_perm. constructor. exact IH.
Qed.

Lemma sorted_In (l : list R) (v : R) : In v (sorted l) <-> In v l.
Proof.
  split; apply Permutation_in; [| symmetry]; apply sorted_perm.
Qed.

Lemma insert_sorted_ascending (v : R) (l : list R) :
  StronglySorted Rle l -> StronglySorted Rle (insert_sorted v l).
Proof.
  induction 1 as [|u t Ht IH Hu]; simpl.
  - repeat constructor.
  - destruct (Rle_dec v u) as [Hle | Hgt].
    + constructor; [constructor; assumption|].
      constructor; [exact Hle|].
      apply Forall_forall. intros w Hw.
      rewrite Forall_forall in Hu. specialize (Hu w Hw). lra.
    + constructor; [exact IH|].
      apply Forall_forall. intros w Hw.
      apply (Permutation_in _ (insert_sorted_perm v t)) in Hw.
      destruct Hw as [<- | Hw]; [lra|].
      rewrite Forall_forall in Hu. exact (Hu w Hw).
Qed.

Lemma sorted_ascending (l : list R) : StronglySorted Rle (sorted l).
Proof.
  induction l as [|u t IH]; simpl; [constructor|].
  apply insert_sorted_ascending. exact IH.
Qed.

(** Consecutive differences of an ascending list are non-negative. *)
Lemma np_diff_nonneg (l : list R) :
  StronglySorted Rle l -> Forall (fun e => 0 <= e) (np_diff l).
Proof.
  induction 1 as [|u t Ht IH Hu]; [constructor|].
  destruct t as [|v t']; [constructor|].
  cbn [np_diff]. constructor; [| exact IH].
  inversion Hu; subst. lra.
Qed.

Lemma pyset_In (l : list R) (v : R) : In v (pyset l) <-> In v l.
Proof. unfold pyset. apply nodup_In. Qed.

Lemma pyset_NoDup (l : list R) : NoDup (pyset l).
Proof. unfold pyset. apply NoDup_nodup. Qed.

(** The sorted distinct values, seen from their first two items. *)
Lemma sorted_pyset_cases (ds : list R) :
  let s := sorted (pyset ds) in
  s = []
  \/ (exists d0, s = [d0])
  \/ (exists d0 d t, s = d0 :: d :: t
                     /\ d0 < d
                     /\ Forall (fun e => d < e) t).
Proof.
  intros s.
  assert (Hasc : StronglySorted Rle s) by apply sorted_ascending.
  assert (Hnd : NoDup s).
  { apply (Permutation_NoDup (l := pyset ds));
      [symmetry; apply sorted_perm | apply pyset_NoDup]. }
  destruct s as [|d0 [|d t]]; [auto | eauto |].
  right. right. exists d0, d, t. split; [reflexivity|].
  inversion Hasc as [|? ? Hasc' H0]; subst.
  inversion Hasc' as [|? ? _ H1]; subst.
  inversion Hnd as [|? ? Hn0 Hnd']; subst.
  inversion Hnd' as [|? ? Hn1 _]; subst.
  split.
  - inversion H0; subst.
    assert (d0 <> d) by (intros ->; apply Hn0; left; reflexivity).
    lra.
  - apply Forall_forall. intros e He.
    rewrite Forall_forall in H1. specialize (H1 e He).
    assert (d <> e) by (intros ->; apply Hn1; exact He).
    lra.
Qed.

Lemma sorted_pyset_In (ds : list R) (v : R) :
  In v (sorted (pyset ds)) <-> In v ds.
Proof. rewrite sorted_In. apply pyset_In. Qed.

(** Item 1 of the sorted distinct values is their second-smallest. *)
Lemma item1_second_smallest (ds : list R) (d : R) :
  Hexbin.item1 (sorted (pyset ds)) = Value d <-> Hexbin.second_smallest d ds.
Proof.
  unfold Hexbin.item1, Hexbin.second_smallest.
  pose proof (sorted_pyset_In ds) as Hin.
  destruct (sorted_pyset_cases ds) as [Hs | [[d0 Hs] | (d0 & d' & t & Hs & Hlt & Ht)]];
    rewrite Hs in *; cbn [nth_error].
  - split; [discriminate|].
    intros [Hd _]. apply Hin in Hd. contradiction.
  - split; [discriminate|].
    intros (Hd & e0 & He0 & Hlt & _).
    apply Hin in Hd, He0. simpl in Hd, He0.
    destruct Hd as [<- | []], He0 as [<- | []]. lra.
  - rewrite Forall_forall in Ht. split.
    + intros H. injection H as <-. split.
      * apply Hin. right. left. reflexivity.
      * exists d0. split; [apply Hin; left; reflexivity|].
        split; [exact Hlt|].
        intros e He. apply Hin in He.
        destruct He as [<- | [<- | He]]; [left; reflexivity | right; lra |].
        right. left. apply Ht. exact He.
    + intros (Hd & e0 & He0 & Hlt0 & Hall). f_equal.
      assert (Hd0 : d0 = e0 \/ d <= d0)
        by (apply Hall, Hin; left; reflexivity).
      assert (Hd' : d' = e0 \/ d <= d')
        by (apply Hall, Hin; right; left; reflexivity).
      apply Hin in Hd, He0.
      destruct He0 as [<- | [<- | He0]].
      * destruct Hd as [<- | [<- | Hd]]; [lra | reflexivity |].
        specialize (Ht d Hd). lra.
      * destruct Hd0 as [-> | Hd0]; [lra|]. lra.
      * specialize (Ht e0 He0).
        destruct Hd0 as [-> | Hd0]; lra.
Qed.

Import Hexbin.

(** C10. Each input point contributes to at most one lattice cell in
    total.  The two selections are mutually exclusive; in count mode the
    content of the offset lattice is the number of points whose offset
    candidate is strictly closer and in bounds, the content of the base
    lattice the number of the other points whose base candidate is in
    bounds, and in value mode the same holds of the numbers of collected
    values; so the accumulated total never exceeds the number of points. *)
Theorem each_point_in_at_most_one_cell (L : Lattice) (pts : list point) :
  nonneg_dims L ->
  (forall p, c1 L p && c2 L p = false)
  /\ (exists l1 l2,
        count_lattices L pts = Value (l1, l2)
        /\ total (fun v => v) l1 = INR (length (filter (c1 L) pts))
        /\ total (fun v => v) l2 = INR (length (filter (c2 L) pts))
        /\ total (fun v => v) l1 + total (fun v => v) l2
           <= INR (length pts))
  /\ (forall color,
        (length pts <= length color)%nat ->
        exists l1 l2,
          value_lattices L pts color = Value (l1, l2)
          /\ total (fun vals => INR (length vals)) l1
             = INR (length (filter (c1 L) pts))
          /\ total (fun vals => INR (length vals)) l2
             = INR (length (filter (c2 L) pts))
          /\ total (fun vals => INR (length vals)) l1
             + total (fun vals => INR (length vals)) l2
             <= INR (length pts)).
Proof.
  intros Hdims.
  assert (Hle : INR (length (filter (c1 L) pts))
                + INR (length (filter (c2 L) pts)) <= INR (length pts)).
  { rewrite <- plus_INR, <- HexbinFacts.selected_split.
    apply le_INR, HexbinFacts.filter_length_le. }
  split; [apply HexbinFacts.c1_c2_exclusive | split].
  - destruct (HexbinFacts.count_lattices_ok L pts Hdims)
      as (l1 & l2 & Hc & H1 & H2).
    exists l1, l2. rewrite H1, H2. auto.
  - intros color Hlen.
    destruct (HexbinFacts.value_lattices_ok L pts color Hdims Hlen)
      as (l1 & l2 & Hc & H1 & H2).
    exists l1, l2. rewrite H1, H2. auto.
Qed.

(** C1, amended.  In count mode with [min_count = -inf], on a lattice with
    a positive horizontal count and a positive horizontal step, every cell
    is emitted and the sum of the counts of the emitted bins equals the
    number of input points whose nearer candidate cell lies inside the
    index range of its sub-lattice. *)
Theorem count_conservation (a : Args) (L : Lattice) :
  make_lattice a = Value L ->
  color a = None ->
  min_count a = Some NegInf ->
  (0 < nx a)%Z ->
  0 < dx L ->
  let pts := normalise L (lat a) (lon a) in
  exists accum,
    accumulate a L pts = Value accum
    /\ Forall (fun c => good c = true) accum
    /\ sumR (values_of accum) = INR (length (filter (selected L) pts))
    /\ (forall out, _compute_hexbin a = Value out ->
                    sumR (agreggated_value out)
                    = INR (length (filter (selected L) pts))).
Proof.
  intros HL Hcol Hmc Hnx Hdx pts.
  pose proof (HexbinFacts.make_lattice_dims a L HL Hnx Hdx) as Hdims.
  destruct (HexbinFacts.count_lattices_ok L pts Hdims)
    as (l1 & l2 & Hc & H1 & H2).
  assert (Hacc : accumulate a L pts
                 = Value (map Some (ravel l1 ++ ravel l2))).
  { unfold accumulate, accum_count. rewrite Hcol, Hmc, Hc. cbn [bind].
    rewrite !HexbinFacts.ravel_map, map_app. reflexivity. }
  assert (Hsum : sumR (values_of (map Some (ravel l1 ++ ravel l2)))
                 = INR (length (filter (selected L) pts))).
  { rewrite HexbinFacts.values_of_all_some, sumR_app.
    rewrite <- !HexbinFacts.total_id, H1, H2, <- plus_INR.
    rewrite HexbinFacts.selected_split. reflexivity. }
  exists (map Some (ravel l1 ++ ravel l2)).
  split; [exact Hacc | split; [| split; [exact Hsum |]]].
  - apply Forall_forall. intros c Hin.
    apply in_map_iff in Hin as [v [<- _]]. reflexivity.
  - intros out Hout.
    rewrite (HexbinFacts.compute_hexbin_values a L _ out HL Hacc Hout).
    exact Hsum.
Qed.

(** C3. The two [min_count] thresholds.  In count mode a cell becomes
    no-data exactly when [min_count] is given and the count is strictly
    below it, and keeps its count otherwise.  In value mode, with an unset
    [min_count] standing for 0, a cell holds [agg_func(values)] exactly
    when the number of collected values strictly exceeds [min_count], and is
    no-data otherwise. *)
Theorem min_count_thresholds :
  (forall L pts mc,
      accum_count L pts mc
      = bind (count_lattices L pts)
             (fun ls => Value (map (count_cell mc)
                                   (ravel (fst ls) ++ ravel (snd ls)))))
  /\ (forall mc c,
         (count_cell mc c = None <-> exists m, mc = Some m /\ ext_lt c m)
         /\ (count_cell mc c = Some c
             <-> ~ exists m, mc = Some m /\ ext_lt c m))
  /\ (forall L pts col agg mc,
         accum_values L pts col agg mc
         = bind (value_lattices L pts col)
                (fun ls => Value (map (value_cell agg (default_min_count mc))
                                      (ravel (fst ls) ++ ravel (snd ls)))))
  /\ default_min_count None = Finite 0
  /\ (forall agg m vals,
         (value_cell agg m vals = Some (agg vals)
          <-> ext_gt (INR (length vals)) m)
         /\ (value_cell agg m vals = None
             <-> ~ ext_gt (INR (length vals)) m)).
Proof.
  split; [| split; [| split; [| split]]].
  - intros L pts mc. unfold accum_count.
    destruct (count_lattices L pts) as [[l1 l2]|]; cbn [bind fst snd];
      [| reflexivity].
    rewrite !HexbinFacts.ravel_map, map_app. reflexivity.
  - intros mc c. unfold count_cell.
    destruct mc as [[|r|]|]; cbn [lt_ext];
      [| destruct (Rlt_dec c r) as [Hlt | Hge] | |];
      (split; split; intros H;
       try discriminate; try reflexivity;
       try (destruct H as (m & Hm & Hlt'); try discriminate;
            injection Hm as <-; cbn [ext_lt] in Hlt'; contradiction);
       try (intros (m & Hm & Hlt'); try discriminate;
            injection Hm as <-; cbn [ext_lt] in Hlt'; contradiction);
       try (eexists; split; [reflexivity |]; cbn [ext_lt]; auto; fail);
       try (exfalso; apply H; eexists; split; [reflexivity |];
            cbn [ext_lt]; auto; fail)).
  - intros L pts col agg mc. unfold accum_values.
    destruct (value_lattices L pts col) as [[l1 l2]|]; cbn [bind fst snd];
      [| reflexivity].
    rewrite !HexbinFacts.ravel_map, map_app. reflexivity.
  - reflexivity.
  - intros agg m vals. unfold value_cell.
    destruct m as [|r|]; cbn [gt_ext ext_gt].
    + split; split; try discriminate; try reflexivity; try tauto.
    + destruct (Rlt_dec r (INR (length vals))); split; split;
        try discriminate; try reflexivity; try tauto.
    + split; split; try discriminate; try reflexivity; try tauto.
Qed.

(** C2, amended.  When the two squared distances are equal the strict
    comparison fails, so the point is never assigned to the offset lattice:
    it is assigned to the base (floored-plus-half) candidate when that cell
    is in bounds and dropped otherwise. *)
Theorem tie_goes_to_base_lattice (L : Lattice) (p : point) :
  d1 p = d2 p ->
  bdist p = false
  /\ c1 L p = false
  /\ c2 L p = in_bounds (nx2 L) (ny2 L) (ix2 p) (iy2 p).
Proof.
  intros Htie.
  assert (Hb : bdist p = false).
  { unfold bdist. destruct (Rlt_dec (d1 p) (d2 p)); [lra | reflexivity]. }
  unfold c1, c2. rewrite Hb. cbn [negb].
  rewrite andb_false_r, andb_true_r. auto.
Qed.

(** * Evaluation on concrete arrays *)

Ltac split_in H :=
  simpl In in H;
  repeat (destruct H as [H | H]; [try lra |]);
  try contradiction.

Ltac show_in := simpl In; first [left; lra | right; show_in].

Ltac eval_sorted :=
  cbn [sorted fold_right insert_sorted];
  repeat (match goal with
          | |- context [Rle_dec ?u ?v] =>
              destruct (Rle_dec u v); [try (exfalso; lra) | try (exfalso; lra)]
          end;
          cbn [insert_sorted]).

Ltac eval_pyset :=
  unfold pyset;
  repeat (cbn [nodup];
          match goal with
          | |- context [in_dec Req_EM_T ?u ?l] =>
              let Hin := fresh "Hin" in
              destruct (in_dec Req_EM_T u l) as [Hin | Hin];
              [try (exfalso; split_in Hin; fail)
              | try (exfalso; apply Hin; show_in; fail)]
          end);
  cbn [nodup].

Lemma spacing_rows (a d : R) (x1 x2 x3 x4 x5 : R) :
  0 < d ->
  x1 = a -> x2 = a -> x3 = a + 2 * d -> x4 = a + 2 * d -> x5 = a + d ->
  Hexbin.spacing [x1; x2; x3; x4; x5] = Value d.
Proof.
  intros Hd -> -> -> -> ->. unfold Hexbin.spacing.
  eval_sorted. cbn [np_diff].
  replace (a - a) with 0 by ring.
  replace (a + d - a) with d by ring.
  replace (a + 2 * d - (a + d)) with d by ring.
  replace (a + 2 * d - (a + 2 * d)) with 0 by ring.
  eval_pyset. eval_sorted. reflexivity.
Qed.

Lemma spacing_columns (a d : R) (x1 x2 x3 x4 x5 : R) :
  0 < d ->
  x1 = a -> x2 = a + 2 * d -> x3 = a -> x4 = a + 2 * d -> x5 = a + d ->
  Hexbin.spacing [x1; x2; x3; x4; x5] = Value d.
Proof.
  intros Hd -> -> -> -> ->. unfold Hexbin.spacing.
  eval_sorted. cbn [np_diff].
  replace (a - a) with 0 by ring.
  replace (a + d - a) with d by ring.
  replace (a + 2 * d - (a + d)) with d by ring.
  replace (a + 2 * d - (a + 2 * d)) with 0 by ring.
  eval_pyset. eval_sorted. reflexivity.
Qed.

Ltac eval_positive :=
  cbn [filter]; unfold Hexbin.positive;
  repeat (match goal with
          | |- context [Rlt_dec ?u ?v] =>
              destruct (Rlt_dec u v); [try (exfalso; lra) | try (exfalso; lra)]
          end;
          cbn [filter]).

Lemma spec_spacing_rows (a d : R) (x1 x2 x3 x4 x5 : R) :
  0 < d ->
  x1 = a -> x2 = a -> x3 = a + 2 * d -> x4 = a + 2 * d -> x5 = a + d ->
  Hexbin.spec_spacing [x1; x2; x3; x4; x5] = None.
Proof.
  intros Hd -> -> -> -> ->. unfold Hexbin.spec_spacing.
  eval_sorted. cbn [np_diff].
  replace (a - a) with 0 by ring.
  replace (a + d - a) with d by ring.
  replace (a + 2 * d - (a + d)) with d by ring.
  replace (a + 2 * d - (a + 2 * d)) with 0 by ring.
  eval_positive. eval_pyset. eval_sorted. reflexivity.
Qed.

Module Box30.

Lemma y30_bounds : 1 / 2 < y30 <= 2 / 3.
Proof.
  unfold y30.
  pose proof PI_bounds as [Hp1 Hp2].
  pose proof sqrt3_bounds as [Hs1 Hs2].
  pose proof ln3_bounds as [Hl1 Hl2].
  assert (HD : 0 < PI / 6 * sqrt 3) by nra.
  split.
  - apply Rmult_lt_reg_r with (PI / 6 * sqrt 3); [exact HD|].
    replace (ln 3 / 2 / (PI / 6 * sqrt 3) * (PI / 6 * sqrt 3))
      with (ln 3 / 2) by (field; nra).
    nra.
  - apply Rmult_le_reg_r with (PI / 6 * sqrt 3); [exact HD|].
    replace (ln 3 / 2 / (PI / 6 * sqrt 3) * (PI / 6 * sqrt 3))
      with (ln 3 / 2) by (field; nra).
    nra.
Qed.

Lemma project_x_0 : project_x 0 = 0.
Proof. unfold project_x. field. Qed.

Lemma project_x_30 : project_x 30 = PI / 6.
Proof. unfold project_x. field. Qed.

Lemma make_lattice_box30 lat lon color min_count :
  make_lattice (box30 lat lon color min_count) = Value lattice30.
Proof.
  unfold make_lattice, box30, range_or_default.
  cbn [bind Hexbin.lat_range Hexbin.lon_range Hexbin.nx fst snd].
  rewrite project_x_0, project_x_30, project_y_0, project_y_30.
  pose proof PI_bounds as [Hp1 Hp2].
  pose proof ln3_bounds as [Hl1 Hl2].
  rewrite (Rmin_left 0 (PI / 6)), (Rmax_right 0 (PI / 6)) by lra.
  rewrite (Rmin_left 0 (ln 3 / 2)), (Rmax_right 0 (ln 3 / 2)) by lra.
  replace ((PI / 6 - 0) / 1) with (PI / 6) by field.
  replace (ln 3 / 2 - 0) with (ln 3 / 2) by ring.
  fold y30.
  rewrite (np_round_near 1 y30) by (pose proof y30_bounds; lra).
  reflexivity.
Qed.

Lemma normalise_origin_corner :
  normalise lattice30 [0; 30] [0; 30] = [(0, 0); (1, y30)].
Proof.
  unfold normalise, lattice30. cbn [map combine xmin ymin dx dy].
  rewrite project_x_0, project_x_30, project_y_0, project_y_30.
  pose proof PI_bounds as [Hp1 Hp2].
  pose proof sqrt3_bounds as [Hs1 Hs2].
  replace ((0 - 0) / (PI / 6)) with 0 by (field; lra).
  replace ((PI / 6 - 0) / (PI / 6)) with 1 by (field; lra).
  replace ((0 - 0) / (PI / 6 * sqrt 3)) with 0 by (field; nra).
  replace ((ln 3 / 2 - 0) / (PI / 6 * sqrt 3)) with y30
    by (unfold y30; field; nra).
  reflexivity.
Qed.

Lemma normalise_corner :
  normalise lattice30 [30] [30] = [(1, y30)].
Proof.
  unfold normalise, lattice30. cbn [map combine xmin ymin dx dy].
  rewrite project_x_30, project_y_30.
  pose proof PI_bounds as [Hp1 Hp2].
  pose proof sqrt3_bounds as [Hs1 Hs2].
  replace ((PI / 6 - 0) / (PI / 6)) with 1 by (field; lra).
  replace ((ln 3 / 2 - 0) / (PI / 6 * sqrt 3)) with y30
    by (unfold y30; field; nra).
  reflexivity.
Qed.

(** The two candidates of the origin and of the far corner. *)
Lemma origin_candidates :
  ix1 (0, 0) = 0%Z /\ iy1 (0, 0) = 0%Z /\ bdist (0, 0) = true.
Proof.
  assert (Hr : np_round 0 = 0%Z) by (apply np_round_near; simpl; lra).
  assert (Hf : np_floor 0 = 0%Z) by (apply np_floor_eq; simpl; lra).
  unfold ix1, iy1, bdist, d1, d2, ix2, iy2, ix1, iy1. cbn [fst snd].
  rewrite Hr, Hf. repeat split.
  destruct (Rlt_dec _ _) as [H | H]; [reflexivity | exfalso; apply H; lra].
Qed.

Lemma corner_candidates :
  ix1 (1, y30) = 1%Z /\ iy1 (1, y30) = 1%Z
  /\ ix2 (1, y30) = 1%Z /\ iy2 (1, y30) = 0%Z
  /\ bdist (1, y30) = false.
Proof.
  pose proof y30_bounds as [Hlo Hhi].
  assert (Hrx : np_round 1 = 1%Z) by (apply np_round_near; simpl; lra).
  assert (Hfx : np_floor 1 = 1%Z) by (apply np_floor_eq; simpl; lra).
  assert (Hry : np_round y30 = 1%Z) by (apply np_round_near; simpl; lra).
  assert (Hfy : np_floor y30 = 0%Z) by (apply np_floor_eq; simpl; lra).
  unfold bdist, d1, d2, ix1, iy1, ix2, iy2. cbn [fst snd].
  rewrite Hrx, Hfx, Hry, Hfy. repeat split.
  destruct (Rlt_dec _ _) as [H | H]; [exfalso; nra | reflexivity].
Qed.

Lemma origin_selection :
  c1 lattice30 (0, 0) = true /\ c2 lattice30 (0, 0) = false.
Proof.
  destruct origin_candidates as (Hx & Hy & Hb).
  unfold c1, c2. rewrite Hx, Hy, Hb. cbn [negb].
  rewrite andb_false_r. split; reflexivity.
Qed.

Lemma corner_selection :
  c1 lattice30 (1, y30) = false /\ c2 lattice30 (1, y30) = false.
Proof.
  destruct corner_candidates as (Hx1 & Hy1 & Hx2 & Hy2 & Hb).
  unfold c1, c2. rewrite Hx2, Hy2, Hb. cbn [negb].
  rewrite andb_false_r. split; reflexivity.
Qed.

Lemma count_lattices_origin_corner :
  count_lattices lattice30 [(0, 0); (1, y30)]
  = Value ([[0 + 1; 0]; [0; 0]], [[0]]).
Proof.
  destruct origin_selection as [Ho1 Ho2].
  destruct corner_selection as [Hc1 Hc2].
  destruct origin_candidates as (Hx & Hy & _).
  unfold count_lattices. cbn [filter map].
  rewrite Ho1, Ho2, Hc1, Hc2. cbn [map]. rewrite Hx, Hy.
  reflexivity.
Qed.

Lemma all_centers_lattice30 :
  all_centers lattice30
  = [ (0 * (PI / 6) + 0, 0 * (PI / 6 * sqrt 3) + 0);
      (0 * (PI / 6) + 0, 1 * (PI / 6 * sqrt 3) + 0);
      (1 * (PI / 6) + 0, 0 * (PI / 6 * sqrt 3) + 0);
      (1 * (PI / 6) + 0, 1 * (PI / 6 * sqrt 3) + 0);
      ((0 + 0.5) * (PI / 6) + 0, (0 + 0.5) * (PI / 6 * sqrt 3) + 0) ].
Proof. reflexivity. Qed.

Lemma hex_scale_lattice30 :
  hex_scale (all_centers lattice30)
  = Value (PI / 12 * 2, 2 / 3 * (PI / 12 * sqrt 3) / (0.5 / cos (PI / 6))).
Proof.
  rewrite all_centers_lattice30. unfold hex_scale. cbn [map fst snd].
  pose proof PI_bounds as [Hp1 Hp2].
  pose proof sqrt3_bounds as [Hs1 Hs2].
  rewrite (spacing_rows 0 (PI / 12)) by lra.
  rewrite (spacing_columns 0 (PI / 12 * sqrt 3)) by nra.
  reflexivity.
Qed.

(** The geometry pass on the two points (0, 0) and (30, 30): five bins are
    emitted and their counts are 1, 0, 0, 0, 0. *)
Lemma compute_hexbin_origin_corner :
  exists out,
    _compute_hexbin (box30 [0; 30] [0; 30] None (Some NegInf)) = Value out
    /\ agreggated_value out = [0 + 1; 0; 0; 0; 0].
Proof.
  unfold _compute_hexbin. rewrite make_lattice_box30. cbn [bind].
  set (a := box30 [0; 30] [0; 30] None (Some NegInf)).
  change (Hexbin.lat a) with [0; 30]. change (Hexbin.lon a) with [0; 30].
  rewrite normalise_origin_corner.
  unfold accumulate. change (Hexbin.color a) with (@None (list R)).
  change (Hexbin.min_count a) with (Some NegInf).
  cbv iota. unfold accum_count.
  rewrite count_lattices_origin_corner.
  cbn [bind map ravel concat app count_cell lt_ext good values_of].
  change (mask_select (all_centers lattice30) [true; true; true; true; true])
    with (all_centers lattice30).
  unfold polygons. rewrite hex_scale_lattice30. cbn [bind].
  eexists. split; reflexivity.
Qed.

Lemma quarter_candidates :
  ix1 (1 / 4, 1 / 4) = 0%Z /\ iy1 (1 / 4, 1 / 4) = 0%Z
  /\ ix2 (1 / 4, 1 / 4) = 0%Z /\ iy2 (1 / 4, 1 / 4) = 0%Z
  /\ d1 (1 / 4, 1 / 4) = d2 (1 / 4, 1 / 4).
Proof.
  assert (Hr : np_round (1 / 4) = 0%Z) by (apply np_round_near; simpl; lra).
  assert (Hf : np_floor (1 / 4) = 0%Z) by (apply np_floor_eq; simpl; lra).
  unfold d1, d2, ix1, iy1, ix2, iy2. cbn [fst snd].
  rewrite Hr, Hf. repeat split. lra.
Qed.

Lemma quarter_bdist : bdist (1 / 4, 1 / 4) = false.
Proof.
  destruct quarter_candidates as (_ & _ & _ & _ & Htie).
  unfold bdist. rewrite Htie.
  destruct (Rlt_dec _ _) as [H | H]; [lra | reflexivity].
Qed.

(** A frame holding only the far corner, in value mode: no bin survives. *)
Lemma accumulate_corner_frame :
  let a := box30 [30] [30] (Some [7]) None in
  accumulate a lattice30 (normalise lattice30 (Hexbin.lat a) (Hexbin.lon a))
  = Value [None; None; None; None; None].
Proof.
  cbn zeta. set (a := box30 [30] [30] (Some [7]) None).
  change (Hexbin.lat a) with [30]. change (Hexbin.lon a) with [30].
  rewrite normalise_corner.
  unfold accumulate. change (Hexbin.color a) with (Some [7]).
  change (Hexbin.min_count a) with (@None ExtR).
  change (Hexbin.agg_func a) with mean.
  cbv iota. unfold accum_values, value_lattices.
  destruct corner_candidates as (Hx1 & Hy1 & Hx2 & Hy2 & Hb).
  change (np_empty_lists (nx1 lattice30) (ny1 lattice30))
    with (Value [[@nil R; []]; [[]; []]]).
  change (np_empty_lists (nx2 lattice30) (ny2 lattice30))
    with (Value [[@nil R]]).
  cbn [bind fill]. rewrite Hb, Hx2, Hy2.
  change (in_bounds (nx2 lattice30) (ny2 lattice30) 1 0) with false.
  cbv iota. cbn [bind map ravel concat app].
  assert (Hcell : value_cell mean (default_min_count None) [] = None).
  { unfold value_cell, default_min_count, gt_ext. cbn [length INR].
    destruct (Rlt_dec 0 0); [lra | reflexivity]. }
  rewrite Hcell. reflexivity.
Qed.

End Box30.

(** C4, as stated, fails: on the five centres of [lattice30] the distinct
    positive differences of the sorted abscissas reduce to the single value
    pi/12, so they have no second-smallest, while the code infers the
    spacing pi/12: item 1 of the sorted distinct differences, the first of
    which is zero. *)
Lemma spacing_is_not_second_positive_difference :
  let xs := map fst (all_centers lattice30) in
  spacing xs = Value (PI / 12) /\ spec_spacing xs = None.
Proof.
  cbn zeta. rewrite Box30.all_centers_lattice30. cbn [map fst].
  pose proof PI_bounds as [Hp1 Hp2].
  split.
  - apply (spacing_rows 0 (PI / 12)); lra.
  - apply (spec_spacing_rows 0 (PI / 12)); lra.
Qed.

(** C4, amended.  The polygon builder infers the horizontal spacing as the
    second-smallest of the distinct values, zero included, of the
    consecutive differences (all non-negative) of the sorted bin-centre
    abscissas, applies the same procedure to the ordinates, and sets
    hex_width = true_dx * 2 and
    hex_height = (2/3) * true_dy / (0.5 / cos (pi/6)). *)
Theorem hex_scale_second_smallest_difference :
  (forall coords d,
      spacing coords = Value d
      <-> second_smallest d (np_diff (sorted coords)))
  /\ (forall coords, Forall (fun e => 0 <= e) (np_diff (sorted coords)))
  /\ (forall centers hex_width hex_height,
         hex_scale centers = Value (hex_width, hex_height)
         <-> exists true_dx true_dy,
             spacing (map fst centers) = Value true_dx
             /\ spacing (map snd centers) = Value true_dy
             /\ hex_width = true_dx * 2
             /\ hex_height = 2 / 3 * true_dy / (0.5 / cos (PI / 6))).
Proof.
  split; [| split].
  - intros coords d. unfold spacing. apply item1_second_smallest.
  - intros coords. apply np_diff_nonneg, sorted_ascending.
  - intros centers w h. unfold hex_scale. split.
    + destruct (spacing (map fst centers)) as [dxh|]; [|discriminate].
      destruct (spacing (map snd centers)) as [dyh|]; [|discriminate].
      cbn [bind]. intros H. injection H as <- <-.
      exists dxh, dyh. auto.
    + intros (dxh & dyh & -> & -> & -> & ->). reflexivity.
Qed.

(** C5, as stated, fails: a frame that holds only the point (30, 30),
    aggregated in value mode on the 30 by 30 degree box, leaves no bin (all
    five cells are no-data), and the call raises [IndexError] instead of
    returning an empty output. *)
Lemma empty_result_raises_on_corner_frame :
  let a := box30 [30] [30] (Some [7]) None in
  exists L,
    make_lattice a = Value L
    /\ accumulate a L (normalise L (lat a) (lon a))
       = Value [None; None; None; None; None]
    /\ _compute_hexbin a = Raise IndexError.
Proof.
  cbn zeta. exists lattice30.
  pose proof (Box30.make_lattice_box30 [30] [30] (Some [7]) None) as HL.
  pose proof Box30.accumulate_corner_frame as Hacc. cbn zeta in Hacc.
  split; [exact HL | split; [exact Hacc |]].
  apply (HexbinFacts.compute_hexbin_no_bins _ _ _ HL Hacc).
  repeat constructor.
Qed.

(** C5, amended.  For every input on which no bin survives filtering, the
    accumulation completes but the call raises [IndexError] when the scale
    of the hexagons is inferred from the empty list of centres; no empty
    output is returned. *)
Theorem no_surviving_bin_raises (a : Args) (L : Lattice)
  (accum : list (option R)) :
  make_lattice a = Value L ->
  accumulate a L (normalise L (lat a) (lon a)) = Value accum ->
  Forall (fun c => good c = false) accum ->
  _compute_hexbin a = Raise IndexError.
Proof.
  apply HexbinFacts.compute_hexbin_no_bins.
Qed.

Lemma no_surviving_bin_raises_witness :
  _compute_hexbin (box30 [30] [30] (Some [7]) None) = Raise IndexError.
Proof.
  refine (no_surviving_bin_raises (box30 [30] [30] (Some [7]) None)
            lattice30 [None; None; None; None; None] _ _ _).
  - apply Box30.make_lattice_box30.
  - exact Box30.accumulate_corner_frame.
  - repeat constructor.
Defined.

(** C1, as stated, fails: in the geometry pass over the two points (0, 0)
    and (30, 30), bounded by their own range, both points fall within the
    bounding range but the counts of the five emitted bins sum to 1: the
    nearer candidate of (30, 30) is the base-lattice cell of index 1, which
    lies outside the 1 x 1 base lattice. *)
Lemma count_misses_point_on_far_edge :
  let a := box30 [0; 30] [0; 30] None (Some NegInf) in
  exists out,
    _compute_hexbin a = Value out
    /\ length (agreggated_value out) = 5%nat
    /\ sumR (agreggated_value out) = 1
    /\ length (filter (within (0, 30) (0, 30)) (combine (lat a) (lon a)))
       = 2%nat.
Proof.
  cbn zeta.
  destruct Box30.compute_hexbin_origin_corner as (out & Hout & Hval).
  exists out. split; [exact Hout|]. rewrite Hval.
  split; [reflexivity | split].
  - simpl. ring.
  - cbn [box30 Hexbin.lat Hexbin.lon combine filter].
    unfold within, in_range. cbn [fst snd].
    repeat match goal with
           | |- context [Rle_dec ?u ?v] =>
               destruct (Rle_dec u v); [| exfalso; lra]
           end.
    reflexivity.
Qed.

Lemma count_conservation_witness :
  let a := box30 [0; 30] [0; 30] None (Some NegInf) in
  let pts := normalise lattice30 (lat a) (lon a) in
  exists accum,
    accumulate a lattice30 pts = Value accum
    /\ Forall (fun c => good c = true) accum
    /\ sumR (values_of accum) = INR (length (filter (selected lattice30) pts))
    /\ (forall out, _compute_hexbin a = Value out ->
                    sumR (agreggated_value out)
                    = INR (length (filter (selected lattice30) pts))).
Proof.
  refine (count_conservation (box30 [0; 30] [0; 30] None (Some NegInf))
            lattice30 _ _ _ _ _).
  - apply Box30.make_lattice_box30.
  - reflexivity.
  - reflexivity.
  - reflexivity.
  - unfold lattice30. cbn [dx]. pose proof PI_RGT_0. lra.
Defined.

Lemma each_point_in_at_most_one_cell_witness :
  let L := lattice30 in
  let pts := [(0, 0); (1, y30)] in
  (forall p, c1 L p && c2 L p = false)
  /\ (exists l1 l2,
        count_lattices L pts = Value (l1, l2)
        /\ total (fun v => v) l1 = INR (length (filter (c1 L) pts))
        /\ total (fun v => v) l2 = INR (length (filter (c2 L) pts))
        /\ total (fun v => v) l1 + total (fun v => v) l2
           <= INR (length pts))
  /\ (forall color,
        (length pts <= length color)%nat ->
        exists l1 l2,
          value_lattices L pts color = Value (l1, l2)
          /\ total (fun vals => INR (length vals)) l1
             = INR (length (filter (c1 L) pts))
          /\ total (fun vals => INR (length vals)) l2
             = INR (length (filter (c2 L) pts))
          /\ total (fun vals => INR (length vals)) l1
             + total (fun vals => INR (length vals)) l2
             <= INR (length pts)).
Proof.
  refine (each_point_in_at_most_one_cell lattice30 [(0, 0); (1, y30)] _).
  unfold nonneg_dims, lattice30. cbn [nx1 ny1 nx2 ny2]. lia.
Defined.

(** C2, as stated, fails: the point (1/4, 1/4) is at squared distance 1/4
    from both of its candidates, and it is counted in the base lattice, not
    in the offset lattice. *)
Lemma tie_is_not_assigned_to_offset_lattice :
  let p := (1 / 4, 1 / 4) in
  d1 p = d2 p
  /\ c1 lattice30 p = false
  /\ c2 lattice30 p = true
  /\ count_lattices lattice30 [p] = Value ([[0; 0]; [0; 0]], [[0 + 1]]).
Proof.
  cbn zeta.
  destruct Box30.quarter_candidates as (Hx1 & Hy1 & Hx2 & Hy2 & Htie).
  pose proof Box30.quarter_bdist as Hb.
  assert (Hc1 : c1 lattice30 (1 / 4, 1 / 4) = false).
  { unfold c1. rewrite Hb. apply andb_false_r. }
  assert (Hc2 : c2 lattice30 (1 / 4, 1 / 4) = true).
  { unfold c2. rewrite Hb, Hx2, Hy2. reflexivity. }
  split; [exact Htie | split; [exact Hc1 | split; [exact Hc2 |]]].
  unfold count_lattices. cbn [filter map]. rewrite Hc1, Hc2.
  cbn [map]. rewrite Hx2, Hy2. reflexivity.
Qed.

Lemma tie_goes_to_base_lattice_witness :
  bdist (1 / 4, 1 / 4) = false
  /\ c1 lattice30 (1 / 4, 1 / 4) = false
  /\ c2 lattice30 (1 / 4, 1 / 4)
     = in_bounds (nx2 lattice30) (ny2 lattice30)
                 (ix2 (1 / 4, 1 / 4)) (iy2 (1 / 4, 1 / 4)).
Proof.
  refine (tie_goes_to_base_lattice lattice30 (1 / 4, 1 / 4) _).
  exact (proj2 (proj2 (proj2 (proj2 Box30.quarter_candidates)))).
Defined.

(** * Degenerate inputs *)

Module Degenerate.

Lemma np_zeros_raises (r c : Z) (e : exn) :
  np_zeros r c = Raise e -> e = ValueError.
Proof.
  unfold np_zeros. destruct ((r <? 0) || (c <? 0))%Z; [|discriminate].
  intros H. injection H as <-. reflexivity.
Qed.

Lemma np_empty_lists_raises (r c : Z) (e : exn) :
  np_empty_lists r c = Raise e -> e = ValueError.
Proof.
  unfold np_empty_lists. destruct ((r <? 0) || (c <? 0))%Z; [|discriminate].
  intros H. injection H as <-. reflexivity.
Qed.

(** A negative horizontal count is rejected by the allocation of the
    lattices, in both modes. *)
Lemma accumulate_negative (a : Args) (L : Lattice) (pts : list point) :
  (nx2 L < 0)%Z -> accumulate a L pts = Raise ValueError.
Proof.
  intros Hneg. unfold accumulate.
  destruct (color a) as [col|].
  - unfold accum_values, value_lattices.
    destruct (np_empty_lists (nx1 L) (ny1 L)) as [e1|e] eqn:He1; cbn [bind].
    + rewrite np_empty_lists_negative by (left; exact Hneg). reflexivity.
    + apply np_empty_lists_raises in He1. subst e. reflexivity.
  - unfold accum_count, count_lattices.
    destruct (np_zeros (nx1 L) (ny1 L)) as [z1|e] eqn:Hz1; cbn [bind].
    + rewrite np_zeros_negative by (left; exact Hneg). reflexivity.
    + apply np_zeros_raises in Hz1. subst e. reflexivity.
Qed.

Lemma compute_hexbin_negative (a : Args) (L : Lattice) :
  make_lattice a = Value L -> (nx a < 0)%Z ->
  accumulate a L (normalise L (lat a) (lon a)) = Raise ValueError
  /\ _compute_hexbin a = Raise ValueError.
Proof.
  intros HL Hneg.
  destruct (HexbinFacts.make_lattice_inv a L HL)
    as (Dy & _ & _ & _ & _ & _ & Hnx2).
  assert (Hacc : accumulate a L (normalise L (lat a) (lon a))
                 = Raise ValueError).
  { apply accumulate_negative. rewrite Hnx2. exact Hneg. }
  split; [exact Hacc|].
  unfold _compute_hexbin. rewrite HL. cbn [bind]. rewrite Hacc. reflexivity.
Qed.

(** A bounding range of zero latitude extent gives a lattice with a single
    row of offset cells and no base cell. *)
Lemma make_lattice_flat (a : Args) (L : Lattice) (l : R) :
  make_lattice a = Value L ->
  lat_range a = Some (l, l) ->
  ny1 L = 1%Z /\ ny2 L = 0%Z.
Proof.
  unfold make_lattice. intros HL Hlat. rewrite Hlat in HL.
  cbn [range_or_default bind] in HL.
  destruct (range_or_default (lon_range a) (lon a)) as [lon_r|];
    [|discriminate].
  cbn [bind fst snd] in HL. injection HL as <-. cbn [ny1 ny2].
  assert (H0 : np_round 0 = 0%Z) by (apply np_round_near; simpl; lra).
  unfold Rmax, Rmin.
  destruct (Rle_dec (project_y l) (project_y l)); [| lra].
  replace (project_y l - project_y l) with 0 by ring.
  unfold Rdiv. rewrite Rmult_0_l, H0. split; reflexivity.
Qed.

Lemma np_tile_nil (k : Z) : np_tile [] k = [].
Proof.
  unfold np_tile. induction (Z.to_nat k) as [|n IH]; simpl; auto.
Qed.

Lemma np_tile_single (v : R) (k : Z) : Forall (eq v) (np_tile [v] k).
Proof.
  unfold np_tile. induction (Z.to_nat k) as [|n IH]; simpl;
    constructor; auto.
Qed.

Lemma combine_snd_Forall {A B : Type} (P : B -> Prop) (u : list A)
  (v : list B) :
  Forall P v -> Forall (fun c => P (snd c)) (combine u v).
Proof.
  intros Hv. revert u.
  induction Hv as [|b t Hb Ht IH]; intros [|a u]; simpl; constructor; auto.
Qed.

Lemma mask_select_Forall {A : Type} (P : A -> Prop) (l : list A)
  (m : list bool) :
  Forall P l -> Forall P (mask_select l m).
Proof.
  intros Hl. revert m.
  induction Hl as [|a t Ha Ht IH]; intros [|[|] m]; simpl;
    try constructor; auto.
Qed.

Lemma all_centers_flat (L : Lattice) :
  ny1 L = 1%Z -> ny2 L = 0%Z ->
  Forall (fun c => snd c = 0 * dy L + ymin L) (all_centers L).
Proof.
  intros H1 H2. unfold all_centers. rewrite H1, H2.
  apply combine_snd_Forall with (P := fun y => y = 0 * dy L + ymin L).
  change (np_arange 0) with (@nil R). rewrite np_tile_nil. cbn [map].
  rewrite app_nil_r.
  change (np_arange 1) with [0].
  apply Forall_forall. intros y Hy.
  apply in_map_iff in Hy as (v & <- & Hv).
  pose proof (np_tile_single 0 (nx1 L)) as Hall.
  rewrite Forall_forall in Hall. rewrite <- (Hall v Hv). reflexivity.
Qed.

(** Equal coordinates leave at most one distinct difference. *)
Lemma np_diff_constant (c : R) (l : list R) :
  Forall (eq c) l -> Forall (eq 0) (np_diff l).
Proof.
  induction 1 as [|u t Hu Ht IH]; [constructor|].
  destruct t as [|v t']; [constructor|].
  cbn [np_diff]. constructor; [| exact IH].
  inversion Ht; subst. ring.
Qed.

Lemma NoDup_constant_length (c : R) (l : list R) :
  NoDup l -> Forall (eq c) l -> (length l <= 1)%nat.
Proof.
  intros Hnd Hall.
  destruct l as [|u [|v t]]; simpl; try lia.
  inversion Hall as [|? ? Hu Hall']; subst.
  inversion Hall' as [|? ? Hv _]; subst.
  inversion Hnd as [|? ? Hn _]; subst.
  exfalso. apply Hn. left. reflexivity.
Qed.

Lemma spacing_raises (coords : list R) (e : exn) :
  spacing coords = Raise e -> e = IndexError.
Proof.
  unfold spacing, item1. destruct (nth_error _ 1); [discriminate|].
  intros H. injection H as <-. reflexivity.
Qed.

Lemma spacing_constant (c : R) (coords : list R) :
  Forall (eq c) coords -> spacing coords = Raise IndexError.
Proof.
  intros Hall. unfold spacing, item1.
  assert (Hs : Forall (eq c) (sorted coords)).
  { apply Forall_forall. intros v Hv. apply (proj1 (sorted_In _ _)) in Hv.
    rewrite Forall_forall in Hall. exact (Hall v Hv). }
  pose proof (np_diff_constant c _ Hs) as Hd.
  assert (Hp : Forall (eq 0) (pyset (np_diff (sorted coords)))).
  { apply Forall_forall. intros v Hv. apply (proj1 (pyset_In _ _)) in Hv.
    rewrite Forall_forall in Hd. exact (Hd v Hv). }
  pose proof (NoDup_constant_length 0 _ (pyset_NoDup _) Hp) as Hlen.
  rewrite <- (Permutation_length (sorted_perm _)) in Hlen.
  destruct (nth_error _ 1) eqn:Hn; [| reflexivity].
  assert (Hsome : nth_error (sorted (pyset (np_diff (sorted coords)))) 1
                  <> None) by (rewrite Hn; discriminate).
  apply nth_error_Some in Hsome. lia.
Qed.

Lemma hex_scale_flat (v : R) (centers : list (R * R)) :
  Forall (fun c => snd c = v) centers ->
  hex_scale centers = Raise IndexError.
Proof.
  intros Hall. unfold hex_scale.
  destruct (spacing (map fst centers)) as [dxh|e] eqn:Hx; cbn [bind].
  - rewrite (spacing_constant v); [reflexivity|].
    apply Forall_forall. intros y Hy.
    apply in_map_iff in Hy as (c & <- & Hc).
    rewrite Forall_forall in Hall. symmetry. exact (Hall c Hc).
  - apply spacing_raises in Hx. subst e. reflexivity.
Qed.

Lemma compute_hexbin_flat (a : Args) (L : Lattice) (l : R) :
  make_lattice a = Value L ->
  lat_range a = Some (l, l) ->
  (0 < nx a)%Z -> 0 < dx L -> color a = None ->
  (exists accum,
      accumulate a L (normalise L (lat a) (lon a)) = Value accum)
  /\ _compute_hexbin a = Raise IndexError.
Proof.
  intros HL Hlat Hnx Hdx Hcol.
  pose proof (HexbinFacts.make_lattice_dims a L HL Hnx Hdx) as Hdims.
  destruct (make_lattice_flat a L l HL Hlat) as [H1 H2].
  destruct (HexbinFacts.count_lattices_ok L (normalise L (lat a) (lon a)) Hdims)
    as (l1 & l2 & Hc & _ & _).
  assert (Hacc : exists accum,
             accumulate a L (normalise L (lat a) (lon a)) = Value accum).
  { unfold accumulate, accum_count. rewrite Hcol, Hc. cbn [bind]. eauto. }
  split; [exact Hacc|].
  destruct Hacc as [accum Hacc].
  unfold _compute_hexbin. rewrite HL. cbn [bind]. rewrite Hacc. cbn [bind].
  unfold polygons.
  rewrite (hex_scale_flat (0 * dy L + ymin L)); [reflexivity|].
  apply mask_select_Forall, all_centers_flat; assumption.
Qed.

End Degenerate.

Module Flat30.

Lemma make_lattice_flat30 : make_lattice flat30 = Value flat_lattice.
Proof.
  unfold make_lattice, flat30, range_or_default.
  cbn [bind Hexbin.lat_range Hexbin.lon_range Hexbin.nx fst snd].
  rewrite Box30.project_x_0, Box30.project_x_30, project_y_0.
  pose proof PI_bounds as [Hp1 Hp2].
  rewrite (Rmin_left 0 (PI / 6)), (Rmax_right 0 (PI / 6)) by lra.
  rewrite (Rmin_left 0 0), (Rmax_right 0 0) by lra.
  replace ((PI / 6 - 0) / 1) with (PI / 6) by field.
  replace ((0 - 0) / (PI / 6 * sqrt 3)) with 0 by (unfold Rdiv; ring).
  rewrite (np_round_near 0 0) by (simpl; lra).
  reflexivity.
Qed.

Lemma normalise_flat30 :
  normalise flat_lattice [0; 0] [0; 30] = [(0, 0); (1, 0)].
Proof.
  unfold normalise, flat_lattice. cbn [map combine xmin ymin dx dy].
  rewrite Box30.project_x_0, Box30.project_x_30, project_y_0.
  pose proof PI_bounds as [Hp1 Hp2].
  pose proof sqrt3_bounds as [Hs1 Hs2].
  replace ((0 - 0) / (PI / 6)) with 0 by (field; lra).
  replace ((PI / 6 - 0) / (PI / 6)) with 1 by (field; lra).
  replace ((0 - 0) / (PI / 6 * sqrt 3)) with 0 by (field; nra).
  reflexivity.
Qed.

Lemma east_candidates :
  ix1 (1, 0) = 1%Z /\ iy1 (1, 0) = 0%Z /\ bdist (1, 0) = true.
Proof.
  assert (Hr1 : np_round 1 = 1%Z) by (apply np_round_near; simpl; lra).
  assert (Hf1 : np_floor 1 = 1%Z) by (apply np_floor_eq; simpl; lra).
  assert (Hr0 : np_round 0 = 0%Z) by (apply np_round_near; simpl; lra).
  assert (Hf0 : np_floor 0 = 0%Z) by (apply np_floor_eq; simpl; lra).
  unfold bdist, d1, d2, ix1, iy1, ix2, iy2. cbn [fst snd].
  rewrite Hr1, Hf1, Hr0, Hf0. repeat split.
  destruct (Rlt_dec _ _) as [H | H]; [reflexivity | exfalso; apply H; lra].
Qed.

Lemma accumulate_flat30 :
  accumulate flat30 flat_lattice
             (normalise flat_lattice (lat flat30) (lon flat30))
  = Value [Some (0 + 1); Some (0 + 1)].
Proof.
  change (lat flat30) with [0; 0]. change (lon flat30) with [0; 30].
  rewrite normalise_flat30.
  unfold accumulate. change (color flat30) with (@None (list R)).
  change (min_count flat30) with (Some NegInf).
  cbv iota. unfold accum_count, count_lattices.
  destruct Box30.origin_candidates as (Hox & Hoy & Hob).
  destruct east_candidates as (Hex & Hey & Heb).
  assert (Ho1 : c1 flat_lattice (0, 0) = true).
  { unfold c1. rewrite Hox, Hoy, Hob. reflexivity. }
  assert (Ho2 : c2 flat_lattice (0, 0) = false).
  { unfold c2. rewrite Hob. apply andb_false_r. }
  assert (He1 : c1 flat_lattice (1, 0) = true).
  { unfold c1. rewrite Hex, Hey, Heb. reflexivity. }
  assert (He2 : c2 flat_lattice (1, 0) = false).
  { unfold c2. rewrite Heb. apply andb_false_r. }
  cbn [filter map]. rewrite Ho1, Ho2, He1, He2. cbn [map].
  rewrite Hox, Hoy, Hex, Hey. reflexivity.
Qed.

End Flat30.

(** C6, as stated, fails: for the two points (0, 0) and (0, 30), whose
    bounding range has zero latitude extent, no error precedes the
    aggregation: both points are counted, one in each of the two cells, and
    only the inference of the hexagon scale raises, with [IndexError]. *)
Lemma zero_extent_range_is_aggregated :
  exists L,
    make_lattice flat30 = Value L
    /\ accumulate flat30 L (normalise L (lat flat30) (lon flat30))
       = Value [Some (0 + 1); Some (0 + 1)]
    /\ _compute_hexbin flat30 = Raise IndexError.
Proof.
  exists flat_lattice.
  split; [exact Flat30.make_lattice_flat30 |].
  split; [exact Flat30.accumulate_flat30 |].
  apply (Degenerate.compute_hexbin_flat flat30 flat_lattice 0).
  - exact Flat30.make_lattice_flat30.
  - reflexivity.
  - reflexivity.
  - unfold flat_lattice. cbn [dx]. pose proof PI_RGT_0. lra.
  - reflexivity.
Qed.

(** C6, amended.  The aggregator validates nothing before it builds the
    lattice.  A negative target_horizontal_count is rejected only by the
    allocation of the lattice arrays, with [ValueError]; in count mode, a
    bounding range of zero latitude extent (with a positive count and a
    positive horizontal step) is aggregated in full and fails only when the
    hexagon scale is inferred, with [IndexError]. *)
Theorem degenerate_input_fails_late (a : Args) (L : Lattice) :
  make_lattice a = Value L ->
  (nx a < 0)%Z
  \/ ((0 < nx a)%Z /\ 0 < dx L /\ color a = None
      /\ exists l, lat_range a = Some (l, l)) ->
  let pts := normalise L (lat a) (lon a) in
  ((nx a < 0)%Z
   /\ accumulate a L pts = Raise ValueError
   /\ _compute_hexbin a = Raise ValueError)
  \/ ((0 < nx a)%Z
      /\ (exists accum, accumulate a L pts = Value accum)
      /\ _compute_hexbin a = Raise IndexError).
Proof.
  intros HL [Hneg | (Hpos & Hdx & Hcol & l & Hlat)] pts.
  - left. split; [exact Hneg|].
    apply Degenerate.compute_hexbin_negative; assumption.
  - right. split; [exact Hpos|].
    apply (Degenerate.compute_hexbin_flat a L l); assumption.
Qed.

Lemma degenerate_input_fails_late_witness :
  let pts := normalise flat_lattice (lat flat30) (lon flat30) in
  ((nx flat30 < 0)%Z
   /\ accumulate flat30 flat_lattice pts = Raise ValueError
   /\ _compute_hexbin flat30 = Raise ValueError)
  \/ ((0 < nx flat30)%Z
      /\ (exists accum, accumulate flat30 flat_lattice pts = Value accum)
      /\ _compute_hexbin flat30 = Raise IndexError).
Proof.
  refine (degenerate_input_fails_late flat30 flat_lattice _ _).
  - exact Flat30.make_lattice_flat30.
  - right. split; [reflexivity | split; [| split; [reflexivity |]]].
    + unfold flat_lattice. cbn [dx]. pose proof PI_RGT_0. lra.
    + exists 0. reflexivity.
Defined.

(** * Further properties of the projector *)

Module ProjectorFacts.

Lemma atan_exp_bounds (y : R) : 0 < atan (exp y) < PI / 2.
Proof.
  split.
  - rewrite <- atan_0. apply atan_increasing. apply exp_pos.
  - apply atan_bound.
Qed.

Lemma atan_injective (u v : R) : atan u = atan v -> u = v.
Proof.
  intros H. rewrite <- (tan_atan u), <- (tan_atan v), H. reflexivity.
Qed.

Lemma arctanh_sin_gudermann (y : R) :
  arctanh (sin (2 * atan (exp y) - PI / 2)) = y.
Proof.
  pose proof (atan_exp_bounds y) as [Hlo Hhi].
  assert (Hphi : - (PI / 2) < 2 * atan (exp y) - PI / 2 < PI / 2) by lra.
  pose proof (gudermann_inverse _ Hphi) as Hg.
  apply exp_inv, atan_injective. lra.
Qed.

Lemma project_unproject_lat (y : R) : project_y (unproject_lat y) = y.
Proof.
  unfold project_y, unproject_lat.
  replace ((2 * atan (exp y) - PI / 2) * 180 / PI * PI / 180)
    with (2 * atan (exp y) - PI / 2)
    by (pose proof PI_RGT_0; field; lra).
  apply arctanh_sin_gudermann.
Qed.

Lemma project_unproject_lon (x : R) : project_x (unproject_lon x) = x.
Proof.
  unfold project_x, unproject_lon. pose proof PI_RGT_0. field. lra.
Qed.

Lemma arctanh_increasing (s t : R) :
  -1 < s -> s < t -> t < 1 -> arctanh s < arctanh t.
Proof.
  intros Hs Hst Ht. unfold arctanh.
  assert (Hq : (1 + s) / (1 - s) < (1 + t) / (1 - t)).
  { apply Rmult_lt_reg_r with ((1 - s) * (1 - t)); [nra|].
    replace ((1 + s) / (1 - s) * ((1 - s) * (1 - t)))
      with ((1 + s) * (1 - t)) by (field; lra).
    replace ((1 + t) / (1 - t) * ((1 - s) * (1 - t)))
      with ((1 + t) * (1 - s)) by (field; lra).
    nra. }
  assert (Hpos : 0 < (1 + s) / (1 - s)) by (apply Rdiv_lt_0_compat; lra).
  pose proof (ln_increasing _ _ Hpos Hq). lra.
Qed.

Lemma arctanh_opp (s : R) : -1 < s < 1 -> arctanh (- s) = - arctanh s.
Proof.
  intros Hs. unfold arctanh.
  replace ((1 + - s) / (1 - - s)) with (/ ((1 + s) / (1 - s)))
    by (field; lra).
  rewrite ln_Rinv by (apply Rdiv_lt_0_compat; lra). field.
Qed.

Lemma project_y_increasing (lat1 lat2 : R) :
  -90 < lat1 -> lat1 < lat2 -> lat2 < 90 -> project_y lat1 < project_y lat2.
Proof.
  intros H1 H12 H2. unfold project_y.
  pose proof (degrees_in_quadrant lat1 ltac:(lra)) as Hq1.
  pose proof (degrees_in_quadrant lat2 ltac:(lra)) as Hq2.
  pose proof (sin_open_unit _ Hq1) as Hs1.
  pose proof (sin_open_unit _ Hq2) as Hs2.
  apply arctanh_increasing; try lra.
  apply sin_increasing_1; try lra.
  pose proof PI_RGT_0. nra.
Qed.

Lemma project_y_monotone (lat1 lat2 : R) :
  -90 < lat1 -> lat1 <= lat2 -> lat2 < 90 -> project_y lat1 <= project_y lat2.
Proof.
  intros H1 [Hlt | ->] H2; [| lra].
  left. apply project_y_increasing; assumption.
Qed.

End ProjectorFacts.

(** X1. Projecting a planar point back to latitude/longitude and forward
    again returns the planar point, for every planar point. *)
Theorem projector_reverse_roundtrip (x y : R) :
  let '(lat, lon) := _project_wgs84_to_latlon x y in
  _project_latlon_to_wgs84 lat lon = (x, y).
Proof.
  unfold _project_wgs84_to_latlon, _project_latlon_to_wgs84.
  rewrite ProjectorFacts.project_unproject_lat,
    ProjectorFacts.project_unproject_lon.
  reflexivity.
Qed.


(** X3. The forward projection preserves the order of latitudes strictly
    inside (-90, 90) and of longitudes: a point further north has a larger
    planar ordinate, a point further east a larger planar abscissa. *)
Theorem projection_preserves_order (lat1 lon1 lat2 lon2 : R) :
  -90 < lat1 -> lat1 < lat2 -> lat2 < 90 -> lon1 < lon2 ->
  fst (_project_latlon_to_wgs84 lat1 lon1)
  < fst (_project_latlon_to_wgs84 lat2 lon2)
  /\ snd (_project_latlon_to_wgs84 lat1 lon1)
     < snd (_project_latlon_to_wgs84 lat2 lon2).
Proof.
  intros H1 H12 H2 Hlon. unfold _project_latlon_to_wgs84. cbn [fst snd].
  split.
  - unfold project_x. pose proof PI_RGT_0. nra.
  - apply ProjectorFacts.project_y_increasing; assumption.
Qed.

Lemma projection_preserves_order_witness :
  fst (_project_latlon_to_wgs84 10 20) < fst (_project_latlon_to_wgs84 40 50)
  /\ snd (_project_latlon_to_wgs84 10 20)
     < snd (_project_latlon_to_wgs84 40 50).
Proof.
  refine (projection_preserves_order 10 20 40 50 _ _ _ _); lra.
Defined.

(** X4. The forward projection is antisymmetric about the equator and the
    prime meridian: mirroring a point strictly between the poles negates
    both planar coordinates, and the origin maps to the origin. *)
Theorem projection_antisymmetric (lat lon : R) :
  -90 < lat < 90 ->
  _project_latlon_to_wgs84 (- lat) (- lon)
  = (- fst (_project_latlon_to_wgs84 lat lon),
     - snd (_project_latlon_to_wgs84 lat lon))
  /\ _project_latlon_to_wgs84 0 0 = (0, 0).
Proof.
  intros Hlat. unfold _project_latlon_to_wgs84. cbn [fst snd]. split.
  - f_equal.
    + unfold project_x. field.
    + unfold project_y.
      replace (- lat * PI / 180) with (- (lat * PI / 180)) by field.
      rewrite sin_neg. apply ProjectorFacts.arctanh_opp.
      apply sin_open_unit, degrees_in_quadrant. exact Hlat.
  - rewrite project_y_0. f_equal. unfold project_x. field.
Qed.

Lemma projection_antisymmetric_witness :
  _project_latlon_to_wgs84 (- 30) (- 45)
  = (- fst (_project_latlon_to_wgs84 30 45),
     - snd (_project_latlon_to_wgs84 30 45))
  /\ _project_latlon_to_wgs84 0 0 = (0, 0).
Proof.
  refine (projection_antisymmetric 30 45 _). lra.
Defined.

(** * Further properties of the zoom estimator *)

Module ZoomMore.
Import Zoom.

Lemma latRad_clamped (lat : R) : - (PI / 2) <= latRad lat <= PI / 2.
Proof.
  unfold latRad. pose proof PI_RGT_0 as Hpi.
  set (r := ln _ / 2).
  pose proof (Rmax_r (Rmin r PI) (- PI)).
  assert (Rmax (Rmin r PI) (- PI) <= PI).
  { apply Rmax_lub; [apply Rmin_r | lra]. }
  lra.
Qed.

Lemma clamp_monotone (u v : R) :
  u <= v -> Rmax (Rmin u PI) (- PI) <= Rmax (Rmin v PI) (- PI).
Proof.
  intros Huv. apply Rle_max_compat_r, Rle_min_compat_r. exact Huv.
Qed.

Lemma latRad_monotone (lat1 lat2 : R) :
  -90 < lat1 -> lat1 <= lat2 -> lat2 < 90 -> latRad lat1 <= latRad lat2.
Proof.
  intros H1 H12 H2.
  pose proof (ProjectorFacts.project_y_monotone lat1 lat2 H1 H12 H2) as Hm.
  unfold project_y, arctanh in Hm. unfold latRad.
  pose proof (clamp_monotone _ _ Hm). lra.
Qed.

Lemma lngFraction_plain (lon_min lon_max : R) :
  lon_min <= lon_max -> lngFraction lon_min lon_max = (lon_max - lon_min) / 360.
Proof.
  intros H. unfold lngFraction.
  destruct (Rlt_dec (lon_max - lon_min) 0); [lra | reflexivity].
Qed.

(** A larger fraction of the world gives a smaller axis estimate. *)
Lemma zoom_antitone (mapPx worldPx f1 f2 : R) :
  0 < mapPx -> 0 < worldPx -> 0 < f1 -> f1 <= f2 ->
  zoom mapPx worldPx f2 <= zoom mapPx worldPx f1.
Proof.
  intros Hm Hw Hf1 Hf12. unfold zoom.
  pose proof ZoomFacts.ln2_pos as Hln2.
  assert (Hq2 : 0 < mapPx / worldPx / f2).
  { apply Rdiv_lt_0_compat; [apply Rdiv_lt_0_compat |]; lra. }
  assert (Hq : mapPx / worldPx / f2 <= mapPx / worldPx / f1).
  { apply Rmult_le_reg_r with (f1 * f2); [nra|].
    replace (mapPx / worldPx / f2 * (f1 * f2))
      with (mapPx / worldPx * f1) by (field; lra).
    replace (mapPx / worldPx / f1 * (f1 * f2))
      with (mapPx / worldPx * f2) by (field; lra).
    assert (0 < mapPx / worldPx) by (apply Rdiv_lt_0_compat; lra).
    nra. }
  assert (Hln : ln (mapPx / worldPx / f2) <= ln (mapPx / worldPx / f1)).
  { destruct Hq as [Hq | Hq]; [left; apply ln_increasing; assumption |].
    rewrite Hq. lra. }
  apply Rmult_le_reg_r with (ln 2); [exact Hln2|].
  replace (0.95 * ln (mapPx / worldPx / f2) / ln 2 * ln 2)
    with (0.95 * ln (mapPx / worldPx / f2)) by (field; lra).
  replace (0.95 * ln (mapPx / worldPx / f1) / ln 2 * ln 2)
    with (0.95 * ln (mapPx / worldPx / f1)) by (field; lra).
  lra.
Qed.

(** An axis estimate is small when the map shows a large part of the
    world. *)
Lemma zoom_below (mapPx worldPx fraction : R) :
  0 < mapPx -> 0 < worldPx -> 0 < fraction ->
  mapPx <= 32 * worldPx * fraction ->
  zoom mapPx worldPx fraction <= 0.95 * 5.
Proof.
  intros Hm Hw Hf Hsmall. unfold zoom.
  pose proof ZoomFacts.ln2_pos as Hln2.
  assert (H5 : 2 ^ 5 = 32) by (simpl; lra).
  assert (Hq0 : 0 < mapPx / worldPx / fraction).
  { apply Rdiv_lt_0_compat; [apply Rdiv_lt_0_compat |]; lra. }
  assert (Hq : mapPx / worldPx / fraction <= 2 ^ 5).
  { rewrite H5. apply Rmult_le_reg_r with (worldPx * fraction); [nra|].
    replace (mapPx / worldPx / fraction * (worldPx * fraction))
      with mapPx by (field; lra).
    lra. }
  assert (Hln : ln (mapPx / worldPx / fraction) <= 5 * ln 2).
  { replace (5 * ln 2) with (ln (2 ^ 5))
      by (rewrite ln_pow by lra; simpl INR; ring).
    destruct Hq as [Hq | Hq]; [left; apply ln_increasing; assumption |].
    rewrite Hq. lra. }
  apply Rmult_le_reg_r with (ln 2); [exact Hln2|].
  replace (0.95 * ln (mapPx / worldPx / fraction) / ln 2 * ln 2)
    with (0.95 * ln (mapPx / worldPx / fraction)) by (field; lra).
  nra.
Qed.

Lemma latRad_30 : latRad 30 = ln 3 / 4.
Proof.
  unfold latRad.
  replace (30 * PI / 180) with (PI / 6) by field.
  rewrite sin_PI6. replace ((1 + 1 / 2) / (1 - 1 / 2)) with 3 by field.
  pose proof ln3_bounds as [Hl1 Hl2]. pose proof PI_bounds as [Hp1 Hp2].
  rewrite Rmin_left by lra. rewrite Rmax_left by lra. field.
Qed.

Lemma latFraction_box30 : 0 < latFraction 0 30.
Proof.
  unfold latFraction. rewrite latRad_30, ZoomFacts.latRad_0.
  pose proof ln3_bounds as [Hl1 Hl2]. pose proof PI_RGT_0.
  apply Rdiv_lt_0_compat; lra.
Qed.

Lemma lngFraction_box30 : lngFraction 0 30 = 1 / 12.
Proof. rewrite lngFraction_plain by lra. field. Qed.

Lemma zoom_box30_below_cap (px : R) :
  0 < px <= 900 ->
  _getBoundsZoomLevel 0 30 0 30 {| height := px; width := px |} < ZOOM_MAX.
Proof.
  intros Hpx. unfold _getBoundsZoomLevel, WORLD_DIM, scale, ZOOM_MAX.
  cbn [height width].
  assert (Hlng : zoom px (256 * 2) (lngFraction 0 30) <= 0.95 * 5).
  { rewrite lngFraction_box30. apply zoom_below; lra. }
  pose proof (Rmin_l (Rmin (zoom px (256 * 2) (latFraction 0 30))
                           (zoom px (256 * 2) (lngFraction 0 30))) 18).
  pose proof (Rmin_r (zoom px (256 * 2) (latFraction 0 30))
                     (zoom px (256 * 2) (lngFraction 0 30))).
  lra.
Qed.

End ZoomMore.

(** X5. Below the cap the zoom is logarithmic in the map size: scaling
    both pixel dimensions by a factor k changes the estimate by exactly
    0.95 * log2 k, so doubling the map adds 0.95 to the zoom. *)
Theorem zoom_scales_logarithmically
  (lon_min lon_max lat_min lat_max k : R) (mapDim : Zoom.MapDim) :
  0 < k ->
  0 < Zoom.height mapDim -> 0 < Zoom.width mapDim ->
  0 < Zoom.latFraction lat_min lat_max ->
  0 < Zoom.lngFraction lon_min lon_max ->
  Zoom._getBoundsZoomLevel lon_min lon_max lat_min lat_max mapDim
  < Zoom.ZOOM_MAX ->
  Zoom._getBoundsZoomLevel lon_min lon_max lat_min lat_max
                           (Zoom.shrink k mapDim)
  < Zoom.ZOOM_MAX ->
  Zoom._getBoundsZoomLevel lon_min lon_max lat_min lat_max
                           (Zoom.shrink k mapDim)
  = Zoom._getBoundsZoomLevel lon_min lon_max lat_min lat_max mapDim
    + 0.95 * Zoom.log2 k.
Proof.
  intros Hk Hh Hw Hlat Hlng.
  unfold Zoom._getBoundsZoomLevel, Zoom.shrink, Zoom.WORLD_DIM, Zoom.scale,
    Zoom.log2, Zoom.ZOOM_MAX.
  cbn [Zoom.height Zoom.width].
  rewrite !ZoomFacts.zoom_scaled by lra.
  rewrite ZoomFacts.Rmin_shift.
  set (a := Zoom.zoom (Zoom.height mapDim) (256 * 2) _).
  set (b := Zoom.zoom (Zoom.width mapDim) (256 * 2) _).
  set (m := Rmin a b).
  replace (0.95 * (ln k / ln 2)) with (0.95 * ln k / ln 2)
    by (unfold Rdiv; ring).
  set (d := 0.95 * ln k / ln 2).
  unfold Rmin.
  destruct (Rle_dec m 18), (Rle_dec (m + d) 18); intros; lra.
Qed.

Lemma zoom_scales_logarithmically_witness :
  Zoom._getBoundsZoomLevel 0 30 0 30
    (Zoom.shrink 2 {| Zoom.height := 450; Zoom.width := 450 |})
  = Zoom._getBoundsZoomLevel 0 30 0 30
      {| Zoom.height := 450; Zoom.width := 450 |}
    + 0.95 * Zoom.log2 2.
Proof.
  refine (zoom_scales_logarithmically 0 30 0 30 2
            {| Zoom.height := 450; Zoom.width := 450 |} _ _ _ _ _ _ _).
  - lra.
  - cbn. lra.
  - cbn. lra.
  - exact ZoomMore.latFraction_box30.
  - rewrite ZoomMore.lngFraction_box30. lra.
  - apply ZoomMore.zoom_box30_below_cap. lra.
  - unfold Zoom.shrink. cbn [Zoom.height Zoom.width].
    replace (2 * 450) with 900 by ring.
    apply ZoomMore.zoom_box30_below_cap. lra.
Defined.

(** X6. For longitudes in [-180, 180] the longitude fraction lies in
    [0, 1], and a box and the complementary box that goes the other way
    round the globe (swapped bounds) have fractions that add up to 1. *)
Theorem longitude_fraction_wraps (lon_min lon_max : R) :
  -180 <= lon_min <= 180 -> -180 <= lon_max <= 180 ->
  0 <= Zoom.lngFraction lon_min lon_max <= 1
  /\ (lon_min <> lon_max ->
      Zoom.lngFraction lon_min lon_max + Zoom.lngFraction lon_max lon_min = 1).
Proof.
  intros Hmin Hmax. unfold Zoom.lngFraction.
  destruct (Rlt_dec (lon_max - lon_min) 0),
    (Rlt_dec (lon_min - lon_max) 0);
    (split; [split; lra | intros Hne; try lra]).
Qed.

Lemma longitude_fraction_wraps_witness :
  0 <= Zoom.lngFraction 170 (- 170) <= 1
  /\ (170 <> - 170 ->
      Zoom.lngFraction 170 (- 170) + Zoom.lngFraction (- 170) 170 = 1).
Proof.
  refine (longitude_fraction_wraps 170 (- 170) _ _); lra.
Defined.

(** X7. The latitude radian is clamped to [-pi/2, pi/2] for every input,
    and for -90 < lat_min <= lat_max < 90 the latitude fraction lies in
    [0, 1]. *)
Theorem latitude_fraction_bounded (lat_min lat_max : R) :
  -90 < lat_min -> lat_min <= lat_max -> lat_max < 90 ->
  (forall lat, - (PI / 2) <= Zoom.latRad lat <= PI / 2)
  /\ 0 <= Zoom.latFraction lat_min lat_max <= 1.
Proof.
  intros H1 H12 H2. split; [apply ZoomMore.latRad_clamped|].
  unfold Zoom.latFraction.
  pose proof (ZoomMore.latRad_monotone lat_min lat_max H1 H12 H2) as Hm.
  pose proof (ZoomMore.latRad_clamped lat_min) as [Ha _].
  pose proof (ZoomMore.latRad_clamped lat_max) as [_ Hb].
  pose proof PI_RGT_0 as Hpi.
  split.
  - apply Rmult_le_reg_r with PI; [exact Hpi|].
    replace ((Zoom.latRad lat_max - Zoom.latRad lat_min) / PI * PI)
      with (Zoom.latRad lat_max - Zoom.latRad lat_min) by (field; lra).
    lra.
  - apply Rmult_le_reg_r with PI; [exact Hpi|].
    replace ((Zoom.latRad lat_max - Zoom.latRad lat_min) / PI * PI)
      with (Zoom.latRad lat_max - Zoom.latRad lat_min) by (field; lra).
    lra.
Qed.

Lemma latitude_fraction_bounded_witness :
  (forall lat, - (PI / 2) <= Zoom.latRad lat <= PI / 2)
  /\ 0 <= Zoom.latFraction (- 60) 45 <= 1.
Proof.
  refine (latitude_fraction_bounded (- 60) 45 _ _ _); lra.
Defined.

(** X8. A larger box never zooms in: when a box that does not cross the
    antimeridian is enlarged on every side (latitudes strictly between the
    poles), the estimated zoom for the same map size does not increase. *)
Theorem zoom_antitone_in_box
  (lon_min lon_max lat_min lat_max lon_min' lon_max' lat_min' lat_max' : R)
  (mapDim : Zoom.MapDim) :
  0 < Zoom.height mapDim -> 0 < Zoom.width mapDim ->
  lon_min' <= lon_min -> lon_min < lon_max -> lon_max <= lon_max' ->
  -90 < lat_min' -> lat_min' <= lat_min -> lat_min <= lat_max ->
  lat_max <= lat_max' -> lat_max' < 90 ->
  0 < Zoom.latFraction lat_min lat_max ->
  Zoom._getBoundsZoomLevel lon_min' lon_max' lat_min' lat_max' mapDim
  <= Zoom._getBoundsZoomLevel lon_min lon_max lat_min lat_max mapDim.
Proof.
  intros Hh Hw Hl1 Hl2 Hl3 Ha1 Ha2 Hlatle Ha3 Ha4 Hlat.
  unfold Zoom._getBoundsZoomLevel, Zoom.WORLD_DIM, Zoom.scale.
  cbn [Zoom.height Zoom.width].
  assert (Hflat : Zoom.latFraction lat_min lat_max
                  <= Zoom.latFraction lat_min' lat_max').
  { unfold Zoom.latFraction.
    assert (Zoom.latRad lat_min' <= Zoom.latRad lat_min)
      by (apply ZoomMore.latRad_monotone; lra).
    assert (Zoom.latRad lat_max <= Zoom.latRad lat_max')
      by (apply ZoomMore.latRad_monotone; lra).
    pose proof PI_RGT_0 as Hpi.
    apply Rmult_le_reg_r with PI; [exact Hpi|].
    replace ((Zoom.latRad lat_max - Zoom.latRad lat_min) / PI * PI)
      with (Zoom.latRad lat_max - Zoom.latRad lat_min) by (field; lra).
    replace ((Zoom.latRad lat_max' - Zoom.latRad lat_min') / PI * PI)
      with (Zoom.latRad lat_max' - Zoom.latRad lat_min') by (field; lra).
    lra. }
  assert (Hflng : 0 < Zoom.lngFraction lon_min lon_max
                  /\ Zoom.lngFraction lon_min lon_max
                     <= Zoom.lngFraction lon_min' lon_max').
  { rewrite !ZoomMore.lngFraction_plain by lra. split; lra. }
  destruct Hflng as [Hlng0 Hlng].
  pose proof (ZoomMore.zoom_antitone (Zoom.height mapDim) (256 * 2) _ _
                Hh ltac:(lra) Hlat Hflat) as Hz1.
  pose proof (ZoomMore.zoom_antitone (Zoom.width mapDim) (256 * 2) _ _
                Hw ltac:(lra) Hlng0 Hlng) as Hz2.
  apply Rmin_glb.
  - apply Rle_trans with (1 := Rmin_l _ _).
    apply Rmin_glb.
    + apply Rle_trans with (1 := Rmin_l _ _). exact Hz1.
    + apply Rle_trans with (1 := Rmin_r _ _). exact Hz2.
  - apply Rmin_r.
Qed.

Lemma zoom_antitone_in_box_witness :
  Zoom._getBoundsZoomLevel (- 10) 40 (- 5) 35
    {| Zoom.height := 450; Zoom.width := 450 |}
  <= Zoom._getBoundsZoomLevel 0 30 0 30
       {| Zoom.height := 450; Zoom.width := 450 |}.
Proof.
  refine (zoom_antitone_in_box 0 30 0 30 (- 10) 40 (- 5) 35
            {| Zoom.height := 450; Zoom.width := 450 |}
            _ _ _ _ _ _ _ _ _ _ _); try (cbn; lra).
  exact ZoomMore.latFraction_box30.
Defined.

(** * Geometry of the two candidates *)

Module CandidateFacts.




End CandidateFacts.


(** * Points within the bounding range *)

Module RangeFacts.

Lemma np_round_floor_le (x : R) : (np_floor x <= np_round x)%Z.
Proof.
  unfold np_round, np_floor.
  destruct (Rlt_dec _ _); [lia|].
  destruct (Rlt_dec _ _); [lia|].
  destruct (Z.even _); lia.
Qed.

Lemma np_round_le_floor_succ (x : R) : (np_round x <= np_floor x + 1)%Z.
Proof.
  unfold np_round, np_floor.
  destruct (Rlt_dec _ _); [lia|].
  destruct (Rlt_dec _ _); [lia|].
  destruct (Z.even _); lia.
Qed.

Lemma np_round_monotone (x y : R) : x <= y -> (np_round x <= np_round y)%Z.
Proof.
  intros Hxy.
  pose proof (Zfloor_le x y Hxy) as Hf.
  destruct (Z.eq_dec (Zfloor x) (Zfloor y)) as [Heq | Hne].
  - unfold np_round. rewrite <- Heq.
    pose proof (Zfloor_bound x) as [Hx0 Hx1].
    set (f := Zfloor x) in *.
    destruct (Rlt_dec (x - IZR f) (1 / 2)) as [Hx | Hx].
    + destruct (Rlt_dec (y - IZR f) (1 / 2)); [lia|].
      destruct (Rlt_dec (1 / 2) (y - IZR f)); [lia|].
      destruct (Z.even f); lia.
    + destruct (Rlt_dec (y - IZR f) (1 / 2)) as [Hy | Hy]; [lra|].
      destruct (Rlt_dec (1 / 2) (x - IZR f)) as [Hx' | Hx'].
      * destruct (Rlt_dec (1 / 2) (y - IZR f)); [lia | lra].
      * destruct (Rlt_dec (1 / 2) (y - IZR f)); [| lia].
        destruct (Z.even f); lia.
  - pose proof (np_round_le_floor_succ x) as H1.
    pose proof (np_round_floor_le y) as H2.
    unfold np_floor in *. lia.
Qed.

Lemma np_round_IZR (n : Z) : np_round (IZR n) = n.
Proof. apply np_round_near. lra. Qed.

(** A point of the normalised rectangle [0, nx] x [0, Y], with
    [ny = round Y]: its offset candidate is always a cell of the offset
    lattice. *)
Lemma in_rectangle_selection (L : Lattice) (p : point) (Y : R) :
  nx1 L = (nx2 L + 1)%Z -> ny1 L = (ny2 L + 1)%Z ->
  ny2 L = np_round Y ->
  0 <= fst p <= IZR (nx2 L) -> 0 <= snd p <= Y ->
  in_bounds (nx1 L) (ny1 L) (ix1 p) (iy1 p) = true
  /\ (selected L p = false
      <-> bdist p = false /\ (ix2 p = nx2 L \/ iy2 p = ny2 L)).
Proof.
  intros Hnx Hny HY [Hx0 Hx1] [Hy0 Hy1].
  assert (Hix1 : (0 <= ix1 p <= nx2 L)%Z).
  { unfold ix1. split; [apply np_round_nonneg; exact Hx0|].
    apply Z.le_trans with (np_round (IZR (nx2 L)));
      [apply np_round_monotone; exact Hx1 | rewrite np_round_IZR; lia]. }
  assert (Hiy1 : (0 <= iy1 p <= ny2 L)%Z).
  { unfold iy1. split; [apply np_round_nonneg; exact Hy0|].
    rewrite HY. apply np_round_monotone. exact Hy1. }
  assert (Hix2 : (0 <= ix2 p <= nx2 L)%Z).
  { unfold ix2, np_floor. split; [apply Zfloor_lub; exact Hx0|].
    apply Z.le_trans with (Zfloor (IZR (nx2 L)));
      [apply Zfloor_le; exact Hx1 | rewrite ZfloorZ; lia]. }
  assert (Hiy2 : (0 <= iy2 p <= ny2 L)%Z).
  { unfold iy2. split; [apply Zfloor_lub; exact Hy0|].
    pose proof (np_round_floor_le (snd p)).
    fold (iy1 p) in H. lia. }
  assert (Hb1 : in_bounds (nx1 L) (ny1 L) (ix1 p) (iy1 p) = true).
  { unfold in_bounds. rewrite Hnx, Hny.
    repeat (apply andb_true_intro; split);
      try (apply Z.leb_le; lia); apply Z.ltb_lt; lia. }
  split; [exact Hb1|].
  unfold selected, c1, c2. rewrite Hb1. cbn [andb].
  assert (Hb2 : in_bounds (nx2 L) (ny2 L) (ix2 p) (iy2 p) = false
                <-> ix2 p = nx2 L \/ iy2 p = ny2 L).
  { unfold in_bounds.
    replace (0 <=? ix2 p)%Z with true by (symmetry; apply Z.leb_le; lia).
    replace (0 <=? iy2 p)%Z with true by (symmetry; apply Z.leb_le; lia).
    cbn [andb]. rewrite andb_false_iff, !Z.ltb_ge. lia. }
  destruct (bdist p); cbn [orb negb].
  - split; [discriminate | intros [Hf _]; discriminate].
  - rewrite andb_true_r, Hb2. tauto.
Qed.

Lemma normalise_map (L : Lattice) (lat lon : list R) :
  normalise L lat lon
  = map (fun q => ((project_x (snd q) - xmin L) / dx L,
                   (project_y (fst q) - ymin L) / dy L))
        (combine lat lon).
Proof.
  unfold normalise. rewrite !map_map. revert lon.
  induction lat as [|u lat IH]; intros [|v lon]; simpl; try reflexivity.
  f_equal. apply IH.
Qed.

Lemma in_range_true (lo hi v : R) :
  in_range lo hi v = true -> lo <= v <= hi.
Proof.
  unfold in_range.
  destruct (Rle_dec lo v); [| discriminate].
  destruct (Rle_dec v hi); [| discriminate]. auto.
Qed.

Lemma div_bounds (n d t : R) : 0 < d -> 0 <= n <= t -> 0 <= n / d <= t / d.
Proof.
  intros Hd [Hn0 Hn1]. split.
  - apply Rmult_le_reg_r with d; [exact Hd|].
    replace (n / d * d) with n by (field; lra). lra.
  - apply Rmult_le_reg_r with d; [exact Hd|].
    replace (n / d * d) with n by (field; lra).
    replace (t / d * d) with t by (field; lra). lra.
Qed.

End RangeFacts.

(** X10. When every input point lies within the bounding range, given or
    defaulted (latitudes strictly between the poles, a positive horizontal
    count, a positive longitude extent), the offset
    candidate of every point is a cell of the offset lattice, so a point is
    left out of both lattices exactly when the base candidate is kept (it is
    not strictly farther) and its index is nx along x or ny along y. *)
Theorem in_range_point_dropped_only_on_far_edge
  (a : Args) (L : Lattice) (la0 la1 lo0 lo1 : R) :
  make_lattice a = Value L ->
  range_or_default (lat_range a) (lat a) = Value (la0, la1) ->
  range_or_default (lon_range a) (lon a) = Value (lo0, lo1) ->
  (0 < nx a)%Z ->
  -90 < la0 -> la0 <= la1 -> la1 < 90 -> lo0 < lo1 ->
  Forall (fun q => within (la0, la1) (lo0, lo1) q = true)
         (combine (lat a) (lon a)) ->
  Forall (fun p =>
            in_bounds (nx1 L) (ny1 L) (ix1 p) (iy1 p) = true
            /\ (selected L p = false
                <-> bdist p = false
                    /\ (ix2 p = nx a \/ iy2 p = ny2 L)))
         (normalise L (lat a) (lon a)).
Proof.
  intros HL Hlat Hlon Hnx Hla0 Hla Hla1 Hlo Hall.
  unfold make_lattice in HL. rewrite Hlat, Hlon in HL.
  cbn [bind fst snd] in HL.
  pose proof PI_RGT_0 as Hpi.
  assert (Hpx : project_x lo0 < project_x lo1) by (unfold project_x; nra).
  assert (Hpy : project_y la0 <= project_y la1)
    by (apply ProjectorFacts.project_y_monotone; assumption).
  rewrite (Rmin_left (project_x lo0) (project_x lo1)) in HL by lra.
  rewrite (Rmax_right (project_x lo0) (project_x lo1)) in HL by lra.
  rewrite (Rmin_left (project_y la0) (project_y la1)) in HL by lra.
  rewrite (Rmax_right (project_y la0) (project_y la1)) in HL by lra.
  assert (Hn : 0 < IZR (nx a)) by (apply IZR_lt; exact Hnx).
  set (dx0 := (project_x lo1 - project_x lo0) / IZR (nx a)) in *.
  assert (Hdx : 0 < dx0).
  { unfold dx0. apply Rdiv_lt_0_compat; lra. }
  assert (Hdy : 0 < dx0 * sqrt 3).
  { pose proof sqrt3_bounds. nra. }
  injection HL as <-. cbn [nx1 ny1 nx2 ny2 xmin ymin dx dy].
  rewrite RangeFacts.normalise_map. cbn [xmin ymin dx dy].
  apply Forall_forall. intros p Hp.
  apply in_map_iff in Hp as (q & <- & Hq).
  rewrite Forall_forall in Hall. specialize (Hall q Hq).
  unfold within in Hall. cbn [fst snd] in Hall.
  apply andb_prop in Hall as [Hqlat Hqlon].
  apply RangeFacts.in_range_true in Hqlat, Hqlon.
  set (L0 := {| xmin := project_x lo0; ymin := project_y la0;
                dx := dx0; dy := dx0 * sqrt 3;
                nx1 := nx a + 1;
                ny1 := np_round ((project_y la1 - project_y la0)
                                 / (dx0 * sqrt 3)) + 1;
                nx2 := nx a;
                ny2 := np_round ((project_y la1 - project_y la0)
                                 / (dx0 * sqrt 3)) |}).
  apply (RangeFacts.in_rectangle_selection L0 _
           ((project_y la1 - project_y la0) / (dx0 * sqrt 3)));
    try reflexivity; cbn [fst snd nx2 L0].
  - replace (IZR (nx a)) with ((project_x lo1 - project_x lo0) / dx0)
      by (unfold dx0; field; lra).
    apply RangeFacts.div_bounds; [exact Hdx|].
    unfold project_x. split; nra.
  - apply RangeFacts.div_bounds; [exact Hdy|].
    assert (project_y la0 <= project_y (fst q))
      by (apply ProjectorFacts.project_y_monotone; lra).
    assert (project_y (fst q) <= project_y la1)
      by (apply ProjectorFacts.project_y_monotone; lra).
    lra.
Qed.

Lemma in_range_point_dropped_only_on_far_edge_witness :
  Forall (fun p =>
            in_bounds (nx1 lattice30) (ny1 lattice30) (ix1 p) (iy1 p) = true
            /\ (selected lattice30 p = false
                <-> bdist p = false
                    /\ (ix2 p = nx (box30 [0; 30] [0; 30] None (Some NegInf))
                        \/ iy2 p = ny2 lattice30)))
         (normalise lattice30
                    (lat (box30 [0; 30] [0; 30] None (Some NegInf)))
                    (lon (box30 [0; 30] [0; 30] None (Some NegInf)))).
Proof.
  refine (in_range_point_dropped_only_on_far_edge
            (box30 [0; 30] [0; 30] None (Some NegInf)) lattice30 0 30 0 30
            _ _ _ _ _ _ _ _ _); try reflexivity; try lra.
  - apply Box30.make_lattice_box30.
  - cbn [box30 lat lon combine]. unfold within, in_range. cbn [fst snd].
    apply Forall_cons; [| apply Forall_cons; [| apply Forall_nil]];
      cbn [fst snd];
      repeat match goal with
             | |- context [Rle_dec ?u ?v] =>
                 destruct (Rle_dec u v); [| exfalso; lra]
             end; reflexivity.
Defined.

(** * Shape of the returned arrays *)

Module ShapeFacts.

Lemma np_arange_length (n : Z) : length (np_arange n) = Z.to_nat n.
Proof. unfold np_arange. rewrite length_map, length_seq. reflexivity. Qed.

Lemma np_repeat_length (a : list R) (k : Z) :
  length (np_repeat a k) = (length a * Z.to_nat k)%nat.
Proof.
  unfold np_repeat. induction a as [|v t IH]; [reflexivity|].
  cbn [flat_map length]. rewrite length_app, repeat_length, IH. lia.
Qed.

Lemma np_tile_length (a : list R) (k : Z) :
  length (np_tile a k) = (Z.to_nat k * length a)%nat.
Proof.
  unfold np_tile. induction (Z.to_nat k) as [|n IH]; [reflexivity|].
  cbn [repeat concat]. rewrite length_app, IH. lia.
Qed.

Lemma all_centers_columns (L : Lattice) :
  exists col0 col1,
    all_centers L = combine col0 col1
    /\ length col0 = cells L /\ length col1 = cells L.
Proof.
  unfold all_centers. eexists. eexists. split; [reflexivity|].
  unfold cells.
  rewrite !length_map, !length_app, !length_map, !np_repeat_length,
    !np_tile_length, !length_map, !np_arange_length.
  split; lia.
Qed.

Lemma all_centers_length (L : Lattice) : length (all_centers L) = cells L.
Proof.
  destruct (all_centers_columns L) as (c0 & c1 & -> & H0 & H1).
  rewrite length_combine. lia.
Qed.

Lemma shaped_ravel_length {A : Type} (r c : nat) (l : list (list A)) :
  shaped r c l -> length (ravel l) = (r * c)%nat.
Proof.
  intros [Hlen Hrows]. subst r. unfold ravel.
  induction Hrows as [|row t Hrow Ht IH]; [reflexivity|].
  cbn [concat length]. rewrite length_app, IH, Hrow. lia.
Qed.

Lemma shaped_map {A B : Type} (f : A -> B) (r c : nat) (l : list (list A)) :
  shaped r c l -> shaped r c (map (map f) l).
Proof.
  intros [Hlen Hrows]. split.
  - rewrite length_map. exact Hlen.
  - apply Forall_forall. intros row Hin.
    apply in_map_iff in Hin as (row0 & <- & Hin).
    rewrite length_map. rewrite Forall_forall in Hrows. auto.
Qed.

Lemma np_zeros_shaped (r c : Z) (l : list (list R)) :
  np_zeros r c = Value l -> shaped (Z.to_nat r) (Z.to_nat c) l.
Proof.
  unfold np_zeros. destruct ((r <? 0) || (c <? 0))%Z; [discriminate|].
  intros H. injection H as <-. apply shaped_repeat.
Qed.

Lemma np_empty_lists_shaped (r c : Z) (l : list (list (list R))) :
  np_empty_lists r c = Value l -> shaped (Z.to_nat r) (Z.to_nat c) l.
Proof.
  unfold np_empty_lists. destruct ((r <? 0) || (c <? 0))%Z; [discriminate|].
  intros H. injection H as <-. apply shaped_repeat.
Qed.

Lemma np_add_at_shaped (r c : nat) (idx : list (Z * Z)) (l : list (list R)) :
  shaped r c l -> shaped r c (np_add_at l idx).
Proof.
  unfold np_add_at. revert l.
  induction idx as [|ij t IH]; intros l Hs; [exact Hs|].
  cbn [fold_left]. apply IH, upd2_shaped, Hs.
Qed.

Lemma fill_shaped (L : Lattice) (color : list R) (r1 c1 r2 c2 : nat)
  (pts : list point) :
  forall (i : nat) (l1 l2 l1' l2' : list (list (list R))),
    shaped r1 c1 l1 -> shaped r2 c2 l2 ->
    fill L pts i color l1 l2 = Value (l1', l2') ->
    shaped r1 c1 l1' /\ shaped r2 c2 l2'.
Proof.
  induction pts as [|p t IH]; intros i l1 l2 l1' l2' Hs1 Hs2 Hfill.
  - simpl in Hfill. injection Hfill as <- <-. auto.
  - cbn [fill] in Hfill.
    destruct (bdist p).
    + destruct (in_bounds (nx1 L) (ny1 L) (ix1 p) (iy1 p)).
      * destruct (nth_error color i) as [v|]; [|discriminate].
        apply IH in Hfill; [exact Hfill | apply upd2_shaped, Hs1 | exact Hs2].
      * apply IH in Hfill; assumption.
    + destruct (in_bounds (nx2 L) (ny2 L) (ix2 p) (iy2 p)).
      * destruct (nth_error color i) as [v|]; [|discriminate].
        apply IH in Hfill; [exact Hfill | exact Hs1 | apply upd2_shaped, Hs2].
      * apply IH in Hfill; assumption.
Qed.

(** Whatever the mode, the accumulated array has one entry per cell. *)
Lemma accumulate_length (a : Args) (L : Lattice) (pts : list point)
  (accum : list (option R)) :
  accumulate a L pts = Value accum -> length accum = cells L.
Proof.
  unfold accumulate, cells.
  destruct (color a) as [col|].
  - unfold accum_values, value_lattices.
    destruct (np_empty_lists (nx1 L) (ny1 L)) as [e1|] eqn:He1;
      [|discriminate].
    destruct (np_empty_lists (nx2 L) (ny2 L)) as [e2|] eqn:He2;
      [|discriminate].
    cbn [bind].
    destruct (fill L pts 0 col e1 e2) as [[l1 l2]|] eqn:Hfill;
      [|discriminate].
    cbn [bind]. intros H. injection H as <-.
    apply np_empty_lists_shaped in He1, He2.
    destruct (fill_shaped _ _ _ _ _ _ _ _ _ _ _ _ He1 He2 Hfill) as [Hs1 Hs2].
    rewrite length_app.
    rewrite (shaped_ravel_length _ _ _ (shaped_map _ _ _ _ Hs1)).
    rewrite (shaped_ravel_length _ _ _ (shaped_map _ _ _ _ Hs2)).
    reflexivity.
  - unfold accum_count, count_lattices.
    destruct (np_zeros (nx1 L) (ny1 L)) as [z1|] eqn:Hz1; [|discriminate].
    destruct (np_zeros (nx2 L) (ny2 L)) as [z2|] eqn:Hz2; [|discriminate].
    cbn [bind]. intros H. injection H as <-.
    apply np_zeros_shaped in Hz1, Hz2.
    rewrite length_app.
    rewrite (shaped_ravel_length _ _ _
               (shaped_map _ _ _ _ (np_add_at_shaped _ _ _ _ Hz1))).
    rewrite (shaped_ravel_length _ _ _
               (shaped_map _ _ _ _ (np_add_at_shaped _ _ _ _ Hz2))).
    reflexivity.
Qed.

Lemma mask_values_length {A : Type} (l : list A) (accum : list (option R)) :
  length l = length accum ->
  length (mask_select l (map good accum)) = length (values_of accum).
Proof.
  revert l. induction accum as [|[v|] t IH]; intros [|u l] Hlen;
    simpl in *; try discriminate; try reflexivity.
  - f_equal. apply IH. lia.
  - apply IH. lia.
Qed.

Lemma mask_select_all {A : Type} (l : list A) (accum : list (option R)) :
  length l = length accum ->
  Forall (fun c => good c = true) accum ->
  mask_select l (map good accum) = l.
Proof.
  intros Hlen Hall. revert l Hlen.
  induction Hall as [|c t Hc Ht IH]; intros [|u l] Hlen;
    simpl in *; try discriminate; try reflexivity.
  rewrite Hc. f_equal. apply IH. lia.
Qed.

(** What [_compute_hexbin] returns, in terms of its stages. *)
Lemma compute_hexbin_stages (a : Args) (out : Output) :
  _compute_hexbin a = Value out ->
  exists L accum w h,
    make_lattice a = Value L
    /\ accumulate a L (normalise L (lat a) (lon a)) = Value accum
    /\ hex_scale (mask_select (all_centers L) (map good accum))
       = Value (w, h)
    /\ hexagons_ids out = mask_select (all_centers L) (map good accum)
    /\ agreggated_value out = values_of accum
    /\ hexagons_lats out
       = map (fun c => map unproject_lat (map (fun v => v * h + snd c) hy))
             (hexagons_ids out)
    /\ hexagons_lons out
       = map (fun c => map unproject_lon (map (fun v => v * w + fst c) hx))
             (hexagons_ids out).
Proof.
  unfold _compute_hexbin.
  destruct (make_lattice a) as [L|]; [|discriminate]. cbn [bind].
  destruct (accumulate a L _) as [accum|] eqn:Hacc; [|discriminate].
  cbn [bind]. unfold polygons.
  destruct (hex_scale _) as [[w h]|] eqn:Hscale; [|discriminate].
  cbn [bind]. intros H. injection H as <-.
  exists L, accum, w, h.
  cbn [hexagons_ids agreggated_value hexagons_lats hexagons_lons].
  rewrite !map_map. repeat split; auto.
Qed.

Lemma compute_hexbin_aligned (a : Args) (out : Output) :
  _compute_hexbin a = Value out ->
  length (hexagons_ids out) = length (agreggated_value out)
  /\ length (hexagons_lats out) = length (agreggated_value out)
  /\ length (hexagons_lons out) = length (agreggated_value out)
  /\ Forall (fun ring => length ring = 6%nat) (hexagons_lats out)
  /\ Forall (fun ring => length ring = 6%nat) (hexagons_lons out).
Proof.
  intros Hout.
  destruct (compute_hexbin_stages a out Hout)
    as (L & accum & w & h & HL & Hacc & _ & Hids & Hval & Hlats & Hlons).
  assert (Hlen : length (hexagons_ids out) = length (agreggated_value out)).
  { rewrite Hids, Hval. apply mask_values_length.
    rewrite all_centers_length.
    symmetry. apply (accumulate_length a L _ _ Hacc). }
  rewrite Hlats, Hlons, !length_map.
  repeat split; try exact Hlen;
    apply Forall_forall; intros ring Hin;
    apply in_map_iff in Hin as (c & <- & _);
    rewrite !length_map; reflexivity.
Qed.

End ShapeFacts.

(** X11. Whenever [_compute_hexbin] returns, its four arrays are aligned:
    there are as many identifiers, latitude rings and longitude rings as
    aggregated values, and every ring has the six vertices of a hexagon. *)
Theorem output_arrays_are_aligned (a : Args) (out : Output) :
  _compute_hexbin a = Value out ->
  length (hexagons_ids out) = length (agreggated_value out)
  /\ length (hexagons_lats out) = length (agreggated_value out)
  /\ length (hexagons_lons out) = length (agreggated_value out)
  /\ Forall (fun ring => length ring = 6%nat) (hexagons_lats out)
  /\ Forall (fun ring => length ring = 6%nat) (hexagons_lons out).
Proof.
  apply ShapeFacts.compute_hexbin_aligned.
Qed.

Lemma output_arrays_are_aligned_witness :
  exists out,
    _compute_hexbin (box30 [0; 30] [0; 30] None (Some NegInf)) = Value out
    /\ length (hexagons_ids out) = length (agreggated_value out)
    /\ length (hexagons_lats out) = length (agreggated_value out)
    /\ length (hexagons_lons out) = length (agreggated_value out)
    /\ Forall (fun ring => length ring = 6%nat) (hexagons_lats out)
    /\ Forall (fun ring => length ring = 6%nat) (hexagons_lons out).
Proof.
  destruct Box30.compute_hexbin_origin_corner as (out & Hout & _).
  exists out. split; [exact Hout|].
  exact (output_arrays_are_aligned
           (box30 [0; 30] [0; 30] None (Some NegInf)) out Hout).
Defined.


(** * The scale inferred on a full lattice *)

Module ScaleFacts.

(** Every consecutive difference is the difference of two members. *)
Lemma np_diff_In (l : list R) (e : R) :
  In e (np_diff l) -> exists u v, In u l /\ In v l /\ e = v - u.
Proof.
  induction l as [|u t IH]; [contradiction|].
  destruct t as [|v t']; [contradiction|].
  cbn [np_diff]. intros [<- | He].
  - exists u, v. repeat split; simpl; auto.
  - destruct (IH He) as (u' & v' & Hu & Hv & ->).
    exists u', v'. repeat split; simpl; auto.
Qed.

(** In an ascending list, two members with no member strictly between
    them are adjacent somewhere. *)
Lemma gap_is_a_difference (l : list R) (a b : R) :
  StronglySorted Rle l ->
  In a l -> In b l -> a < b ->
  (forall v, In v l -> ~ (a < v < b)) ->
  In (b - a) (np_diff l).
Proof.
  induction 1 as [|h t Ht IH Hh]; intros Ha Hb Hab Hgap;
    [contradiction|].
  rewrite Forall_forall in Hh.
  destruct t as [|h2 t'].
  - destruct Ha as [<- | []], Hb as [<- | []]. lra.
  - cbn [np_diff].
    assert (Hbt : In b (h2 :: t')).
    { destruct Hb as [<- | Hb]; [| exact Hb].
      destruct Ha as [<- | Ha]; [lra|].
      specialize (Hh a Ha). lra. }
    destruct (Req_EM_T a h) as [-> | Hne].
    + destruct (Req_EM_T h2 h) as [-> | Hne2].
      * right. apply IH; auto.
        -- left. reflexivity.
        -- intros v Hv. apply Hgap. right. exact Hv.
      * left.
        assert (Hh2 : h <= h2) by (apply Hh; left; reflexivity).
        assert (Hh2b : h2 <= b).
        { destruct Hbt as [<- | Hbt]; [lra|].
          inversion Ht as [|? ? _ Hall]; subst.
          rewrite Forall_forall in Hall. apply Hall. exact Hbt. }
        assert (Hnot : ~ (h < h2 < b))
          by (apply Hgap; right; left; reflexivity).
        assert (h2 = b) by lra. subst h2. reflexivity.
    + right. apply IH; auto.
      * destruct Ha as [Ha | Ha]; [congruence | exact Ha].
      * intros v Hv. apply Hgap. right. exact Hv.
Qed.

(** An ascending list without a zero difference has no repeated member. *)
Lemma no_zero_difference_NoDup (l : list R) :
  StronglySorted Rle l -> ~ In 0 (np_diff l) -> NoDup l.
Proof.
  induction 1 as [|h t Ht IH Hh]; intros Hz; [constructor|].
  rewrite Forall_forall in Hh.
  destruct t as [|h2 t']; [repeat constructor; auto|].
  cbn [np_diff] in Hz.
  constructor.
  - intros Hin.
    assert (Hh2 : h <= h2) by (apply Hh; left; reflexivity).
    assert (Hne : h2 - h <> 0) by (intros E; apply Hz; left; exact E).
    inversion Ht as [|? ? _ Hall]; subst.
    rewrite Forall_forall in Hall.
    destruct Hin as [E | Hin]; [lra|].
    specialize (Hall h Hin). lra.
  - apply IH. intros Hin. apply Hz. right. exact Hin.
Qed.

(** Coordinates drawn from the lattice [a + k * s], with a repeated member
    and two members one step apart: the inferred spacing is the step. *)
Lemma spacing_of_lattice (coords : list R) (a s c : R) :
  0 < s ->
  (forall v, In v coords -> exists k : Z, v = a + IZR k * s) ->
  ~ NoDup coords ->
  In c coords -> In (c + s) coords ->
  spacing coords = Value s.
Proof.
  intros Hs Hform Hdup Hc Hcs. unfold spacing.
  apply item1_second_smallest.
  pose proof (sorted_ascending coords) as Hasc.
  assert (Hform' : forall v, In v (sorted coords) ->
                             exists k : Z, v = a + IZR k * s).
  { intros v Hv. apply Hform. apply (proj1 (sorted_In _ _)). exact Hv. }
  split; [| exists 0; split; [| split; [exact Hs |]]].
  - replace s with (c + s - c) at 1 by ring.
    apply gap_is_a_difference; try exact Hasc; try lra;
      try (apply (proj2 (sorted_In _ _)); assumption).
    intros v Hv [Hlo Hhi].
    destruct (Hform' v Hv) as (k & ->).
    destruct (Hform c Hc) as (k0 & Ek0). rewrite Ek0 in Hlo, Hhi.
    assert (H1 : IZR k0 < IZR k) by nra.
    assert (H2 : IZR k < IZR k0 + 1) by nra.
    apply lt_IZR in H1. rewrite <- plus_IZR in H2. apply lt_IZR in H2. lia.
  - destruct (in_dec Req_EM_T 0 (np_diff (sorted coords))) as [Hin | Hnin];
      [exact Hin|].
    exfalso. apply Hdup.
    apply (Permutation_NoDup (sorted_perm coords)).
    apply no_zero_difference_NoDup; assumption.
  - intros e He.
    pose proof (np_diff_nonneg _ Hasc) as Hnn.
    rewrite Forall_forall in Hnn. specialize (Hnn e He).
    destruct (np_diff_In _ _ He) as (u & v & Hu & Hv & ->).
    destruct (Hform' u Hu) as (ku & ->).
    destruct (Hform' v Hv) as (kv & ->).
    assert (Hk : (ku <= kv)%Z).
    { apply le_IZR. nra. }
    destruct (Z.eq_dec ku kv) as [-> | Hne]; [left; ring|].
    right.
    assert (Hk1 : IZR ku + 1 <= IZR kv).
    { rewrite <- plus_IZR. apply IZR_le. lia. }
    nra.
Qed.

Lemma np_arange_In (n : Z) (v : R) :
  In v (np_arange n) -> exists i : Z, v = IZR i.
Proof.
  unfold np_arange. intros Hin.
  apply in_map_iff in Hin as (i & <- & _). eauto.
Qed.

Lemma np_arange_cons (n : Z) :
  (1 <= n)%Z -> exists t, np_arange n = 0 :: t.
Proof.
  intros Hn. unfold np_arange.
  destruct (Z.to_nat n) as [|m] eqn:Hm; [lia|].
  cbn [seq map]. eauto.
Qed.

Lemma np_repeat_In (a : list R) (k : Z) (v : R) :
  In v (np_repeat a k) -> In v a.
Proof.
  unfold np_repeat. intros Hin.
  apply in_flat_map in Hin as (u & Hu & Hv).
  apply repeat_spec in Hv. subst v. exact Hu.
Qed.

Lemma np_tile_In (a : list R) (k : Z) (v : R) :
  In v (np_tile a k) -> In v a.
Proof.
  unfold np_tile. intros Hin.
  apply in_concat in Hin as (l & Hl & Hv).
  apply repeat_spec in Hl. subst l. exact Hv.
Qed.

Lemma np_repeat_In_intro (a : list R) (k : Z) (v : R) :
  (1 <= k)%Z -> In v a -> In v (np_repeat a k).
Proof.
  intros Hk Hv. unfold np_repeat. apply in_flat_map.
  exists v. split; [exact Hv|].
  destruct (Z.to_nat k) as [|m] eqn:Hm; [lia|]. left. reflexivity.
Qed.

Lemma np_tile_In_intro (a : list R) (k : Z) (v : R) :
  (1 <= k)%Z -> In v a -> In v (np_tile a k).
Proof.
  intros Hk Hv. unfold np_tile.
  destruct (Z.to_nat k) as [|m] eqn:Hm; [lia|].
  cbn [repeat concat]. apply in_or_app. left. exact Hv.
Qed.

Lemma np_repeat_twice (a : list R) (k : Z) (v : R) (t : list R) :
  (2 <= k)%Z -> a = v :: t -> exists r, np_repeat a k = v :: v :: r.
Proof.
  intros Hk ->. unfold np_repeat.
  destruct (Z.to_nat k) as [|[|m]] eqn:Hm; try lia.
  cbn [flat_map repeat app]. eauto.
Qed.

Lemma np_tile_twice (a : list R) (k : Z) (v : R) (t : list R) :
  (2 <= k)%Z -> a = v :: t -> exists r, np_tile a k = v :: t ++ v :: r.
Proof.
  intros Hk ->. unfold np_tile.
  destruct (Z.to_nat k) as [|[|m]] eqn:Hm; try lia.
  cbn [repeat concat]. rewrite <- app_comm_cons.
  eexists. f_equal. f_equal. rewrite <- app_comm_cons. reflexivity.
Qed.

Lemma map_fst_combine {A B : Type} (u : list A) (v : list B) :
  length u = length v -> map fst (combine u v) = u.
Proof.
  revert v. induction u as [|a u IH]; intros [|b v] Hlen;
    simpl in *; try discriminate; try reflexivity.
  f_equal. apply IH. lia.
Qed.

Lemma map_snd_combine {A B : Type} (u : list A) (v : list B) :
  length u = length v -> map snd (combine u v) = v.
Proof.
  revert v. induction u as [|a u IH]; intros [|b v] Hlen;
    simpl in *; try discriminate; try reflexivity.
  f_equal. apply IH. lia.
Qed.


Section FullLattice.

Variable L : Lattice.
Hypothesis Hnx1 : nx1 L = (nx2 L + 1)%Z.
Hypothesis Hny1 : ny1 L = (ny2 L + 1)%Z.
Hypothesis Hnx2 : (1 <= nx2 L)%Z.
Hypothesis Hny2 : (1 <= ny2 L)%Z.

Lemma all_centers_fst : map fst (all_centers L) = column0 L.
Proof.
  change (all_centers L) with (combine (column0 L) (column1 L)).
  apply map_fst_combine. unfold column0, column1.
  rewrite !length_map, !length_app, !length_map,
    !ShapeFacts.np_repeat_length, !ShapeFacts.np_tile_length, !length_map,
    !ShapeFacts.np_arange_length.
  lia.
Qed.

Lemma all_centers_snd : map snd (all_centers L) = column1 L.
Proof.
  change (all_centers L) with (combine (column0 L) (column1 L)).
  apply map_snd_combine. unfold column0, column1.
  rewrite !length_map, !length_app, !length_map,
    !ShapeFacts.np_repeat_length, !ShapeFacts.np_tile_length, !length_map,
    !ShapeFacts.np_arange_length.
  lia.
Qed.

Lemma column0_form (v : R) :
  In v (column0 L) -> exists k : Z, v = xmin L + IZR k * (dx L / 2).
Proof.
  unfold column0. intros Hin.
  apply in_map_iff in Hin as (u & <- & Hu).
  apply in_app_or in Hu as [Hu | Hu].
  - apply np_repeat_In, np_arange_In in Hu as (i & ->).
    exists (2 * i)%Z. rewrite mult_IZR. lra.
  - apply np_repeat_In, in_map_iff in Hu as (w & <- & Hw).
    apply np_arange_In in Hw as (i & ->).
    exists (2 * i + 1)%Z. rewrite plus_IZR, mult_IZR. lra.
Qed.

Lemma column1_form (v : R) :
  In v (column1 L) -> exists k : Z, v = ymin L + IZR k * (dy L / 2).
Proof.
  unfold column1. intros Hin.
  apply in_map_iff in Hin as (u & <- & Hu).
  apply in_app_or in Hu as [Hu | Hu].
  - apply np_tile_In, np_arange_In in Hu as (i & ->).
    exists (2 * i)%Z. rewrite mult_IZR. lra.
  - apply in_map_iff in Hu as (w & <- & Hw).
    apply np_tile_In, np_arange_In in Hw as (i & ->).
    exists (2 * i + 1)%Z. rewrite plus_IZR, mult_IZR. lra.
Qed.

Lemma column0_repeats : ~ NoDup (column0 L).
Proof.
  unfold column0.
  destruct (np_arange_cons (nx1 L) ltac:(lia)) as (t & Ht).
  destruct (np_repeat_twice _ (ny1 L) 0 t ltac:(lia) Ht) as (r & Hr).
  rewrite Hr. cbn [app map]. intros Hnd.
  inversion Hnd as [|? ? Hn _]; subst. apply Hn. left. reflexivity.
Qed.

Lemma column1_repeats : ~ NoDup (column1 L).
Proof.
  unfold column1.
  destruct (np_arange_cons (ny1 L) ltac:(lia)) as (t & Ht).
  destruct (np_tile_twice _ (nx1 L) 0 t ltac:(lia) Ht) as (r & Hr).
  rewrite Hr. cbn [app map]. intros Hnd.
  inversion Hnd as [|? ? Hn _]; subst. apply Hn.
  rewrite <- app_assoc, map_app. apply in_or_app. right.
  left. reflexivity.
Qed.

Lemma column0_members :
  In (0 * dx L + xmin L) (column0 L)
  /\ In ((0 + 0.5) * dx L + xmin L) (column0 L).
Proof.
  unfold column0. split.
  - apply in_map with (f := fun v => v * dx L + xmin L).
    apply in_or_app. left. apply np_repeat_In_intro; [lia|].
    destruct (np_arange_cons (nx1 L) ltac:(lia)) as (t & ->).
    left. reflexivity.
  - apply in_map with (f := fun v => v * dx L + xmin L).
    apply in_or_app. right. apply np_repeat_In_intro; [lia|].
    apply in_map with (f := fun v => v + 0.5).
    destruct (np_arange_cons (nx2 L) ltac:(lia)) as (t & ->).
    left. reflexivity.
Qed.

Lemma column1_members :
  In (0 * dy L + ymin L) (column1 L)
  /\ In ((0 + 0.5) * dy L + ymin L) (column1 L).
Proof.
  unfold column1. split.
  - apply in_map with (f := fun v => v * dy L + ymin L).
    apply in_or_app. left. apply np_tile_In_intro; [lia|].
    destruct (np_arange_cons (ny1 L) ltac:(lia)) as (t & ->).
    left. reflexivity.
  - apply in_map with (f := fun v => v * dy L + ymin L).
    apply in_or_app. right.
    apply in_map with (f := fun v => v + 0.5).
    apply np_tile_In_intro; [lia|].
    destruct (np_arange_cons (ny2 L) ltac:(lia)) as (t & ->).
    left. reflexivity.
Qed.

Lemma spacing_full_lattice :
  0 < dx L -> 0 < dy L ->
  spacing (map fst (all_centers L)) = Value (dx L / 2)
  /\ spacing (map snd (all_centers L)) = Value (dy L / 2).
Proof.
  intros Hdx Hdy. rewrite all_centers_fst, all_centers_snd.
  destruct column0_members as [Hx0 Hx1].
  destruct column1_members as [Hy0 Hy1].
  split.
  - apply (spacing_of_lattice _ (xmin L) (dx L / 2) (0 * dx L + xmin L));
      [lra | exact column0_form | exact column0_repeats | exact Hx0 |].
    replace (0 * dx L + xmin L + dx L / 2)
      with ((0 + 0.5) * dx L + xmin L) by lra.
    exact Hx1.
  - apply (spacing_of_lattice _ (ymin L) (dy L / 2) (0 * dy L + ymin L));
      [lra | exact column1_form | exact column1_repeats | exact Hy0 |].
    replace (0 * dy L + ymin L + dy L / 2)
      with ((0 + 0.5) * dy L + ymin L) by lra.
    exact Hy1.
Qed.

(** On the full lattice both scales are the horizontal step. *)
Lemma hex_scale_full_lattice :
  0 < dx L -> dy L = dx L * sqrt 3 ->
  hex_scale (all_centers L) = Value (dx L, dx L).
Proof.
  intros Hdx Hdy. unfold hex_scale.
  pose proof sqrt3_bounds as [Hs1 Hs2].
  destruct spacing_full_lattice as [Hx Hy]; [exact Hdx | rewrite Hdy; nra |].
  rewrite Hx, Hy. cbn [bind]. rewrite Hdy, cos_PI6.
  f_equal. f_equal.
  - field.
  - assert (Hsq : sqrt 3 * sqrt 3 = 3) by (apply sqrt_sqrt; lra).
    replace 0.5 with (1 / 2) by lra.
    replace (2 / 3 * (dx L * sqrt 3 / 2) / (1 / 2 / (sqrt 3 / 2)))
      with (dx L * (sqrt 3 * sqrt 3) / 3) by (field; lra).
    rewrite Hsq. field.
Qed.

End FullLattice.

End ScaleFacts.

(** * The geometry pass *)

Module GeometryFacts.

Lemma upd_Forall {A : Type} (P : A -> Prop) (f : A -> A) (n : nat)
  (l : list A) :
  (forall a, P a -> P (f a)) -> Forall P l -> Forall P (upd f n l).
Proof.
  intros Hf Hl. revert n.
  induction Hl as [|a t Ha Ht IH]; intros [|n]; simpl; constructor; auto.
Qed.

Lemma np_add_at_nonneg (idx : list (Z * Z)) (l : list (list R)) :
  Forall (Forall (fun v => 0 <= v)) l ->
  Forall (Forall (fun v => 0 <= v)) (np_add_at l idx).
Proof.
  unfold np_add_at. revert l.
  induction idx as [|ij t IH]; intros l Hl; [exact Hl|].
  cbn [fold_left]. apply IH. unfold upd2.
  apply upd_Forall; [| exact Hl].
  intros row Hrow. apply upd_Forall; [| exact Hrow].
  intros v Hv. lra.
Qed.

Lemma np_zeros_nonneg (r c : Z) (l : list (list R)) :
  np_zeros r c = Value l ->
  (0 <= r)%Z /\ (0 <= c)%Z /\ Forall (Forall (fun v => 0 <= v)) l.
Proof.
  unfold np_zeros.
  destruct ((r <? 0) || (c <? 0))%Z eqn:Hneg; [discriminate|].
  apply orb_false_iff in Hneg as [Hr Hc].
  apply Z.ltb_ge in Hr, Hc.
  intros H. injection H as <-. repeat split; try assumption.
  apply Forall_forall. intros row Hrow. apply repeat_spec in Hrow.
  subst row. apply Forall_forall. intros v Hv.
  apply repeat_spec in Hv. subst v. lra.
Qed.

Lemma ravel_Forall {A : Type} (P : A -> Prop) (l : list (list A)) :
  Forall (Forall P) l -> Forall P (ravel l).
Proof.
  unfold ravel. induction 1 as [|row t Hrow Ht IH]; [constructor|].
  cbn [concat]. apply Forall_app. auto.
Qed.

(** Count mode without a finite threshold: every cell is kept, with a
    non-negative count. *)
Lemma count_accumulate_unfiltered (a : Args) (L : Lattice)
  (pts : list point) (accum : list (option R)) :
  color a = None ->
  min_count a = None \/ min_count a = Some NegInf ->
  accumulate a L pts = Value accum ->
  nonneg_dims L
  /\ exists counts, accum = map Some counts
                    /\ Forall (fun v => 0 <= v) counts.
Proof.
  intros Hcol Hmc. unfold accumulate, accum_count, count_lattices.
  rewrite Hcol.
  destruct (np_zeros (nx1 L) (ny1 L)) as [z1|] eqn:Hz1; [|discriminate].
  destruct (np_zeros (nx2 L) (ny2 L)) as [z2|] eqn:Hz2; [|discriminate].
  cbn [bind]. intros H. injection H as <-.
  apply np_zeros_nonneg in Hz1 as (Hx1 & Hy1 & Hn1).
  apply np_zeros_nonneg in Hz2 as (Hx2 & Hy2 & Hn2).
  split; [unfold nonneg_dims; auto|].
  eexists. split.
  - rewrite !HexbinFacts.ravel_map, <- map_app.
    apply map_ext. intros c. destruct Hmc as [-> | ->]; reflexivity.
  - apply Forall_app. split; apply ravel_Forall, np_add_at_nonneg;
      assumption.
Qed.

Lemma good_all_some (counts : list R) :
  Forall (fun c => good c = true) (map Some counts).
Proof.
  apply Forall_forall. intros c Hc.
  apply in_map_iff in Hc as (v & <- & _). reflexivity.
Qed.

Lemma cells_of_nat (L : Lattice) :
  nonneg_dims L ->
  Z.of_nat (cells L) = (nx1 L * ny1 L + nx2 L * ny2 L)%Z.
Proof.
  intros (H1 & H2 & H3 & H4). unfold cells.
  rewrite Nat2Z.inj_add, !Nat2Z.inj_mul, !Z2Nat.id by assumption.
  reflexivity.
Qed.

(** A lattice with a single row of offset cells and no base cell never
    yields a scale. *)
Lemma single_row_raises (a : Args) (L : Lattice) :
  make_lattice a = Value L -> ny2 L = 0%Z ->
  exists e, _compute_hexbin a = Raise e.
Proof.
  intros HL Hny2.
  destruct (HexbinFacts.make_lattice_inv a L HL)
    as (Dy & _ & _ & _ & Hny1 & _ & _).
  rewrite Hny2 in Hny1. cbn in Hny1.
  unfold _compute_hexbin. rewrite HL. cbn [bind].
  destruct (accumulate a L _) as [accum|e]; cbn [bind]; [| eauto].
  exists IndexError. unfold polygons.
  rewrite (Degenerate.hex_scale_flat (0 * dy L + ymin L)); [reflexivity|].
  apply Degenerate.mask_select_Forall, Degenerate.all_centers_flat;
    assumption.
Qed.

End GeometryFacts.

(** X12. In count mode without a finite threshold ([min_count] unset or
    [-inf]) no cell is filtered out: whenever the call returns, it returns
    one hexagon per lattice cell, (nx+1)(ny+1) + nx ny of them, cells
    without any point included; every value is a non-negative count and the
    identifiers are the centres of all the cells in lattice order. *)
Theorem count_mode_emits_every_cell (a : Args) (L : Lattice) (out : Output) :
  make_lattice a = Value L ->
  color a = None ->
  min_count a = None \/ min_count a = Some NegInf ->
  _compute_hexbin a = Value out ->
  hexagons_ids out = all_centers L
  /\ Z.of_nat (length (agreggated_value out))
     = (nx1 L * ny1 L + nx2 L * ny2 L)%Z
  /\ Forall (fun v => 0 <= v) (agreggated_value out).
Proof.
  intros HL Hcol Hmc Hout.
  destruct (ShapeFacts.compute_hexbin_stages a out Hout)
    as (L' & accum & w & h & HL' & Hacc & _ & Hids & Hval & _ & _).
  rewrite HL in HL'. injection HL' as <-.
  pose proof (ShapeFacts.accumulate_length a L _ _ Hacc) as Hlen.
  destruct (GeometryFacts.count_accumulate_unfiltered a L _ _ Hcol Hmc Hacc)
    as (Hdims & counts & -> & Hnn).
  rewrite Hids, Hval, HexbinFacts.values_of_all_some.
  rewrite length_map in Hlen.
  split; [| split; [| exact Hnn]].
  - apply ShapeFacts.mask_select_all;
      [| apply GeometryFacts.good_all_some].
    rewrite ShapeFacts.all_centers_length, length_map. auto.
  - rewrite Hlen. apply GeometryFacts.cells_of_nat. exact Hdims.
Qed.

Lemma count_mode_emits_every_cell_witness :
  exists out,
    _compute_hexbin (box30 [0; 30] [0; 30] None (Some NegInf)) = Value out
    /\ hexagons_ids out = all_centers lattice30
    /\ Z.of_nat (length (agreggated_value out))
       = (nx1 lattice30 * ny1 lattice30 + nx2 lattice30 * ny2 lattice30)%Z
    /\ Forall (fun v => 0 <= v) (agreggated_value out).
Proof.
  destruct Box30.compute_hexbin_origin_corner as (out & Hout & _).
  exists out. split; [exact Hout|].
  refine (count_mode_emits_every_cell
            (box30 [0; 30] [0; 30] None (Some NegInf)) lattice30 out
            _ _ _ Hout).
  - apply Box30.make_lattice_box30.
  - reflexivity.
  - right. reflexivity.
Defined.

(** X13. The geometry pass (count mode, no finite threshold, a positive
    horizontal count and step) returns exactly when the lattice has at
    least one base row (ny >= 1); it then draws, around every cell centre,
    the template hexagon scaled by the horizontal step dx on both axes: the
    self-calibrated scale equals the nominal step. *)
Theorem geometry_pass_returns_iff_base_row (a : Args) (L : Lattice) :
  make_lattice a = Value L ->
  (0 < nx a)%Z -> 0 < dx L ->
  color a = None ->
  min_count a = None \/ min_count a = Some NegInf ->
  ((exists out, _compute_hexbin a = Value out) <-> (1 <= ny2 L)%Z)
  /\ (forall out,
         _compute_hexbin a = Value out ->
         hexagons_lons out
         = map (fun c => map unproject_lon
                             (map (fun v => v * dx L + fst c) hx))
               (all_centers L)
         /\ hexagons_lats out
            = map (fun c => map unproject_lat
                                (map (fun v => v * dx L + snd c) hy))
                  (all_centers L)).
Proof.
  intros HL Hnx Hdx Hcol Hmc.
  pose proof (HexbinFacts.make_lattice_dims a L HL Hnx Hdx) as Hdims.
  destruct (HexbinFacts.make_lattice_inv a L HL)
    as (Dy & _ & Hdy & _ & Hny1 & Hnx1 & Hnx2).
  assert (Hfull : (1 <= ny2 L)%Z ->
                  hex_scale (all_centers L) = Value (dx L, dx L)).
  { intros Hny. apply ScaleFacts.hex_scale_full_lattice; try assumption; lia. }
  assert (Hrow : forall out, _compute_hexbin a = Value out ->
                             (1 <= ny2 L)%Z).
  { intros out Hout.
    destruct (Z_lt_le_dec (ny2 L) 1) as [Hlt | Hge]; [| exact Hge].
    exfalso.
    destruct (GeometryFacts.single_row_raises a L HL) as (e & He).
    - destruct Hdims as (_ & _ & _ & H0). lia.
    - rewrite He in Hout. discriminate. }
  split; [split |].
  - intros (out & Hout). exact (Hrow out Hout).
  - intros Hny.
    destruct (HexbinFacts.count_lattices_ok L (normalise L (lat a) (lon a))
                Hdims) as (l1 & l2 & Hc & _ & _).
    assert (Hacc : exists accum,
               accumulate a L (normalise L (lat a) (lon a)) = Value accum).
    { unfold accumulate, accum_count. rewrite Hcol, Hc. cbn [bind]. eauto. }
    destruct Hacc as (accum & Hacc).
    destruct (GeometryFacts.count_accumulate_unfiltered a L _ _ Hcol Hmc Hacc)
      as (_ & counts & Ecounts & _).
    pose proof (ShapeFacts.accumulate_length a L _ _ Hacc) as Hlen.
    unfold _compute_hexbin. rewrite HL. cbn [bind]. rewrite Hacc.
    cbn [bind]. unfold polygons.
    rewrite ShapeFacts.mask_select_all;
      [| rewrite ShapeFacts.all_centers_length; auto
       | subst accum; apply GeometryFacts.good_all_some].
    rewrite (Hfull Hny). cbn [bind]. eauto.
  - intros out Hout.
    pose proof (Hrow out Hout) as Hny.
    destruct (ShapeFacts.compute_hexbin_stages a out Hout)
      as (L' & accum & w & h & HL' & Hacc & Hscale & Hids & _ & Hlats
          & Hlons).
    rewrite HL in HL'. injection HL' as <-.
    destruct (GeometryFacts.count_accumulate_unfiltered a L _ _ Hcol Hmc Hacc)
      as (_ & counts & Ecounts & _).
    pose proof (ShapeFacts.accumulate_length a L _ _ Hacc) as Hlen.
    assert (Hall : mask_select (all_centers L) (map good accum)
                   = all_centers L).
    { apply ShapeFacts.mask_select_all;
        [rewrite ShapeFacts.all_centers_length; auto
        | subst accum; apply GeometryFacts.good_all_some]. }
    rewrite Hall in Hscale, Hids. rewrite (Hfull Hny) in Hscale.
    injection Hscale as <- <-.
    rewrite Hlons, Hlats, Hids. auto.
Qed.

Lemma geometry_pass_returns_iff_base_row_witness :
  let a := box30 [0; 30] [0; 30] None (Some NegInf) in
  ((exists out, _compute_hexbin a = Value out) <-> (1 <= ny2 lattice30)%Z)
  /\ (forall out,
         _compute_hexbin a = Value out ->
         hexagons_lons out
         = map (fun c => map unproject_lon
                             (map (fun v => v * dx lattice30 + fst c) hx))
               (all_centers lattice30)
         /\ hexagons_lats out
            = map (fun c => map unproject_lat
                                (map (fun v => v * dx lattice30 + snd c) hy))
                  (all_centers lattice30)).
Proof.
  refine (geometry_pass_returns_iff_base_row
            (box30 [0; 30] [0; 30] None (Some NegInf)) lattice30 _ _ _ _ _).
  - apply Box30.make_lattice_box30.
  - reflexivity.
  - unfold lattice30. cbn [dx]. pose proof PI_RGT_0. lra.
  - reflexivity.
  - right. reflexivity.
Defined.

(** X14. In either mode, a lattice whose row count ny rounds to zero (a
    bounding box less than half a row high) never produces a result: every
    bin centre then has the same ordinate, the vertical scale cannot be
    inferred, and the call raises. *)
Theorem single_row_lattice_raises (a : Args) (L : Lattice) :
  make_lattice a = Value L -> ny2 L = 0%Z ->
  exists e, _compute_hexbin a = Raise e.
Proof.
  apply GeometryFacts.single_row_raises.
Qed.

Lemma single_row_lattice_raises_witness :
  exists e, _compute_hexbin flat30 = Raise e.
Proof.
  refine (single_row_lattice_raises flat30 flat_lattice _ _).
  - exact Flat30.make_lattice_flat30.
  - reflexivity.
Defined.

(** * GeoJSON packaging *)

Module GeojsonFacts.
Import Geojson.

Lemma ring_of_value (lat lon : list R) (ring : list (R * R)) :
  ring_of lat lon = Value ring ->
  length lon = length lat
  /\ lat <> []
  /\ closed ring
  /\ ring = combine lon lat ++ [hd (0, 0) (combine lon lat)]
  /\ length ring = S (length lat).
Proof.
  unfold ring_of.
  destruct (Nat.eqb (length lon) (length lat)) eqn:Hlen; [|discriminate].
  apply Nat.eqb_eq in Hlen.
  destruct (combine lon lat) as [|p0 rest] eqn:Hc; [discriminate|].
  intros H. injection H as <-.
  assert (Hl : length (p0 :: rest) = length lat).
  { rewrite <- Hc, length_combine. lia. }
  split; [exact Hlen |].
  split; [intros ->; destruct lon; discriminate |].
  split; [exists p0, rest; reflexivity |].
  split; [reflexivity |].
  simpl in Hl |- *. rewrite length_app. simpl. lia.
Qed.

Lemma ring_of_returns (lat lon : list R) :
  length lon = length lat -> lat <> [] ->
  exists ring, ring_of lat lon = Value ring.
Proof.
  intros Hlen Hne. unfold ring_of.
  rewrite (proj2 (Nat.eqb_eq _ _) Hlen).
  destruct lat as [|u lat]; [contradiction|].
  destruct lon as [|v lon]; [discriminate|].
  cbn [combine]. eauto.
Qed.

Lemma features_of_value {A : Type}
  (rows : list (list R * list R * feature_id A)) (fs : list (Feature A)) :
  features_of rows = Value fs ->
  map id fs = map snd rows
  /\ Forall drawable rows
  /\ Forall2 (fun row f =>
                feature_type f = Feature_tag
                /\ geometry_type (geometry f) = Polygon_tag
                /\ exists ring,
                    coordinates (geometry f) = [ring]
                    /\ closed ring
                    /\ ring = combine (snd (fst row)) (fst (fst row))
                              ++ [hd (0, 0) (combine (snd (fst row))
                                                     (fst (fst row)))]
                    /\ length ring = S (length (fst (fst row))))
             rows fs.
Proof.
  revert fs. induction rows as [|[[lat lon] idx] rows IH]; intros fs.
  - simpl. intros H. injection H as <-.
    split; [reflexivity | split; constructor].
  - cbn [features_of].
    destruct (ring_of lat lon) as [ring|] eqn:Hr; [|discriminate].
    cbn [bind].
    destruct (features_of rows) as [rest|]; [|discriminate].
    cbn [bind]. intros H. injection H as <-.
    destruct (IH rest eq_refl) as (Hids & Hdraw & Hall).
    destruct (ring_of_value _ _ _ Hr) as (Hlen & Hne & Hcl & Hring & Hl).
    split; [cbn [map id snd]; f_equal; exact Hids |].
    split; [constructor; [split; assumption | exact Hdraw] |].
    constructor; [| exact Hall].
    cbn [feature_type geometry geometry_type coordinates fst snd].
    split; [reflexivity | split; [reflexivity |]].
    exists ring. auto.
Qed.

Lemma features_of_returns {A : Type}
  (rows : list (list R * list R * feature_id A)) :
  Forall drawable rows -> exists fs, features_of rows = Value fs.
Proof.
  induction 1 as [|[[lat lon] idx] rows [Hlen Hne] Hrows IH].
  - simpl. eauto.
  - cbn [fst snd] in Hlen, Hne. cbn [features_of].
    destruct (ring_of_returns lat lon Hlen Hne) as (ring & ->).
    destruct IH as (rest & ->). cbn [bind]. eauto.
Qed.

Lemma zip3_aligned {A B C : Type} (u : list A) (v : list B) (w : list C) :
  length u = length w -> length v = length w ->
  map snd (zip3 u v w) = w
  /\ map (fun r => fst (fst r)) (zip3 u v w) = u
  /\ map (fun r => snd (fst r)) (zip3 u v w) = v.
Proof.
  revert v w. induction u as [|a u IH]; intros [|b v] [|c w] Hu Hv;
    simpl in *; try discriminate; auto.
  destruct (IH v w) as (H1 & H2 & H3); try lia.
  rewrite H1, H2, H3. auto.
Qed.

Lemma zip3_rows {A B C : Type} (u : list A) (v : list B) (w : list C) :
  length v = length u -> length w = length u ->
  map fst (zip3 u v w) = combine u v.
Proof.
  revert v w. induction u as [|a u IH]; intros [|b v] [|c w] H1 H2;
    simpl in *; try discriminate; try reflexivity.
  f_equal. apply IH; lia.
Qed.

End GeojsonFacts.

Module GeojsonMore.
Import Geojson.

Lemma Forall2_right {A B : Type} (P : A -> B -> Prop) (Q : B -> Prop)
  (u : list A) (v : list B) :
  (forall a b, P a b -> Q b) -> Forall2 P u v -> Forall Q v.
Proof.
  intros HPQ. induction 1; constructor; eauto.
Qed.

Lemma Forall2_map_left {A B C : Type} (g : A -> C) (P : C -> B -> Prop)
  (u : list A) (v : list B) :
  Forall2 (fun a b => P (g a) b) u v -> Forall2 P (map g u) v.
Proof.
  induction 1; simpl; constructor; auto.
Qed.

Lemma geojson_value {A : Type} (lats lons : list (list R))
  (ids : option (list A)) (fc : FeatureCollection A) :
  _hexagons_to_geojson lats lons ids = Value fc ->
  collection_type fc = FeatureCollection_tag
  /\ features_of
       (zip3 lats lons
             match ids with
             | None => default_ids (length lats)
             | Some l => map Given l
             end)
     = Value (features fc).
Proof.
  unfold _hexagons_to_geojson.
  destruct (features_of _) as [fs|]; [|discriminate].
  cbn [bind]. intros H. injection H as <-. auto.
Qed.

Lemma features_of_raises {A : Type}
  (rows : list (list R * list R * feature_id A)) :
  Forall (fun row => length (snd (fst row)) = length (fst (fst row))) rows ->
  Exists (fun row => fst (fst row) = []) rows ->
  features_of rows = Raise IndexError.
Proof.
  induction 1 as [|[[lat lon] idx] rows Hlen Hrect IH]; intros Hex.
  - inversion Hex.
  - cbn [fst snd] in Hlen. cbn [features_of]. unfold ring_of at 1.
    rewrite (proj2 (Nat.eqb_eq _ _) Hlen).
    destruct lat as [|u lat].
    + destruct lon; [reflexivity | discriminate].
    + destruct lon as [|v lon]; [discriminate|].
      cbn [combine bind].
      inversion Hex as [? ? Hhead | ? ? Htail]; subst.
      * discriminate.
      * rewrite (IH Htail). reflexivity.
Qed.

End GeojsonMore.

(** X15. Polygon closure: whenever [_hexagons_to_geojson] returns (on rows
    with as many longitudes as latitudes), the collection is tagged 'FeatureCollection' and every feature is a
    'Feature' whose geometry is a 'Polygon' with exactly one ring, the last
    vertex of which repeats the first. *)
Theorem geojson_rings_are_closed {A : Type} (lats lons : list (list R))
  (ids : option (list A)) (fc : Geojson.FeatureCollection A) :
  Forall2 (fun lat lon => length lon = length lat) lats lons ->
  Geojson._hexagons_to_geojson lats lons ids = Value fc ->
  Geojson.collection_type fc = Geojson.FeatureCollection_tag
  /\ Forall (fun f =>
               Geojson.feature_type f = Geojson.Feature_tag
               /\ Geojson.geometry_type (Geojson.geometry f)
                  = Geojson.Polygon_tag
               /\ exists ring,
                   Geojson.coordinates (Geojson.geometry f) = [ring]
                   /\ Geojson.closed ring)
            (Geojson.features fc).
Proof.
  intros _ Hfc.
  destruct (GeojsonMore.geojson_value lats lons ids fc Hfc) as [Htag Hfs].
  split; [exact Htag|].
  destruct (GeojsonFacts.features_of_value _ _ Hfs) as (_ & _ & Hall).
  apply (GeojsonMore.Forall2_right _ _ _ _) with (2 := Hall).
  intros row f (H1 & H2 & ring & Hc & Hcl & _).
  split; [exact H1 | split; [exact H2 |]]. exists ring. auto.
Qed.

Lemma geojson_rings_are_closed_witness :
  let fc :=
    {| Geojson.collection_type := Geojson.FeatureCollection_tag;
       Geojson.features :=
         [ {| Geojson.feature_type := Geojson.Feature_tag;
              Geojson.id := @Geojson.Index unit 0;
              Geojson.geometry :=
                {| Geojson.geometry_type := Geojson.Polygon_tag;
                   Geojson.coordinates := [[(3, 1); (4, 2); (3, 1)]] |} |} ]
    |} in
  Geojson.collection_type fc = Geojson.FeatureCollection_tag
  /\ Forall (fun f =>
               Geojson.feature_type f = Geojson.Feature_tag
               /\ Geojson.geometry_type (Geojson.geometry f)
                  = Geojson.Polygon_tag
               /\ exists ring,
                   Geojson.coordinates (Geojson.geometry f) = [ring]
                   /\ Geojson.closed ring)
            (Geojson.features fc).
Proof.
  refine (geojson_rings_are_closed [[1; 2]] [[3; 4]] None _ _ _);
    [repeat constructor | reflexivity].
Defined.

(** X16. Order and content of the features: with as many latitude rows,
    longitude rows and identifiers (and as many longitudes as latitudes in
    each row), a returned collection has one feature
    per row, in order, carrying the identifier supplied, and its ring lists
    the vertices as (lon, lat) pairs followed by the first pair again; when
    [ids] is omitted the features are numbered 0, 1, 2, ... *)
Theorem geojson_features_follow_rows {A : Type} (lats lons : list (list R))
  (ids : option (list A)) (fc : Geojson.FeatureCollection A) :
  Forall2 (fun lat lon => length lon = length lat) lats lons ->
  (forall l, ids = Some l -> length l = length lats) ->
  Geojson._hexagons_to_geojson lats lons ids = Value fc ->
  length (Geojson.features fc) = length lats
  /\ map Geojson.id (Geojson.features fc)
     = match ids with
       | None => map (fun k => Geojson.Index (Z.of_nat k))
                     (seq 0 (length lats))
       | Some l => map Geojson.Given l
       end
  /\ Forall2 (fun row f =>
                Geojson.coordinates (Geojson.geometry f)
                = [combine (snd row) (fst row)
                   ++ [hd (0, 0) (combine (snd row) (fst row))]])
             (combine lats lons) (Geojson.features fc).
Proof.
  intros Hrect Hids Hfc.
  assert (Hlons : length lons = length lats)
    by (symmetry; apply (Forall2_length Hrect)).
  destruct (GeojsonMore.geojson_value lats lons ids fc Hfc) as [_ Hfs].
  set (ids' := match ids with
               | None => Geojson.default_ids (length lats)
               | Some l => map Geojson.Given l
               end) in *.
  assert (Hlen : length ids' = length lats).
  { unfold ids'. destruct ids as [l|].
    - rewrite length_map. apply Hids. reflexivity.
    - unfold Geojson.default_ids. rewrite length_map, length_seq.
      reflexivity. }
  destruct (GeojsonFacts.zip3_aligned lats lons ids') as (Hz1 & Hz2 & Hz3);
    [lia | lia |].
  destruct (GeojsonFacts.features_of_value _ _ Hfs) as (Hid & _ & Hall).
  rewrite Hz1 in Hid.
  split; [| split].
  - rewrite <- (length_map Geojson.id), Hid. exact Hlen.
  - rewrite Hid. unfold ids'. destruct ids; reflexivity.
  - rewrite <- (GeojsonFacts.zip3_rows lats lons ids' Hlons Hlen). apply GeojsonMore.Forall2_map_left.
    revert Hall. apply Forall2_impl.
    intros row f (_ & _ & ring & Hc & _ & Hring & _).
    rewrite Hc, Hring. reflexivity.
Qed.

Lemma geojson_features_follow_rows_witness :
  exists fc : Geojson.FeatureCollection nat,
    Geojson._hexagons_to_geojson [[1; 2]] [[3; 4]] (Some [7%nat]) = Value fc
    /\ length (Geojson.features fc) = 1%nat
    /\ map Geojson.id (Geojson.features fc) = [Geojson.Given 7%nat]
    /\ Forall2 (fun row f =>
                  Geojson.coordinates (Geojson.geometry f)
                  = [combine (snd row) (fst row)
                     ++ [hd (0, 0) (combine (snd row) (fst row))]])
               (combine [[1; 2]] [[3; 4]]) (Geojson.features fc).
Proof.
  eexists. split; [reflexivity|].
  refine (geojson_features_follow_rows [[1; 2]] [[3; 4]] (Some [7%nat]) _
            _ _ _).
  - repeat constructor.
  - intros l H. injection H as <-. reflexivity.
  - reflexivity.
Defined.

(** X17. On rows with as many longitudes as latitudes,
    [_hexagons_to_geojson] returns whenever every zipped row has at least
    one vertex, and raises [IndexError] as soon as one zipped row has none;
    input without rows gives the empty collection. *)
Theorem geojson_fails_on_empty_ring {A : Type}
  (lats lons : list (list R)) (ids : option (list A)) :
  let rows :=
    Geojson.zip3 lats lons
      match ids with
      | None => Geojson.default_ids (length lats)
      | Some l => map Geojson.Given l
      end in
  Forall (fun row => length (snd (fst row)) = length (fst (fst row))) rows ->
  (Forall (fun row => fst (fst row) <> []) rows ->
   exists fc, Geojson._hexagons_to_geojson lats lons ids = Value fc)
  /\ (Exists (fun row => fst (fst row) = []) rows ->
      Geojson._hexagons_to_geojson lats lons ids = Raise IndexError)
  /\ Geojson._hexagons_to_geojson [] lons ids
     = Value {| Geojson.collection_type := Geojson.FeatureCollection_tag;
                Geojson.features := [] |}.
Proof.
  intros rows Hrect. split; [| split].
  - intros Hne. unfold Geojson._hexagons_to_geojson. fold rows.
    destruct (GeojsonFacts.features_of_returns rows) as (fs & ->).
    + apply Forall_forall. intros row Hrow.
      rewrite Forall_forall in Hrect, Hne.
      split; [apply Hrect | apply Hne]; exact Hrow.
    + cbn [bind]. eauto.
  - intros Hex. unfold Geojson._hexagons_to_geojson. fold rows.
    rewrite (GeojsonMore.features_of_raises rows Hrect Hex). reflexivity.
  - reflexivity.
Qed.

Lemma geojson_fails_on_empty_ring_witness :
  (Forall (fun row => fst (fst row) <> [])
          (Geojson.zip3 [[1; 2]; []] [[3; 4]; []]
                        (@Geojson.default_ids unit 2)) ->
   exists fc : Geojson.FeatureCollection unit,
     Geojson._hexagons_to_geojson [[1; 2]; []] [[3; 4]; []] None = Value fc)
  /\ (Exists (fun row => fst (fst row) = [])
             (Geojson.zip3 [[1; 2]; []] [[3; 4]; []]
                           (@Geojson.default_ids unit 2)) ->
      @Geojson._hexagons_to_geojson unit [[1; 2]; []] [[3; 4]; []] None
      = Raise IndexError)
  /\ @Geojson._hexagons_to_geojson unit [] [[3; 4]; []] None
     = Value {| Geojson.collection_type := Geojson.FeatureCollection_tag;
                Geojson.features := [] |}.
Proof.
  refine (geojson_fails_on_empty_ring [[1; 2]; []] [[3; 4]; []] None _).
  repeat constructor.
Defined.

(** X18. The two stages compose: the arrays returned by [_compute_hexbin],
    with its identifiers, are always accepted by [_hexagons_to_geojson],
    which yields one feature per aggregated value, in order, identified by
    the bin identifiers, each with one closed ring of seven vertices. *)
Theorem hexbin_output_packs_into_geojson (a : Args) (out : Output) :
  _compute_hexbin a = Value out ->
  exists fc,
    Geojson._hexagons_to_geojson (hexagons_lats out) (hexagons_lons out)
                                 (Some (hexagons_ids out)) = Value fc
    /\ length (Geojson.features fc) = length (agreggated_value out)
    /\ map Geojson.id (Geojson.features fc)
       = map Geojson.Given (hexagons_ids out)
    /\ Forall (fun f =>
                 exists ring,
                   Geojson.coordinates (Geojson.geometry f) = [ring]
                   /\ Geojson.closed ring
                   /\ length ring = 7%nat)
              (Geojson.features fc).
Proof.
  intros Hout.
  destruct (ShapeFacts.compute_hexbin_aligned a out Hout)
    as (Hids & Hlats & Hlons & Hr1 & Hr2).
  set (ids' := map (@Geojson.Given (R * R)) (hexagons_ids out)).
  assert (Hlen : length ids' = length (agreggated_value out)).
  { unfold ids'. rewrite length_map. exact Hids. }
  destruct (GeojsonFacts.zip3_aligned (hexagons_lats out) (hexagons_lons out)
              ids') as (Hz1 & Hz2 & Hz3); [lia | lia |].
  assert (Hd : Forall Geojson.drawable
                      (Geojson.zip3 (hexagons_lats out) (hexagons_lons out)
                                    ids')).
  { apply Forall_forall. intros row Hrow.
    assert (H1 : In (fst (fst row)) (hexagons_lats out)).
    { rewrite <- Hz2. apply in_map with (f := fun r => fst (fst r)).
      exact Hrow. }
    assert (H2 : In (snd (fst row)) (hexagons_lons out)).
    { rewrite <- Hz3. apply in_map with (f := fun r => snd (fst r)).
      exact Hrow. }
    rewrite Forall_forall in Hr1, Hr2.
    specialize (Hr1 _ H1). specialize (Hr2 _ H2).
    split; [lia|]. intros E. rewrite E in Hr1. discriminate. }
  destruct (GeojsonFacts.features_of_returns _ Hd) as (fs & Hfs).
  exists {| Geojson.collection_type := Geojson.FeatureCollection_tag;
            Geojson.features := fs |}.
  destruct (GeojsonFacts.features_of_value _ _ Hfs) as (Hid & _ & Hall).
  rewrite Hz1 in Hid.
  cbn [Geojson.features].
  split; [| split; [| split]].
  - unfold Geojson._hexagons_to_geojson. fold ids'. rewrite Hfs.
    reflexivity.
  - rewrite <- (length_map Geojson.id), Hid. exact Hlen.
  - exact Hid.
  - assert (Hall' : Forall2
                      (fun lat f =>
                         exists ring,
                           Geojson.coordinates (Geojson.geometry f) = [ring]
                           /\ Geojson.closed ring
                           /\ length ring = S (length lat))
                      (hexagons_lats out) fs).
    { rewrite <- Hz2. apply GeojsonMore.Forall2_map_left.
      revert Hall. apply Forall2_impl.
      intros row f (_ & _ & ring & Hc & Hcl & _ & Hl).
      exists ring. auto. }
    clear - Hall' Hr1.
    induction Hall' as [|lat f lats fs (ring & Hc & Hcl & Hl) _ IH];
      [constructor|].
    inversion Hr1 as [|? ? H6 Hr1']; subst.
    constructor; [| apply IH; exact Hr1'].
    exists ring. rewrite Hl, H6. auto.
Qed.

Lemma hexbin_output_packs_into_geojson_witness :
  exists out fc,
    _compute_hexbin (box30 [0; 30] [0; 30] None (Some NegInf)) = Value out
    /\ Geojson._hexagons_to_geojson (hexagons_lats out) (hexagons_lons out)
                                    (Some (hexagons_ids out)) = Value fc
    /\ length (Geojson.features fc) = length (agreggated_value out)
    /\ map Geojson.id (Geojson.features fc)
       = map Geojson.Given (hexagons_ids out)
    /\ Forall (fun f =>
                 exists ring,
                   Geojson.coordinates (Geojson.geometry f) = [ring]
                   /\ Geojson.closed ring
                   /\ length ring = 7%nat)
              (Geojson.features fc).
Proof.
  destruct Box30.compute_hexbin_origin_corner as (out & Hout & _).
  destruct (hexbin_output_packs_into_geojson
              (box30 [0; 30] [0; 30] None (Some NegInf)) out Hout)
    as (fc & H).
  exists out, fc. split; [exact Hout | exact H].
Defined.

(** * Default ranges and empty input *)

Module DefaultFacts.

Lemma fold_Rmin_spec (t : list R) (u : R) :
  In (fold_left Rmin t u) (u :: t)
  /\ forall v, In v (u :: t) -> fold_left Rmin t u <= v.
Proof.
  revert u. induction t as [|w t IH]; intros u.
  - simpl. split; [auto | intros v [<- | []]; lra].
  - cbn [fold_left]. destruct (IH (Rmin u w)) as [Hin Hle]. split.
    + destruct Hin as [E | Hin]; [| right; right; exact Hin].
      rewrite <- E. unfold Rmin.
      destruct (Rle_dec u w); [left | right; left]; reflexivity.
    + intros v Hv.
      assert (Hm : fold_left Rmin t (Rmin u w) <= Rmin u w)
        by (apply Hle; left; reflexivity).
      destruct Hv as [<- | [<- | Hv]].
      * pose proof (Rmin_l u w). lra.
      * pose proof (Rmin_r u w). lra.
      * apply Hle. right. exact Hv.
Qed.

Lemma fold_Rmax_spec (t : list R) (u : R) :
  In (fold_left Rmax t u) (u :: t)
  /\ forall v, In v (u :: t) -> v <= fold_left Rmax t u.
Proof.
  revert u. induction t as [|w t IH]; intros u.
  - simpl. split; [auto | intros v [<- | []]; lra].
  - cbn [fold_left]. destruct (IH (Rmax u w)) as [Hin Hle]. split.
    + destruct Hin as [E | Hin]; [| right; right; exact Hin].
      rewrite <- E. unfold Rmax.
      destruct (Rle_dec u w); [right; left | left]; reflexivity.
    + intros v Hv.
      assert (Hm : Rmax u w <= fold_left Rmax t (Rmax u w))
        by (apply Hle; left; reflexivity).
      destruct Hv as [<- | [<- | Hv]].
      * pose proof (Rmax_l u w). lra.
      * pose proof (Rmax_r u w). lra.
      * apply Hle. right. exact Hv.
Qed.

Lemma default_range_spec (arr : list R) :
  arr <> [] ->
  exists lo hi,
    range_or_default None arr = Value (lo, hi)
    /\ In lo arr /\ In hi arr
    /\ forall v, In v arr -> lo <= v <= hi.
Proof.
  destruct arr as [|u t]; [contradiction|]. intros _.
  destruct (fold_Rmin_spec t u) as [Hmin1 Hmin2].
  destruct (fold_Rmax_spec t u) as [Hmax1 Hmax2].
  exists (fold_left Rmin t u), (fold_left Rmax t u).
  split; [reflexivity|]. repeat split; auto.
Qed.

Lemma in_range_intro (lo hi v : R) :
  lo <= v <= hi -> in_range lo hi v = true.
Proof.
  intros [H1 H2]. unfold in_range.
  destruct (Rle_dec lo v); [| contradiction].
  destruct (Rle_dec v hi); [reflexivity | contradiction].
Qed.

End DefaultFacts.

(** X19. Empty input with an omitted range: when [lat_range] (or
    [lon_range]) is omitted and the latitude (or longitude) array is empty,
    the minimum of an empty array is requested and the call raises
    [ValueError], in either mode. *)
Theorem empty_array_without_range_raises (a : Args) :
  (lat_range a = None /\ lat a = [])
  \/ (lon_range a = None /\ lon a = []) ->
  _compute_hexbin a = Raise ValueError.
Proof.
  intros H. unfold _compute_hexbin, make_lattice.
  destruct H as [[Hr Ha] | [Hr Ha]].
  - rewrite Hr, Ha. reflexivity.
  - rewrite Hr, Ha.
    destruct (range_or_default (lat_range a) (lat a)) as [r|e] eqn:E;
      [reflexivity|].
    cbn [bind]. f_equal.
    unfold range_or_default in E.
    destruct (lat_range a); [discriminate|].
    destruct (lat a) as [|u t]; [|discriminate].
    simpl in E. injection E as <-. reflexivity.
Qed.

Lemma empty_array_without_range_raises_witness :
  _compute_hexbin
    {| lat := []; lon := []; lat_range := None; lon_range := None;
       color := None; nx := 5; agg_func := mean; min_count := None |}
  = Raise ValueError.
Proof.
  refine (empty_array_without_range_raises _ _).
  left. split; reflexivity.
Defined.

(** X20. Omitted ranges default to the tightest box around the data: for
    non-empty arrays of equal length the default latitude and longitude
    ranges are attained by input values and every input point lies within
    them. *)
Theorem default_range_is_tight (a : Args) :
  lat_range a = None -> lon_range a = None ->
  lat a <> [] -> lon a <> [] ->
  exists la0 la1 lo0 lo1,
    range_or_default (lat_range a) (lat a) = Value (la0, la1)
    /\ range_or_default (lon_range a) (lon a) = Value (lo0, lo1)
    /\ In la0 (lat a) /\ In la1 (lat a)
    /\ In lo0 (lon a) /\ In lo1 (lon a)
    /\ Forall (fun q => within (la0, la1) (lo0, lo1) q = true)
              (combine (lat a) (lon a)).
Proof.
  intros Hlat Hlon Hne1 Hne2. rewrite Hlat, Hlon.
  destruct (DefaultFacts.default_range_spec (lat a) Hne1)
    as (la0 & la1 & E1 & Hi0 & Hi1 & Hb1).
  destruct (DefaultFacts.default_range_spec (lon a) Hne2)
    as (lo0 & lo1 & E2 & Hj0 & Hj1 & Hb2).
  exists la0, la1, lo0, lo1.
  repeat (split; [assumption|]).
  apply Forall_forall. intros [u v] Hq.
  unfold within. cbn [fst snd].
  apply andb_true_intro. split; apply DefaultFacts.in_range_intro.
  - apply Hb1. apply (in_combine_l _ _ _ _ Hq).
  - apply Hb2. apply (in_combine_r _ _ _ _ Hq).
Qed.

Lemma default_range_is_tight_witness :
  let a := {| lat := [10; 40; 20]; lon := [5; 0; 30];
              lat_range := None; lon_range := None;
              color := None; nx := 5; agg_func := mean;
              min_count := None |} in
  exists la0 la1 lo0 lo1,
    range_or_default (lat_range a) (lat a) = Value (la0, la1)
    /\ range_or_default (lon_range a) (lon a) = Value (lo0, lo1)
    /\ In la0 (lat a) /\ In la1 (lat a)
    /\ In lo0 (lon a) /\ In lo1 (lon a)
    /\ Forall (fun q => within (la0, la1) (lo0, lo1) q = true)
              (combine (lat a) (lon a)).
Proof.
  refine (default_range_is_tight
            {| lat := [10; 40; 20]; lon := [5; 0; 30];
               lat_range := None; lon_range := None;
               color := None; nx := 5; agg_func := mean;
               min_count := None |} _ _ _ _);
    try reflexivity; discriminate.
Defined.

(** * Value mode with a sum, and order of the points *)

Module ValueFacts.

Lemma nth_error_skipn_hd {A : Type} (l : list A) (i : nat) :
  nth_error l i = hd_error (skipn i l).
Proof.
  revert l. induction i as [|i IH]; intros [|u l]; simpl; auto.
Qed.

Lemma skipn_S_tl {A : Type} (l : list A) (i : nat) :
  skipn (S i) l = tl (skipn i l).
Proof.
  revert l. induction i as [|i IH]; intros [|u l]; try reflexivity.
  change (skipn (S (S i)) (u :: l)) with (skipn (S i) l).
  change (skipn (S i) (u :: l)) with (skipn i l). apply IH.
Qed.

Lemma sumR_snoc (vals : list R) (v : R) : sumR (vals ++ [v]) = sumR vals + v.
Proof. rewrite sumR_app. simpl. ring. Qed.

Lemma selected_colors_cons (L : Lattice) (p : point) (pts : list point)
  (v : R) (color : list R) :
  selected_colors L (p :: pts) (v :: color)
  = if selected L p then v :: selected_colors L pts color
    else selected_colors L pts color.
Proof.
  unfold selected_colors. cbn [combine filter fst].
  destruct (selected L p); reflexivity.
Qed.

(** The loop of lines 166-172 adds to the two lattices exactly the colours
    of the selected points. *)
Lemma fill_sum (L : Lattice) (color : list R) (pts : list point) :
  forall (i : nat) (l1 l2 l1' l2' : list (list (list R))),
    shaped (Z.to_nat (nx1 L)) (Z.to_nat (ny1 L)) l1 ->
    shaped (Z.to_nat (nx2 L)) (Z.to_nat (ny2 L)) l2 ->
    fill L pts i color l1 l2 = Value (l1', l2') ->
    total sumR l1' + total sumR l2'
    = total sumR l1 + total sumR l2
      + sumR (selected_colors L pts (skipn i color)).
Proof.
  induction pts as [|p t IH]; intros i l1 l2 l1' l2' Hs1 Hs2 Hfill.
  - simpl in Hfill. injection Hfill as <- <-.
    unfold selected_colors. simpl. ring.
  - cbn [fill] in Hfill.
    pose proof (HexbinFacts.c1_c2_exclusive L p) as Hex.
    rewrite nth_error_skipn_hd in Hfill.
    assert (Hunsel : selected L p = false ->
                     selected_colors L (p :: t) (skipn i color)
                     = selected_colors L t (skipn (S i) color)).
    { intros Hsel. rewrite skipn_S_tl.
      destruct (skipn i color) as [|v rest].
      - unfold selected_colors. destruct t; reflexivity.
      - rewrite selected_colors_cons, Hsel. reflexivity. }
    assert (Hsel : forall v, selected L p = true ->
                     hd_error (skipn i color) = Some v ->
                     sumR (selected_colors L (p :: t) (skipn i color))
                     = v + sumR (selected_colors L t (skipn (S i) color))).
    { intros v Hs Hv. rewrite skipn_S_tl.
      destruct (skipn i color) as [|v' rest]; [discriminate|].
      injection Hv as ->.
      rewrite selected_colors_cons, Hs. reflexivity. }
    unfold selected, c1, c2 in Hunsel, Hsel, Hex.
    destruct (bdist p); cbn [negb] in *;
      rewrite ?andb_true_r, ?andb_false_r, ?orb_false_r in *.
    + destruct (in_bounds (nx1 L) (ny1 L) (ix1 p) (iy1 p)) eqn:Hb.
      * destruct (hd_error (skipn i color)) as [v|] eqn:Hv; [|discriminate].
        apply IH in Hfill; [| apply upd2_shaped; exact Hs1 | exact Hs2].
        rewrite (total_upd2 sumR _ v (fun vals => sumR_snoc vals v)
                   _ _ _ _ _ Hs1 Hb) in Hfill.
        rewrite (Hsel v eq_refl eq_refl). lra.
      * apply IH in Hfill; [| exact Hs1 | exact Hs2].
        rewrite (Hunsel eq_refl). exact Hfill.
    + cbn [orb] in *.
      destruct (in_bounds (nx2 L) (ny2 L) (ix2 p) (iy2 p)) eqn:Hb.
      * destruct (hd_error (skipn i color)) as [v|] eqn:Hv; [|discriminate].
        apply IH in Hfill; [| exact Hs1 | apply upd2_shaped; exact Hs2].
        rewrite (total_upd2 sumR _ v (fun vals => sumR_snoc vals v)
                   _ _ _ _ _ Hs2 Hb) in Hfill.
        rewrite (Hsel v eq_refl eq_refl). lra.
      * apply IH in Hfill; [| exact Hs1 | exact Hs2].
        rewrite (Hunsel eq_refl). exact Hfill.
Qed.

(** Summing the kept cells: an empty cell contributes nothing. *)
Lemma values_of_sum_cells (cells : list (list R)) :
  sumR (values_of (map (value_cell np_sum (Finite 0)) cells))
  = sumR (map sumR cells).
Proof.
  induction cells as [|vals t IH]; [reflexivity|].
  cbn [map]. unfold value_cell at 1. cbn [gt_ext].
  destruct (Rlt_dec 0 (INR (length vals))) as [Hpos | Hzero].
  - cbn [values_of sumR fold_right]. unfold sumR in IH. rewrite IH.
    reflexivity.
  - cbn [values_of]. rewrite IH.
    destruct vals as [|v vals]; [simpl; ring|].
    exfalso. apply Hzero. apply lt_0_INR. simpl. lia.
Qed.

End ValueFacts.

(** X21. Value mode with [np.sum] and no [min_count]: on a lattice with a
    positive horizontal count and step and with a colour for every point,
    the call accumulates without error and the aggregated values add up to
    the total colour of the points accumulated into the lattices; nothing
    is counted twice and nothing else is added. *)
Theorem sum_aggregation_conserves_colour
  (a : Args) (L : Lattice) (col : list R) :
  make_lattice a = Value L ->
  (0 < nx a)%Z -> 0 < dx L ->
  color a = Some col ->
  (forall vals, agg_func a vals = np_sum vals) ->
  min_count a = None ->
  (length (normalise L (lat a) (lon a)) <= length col)%nat ->
  exists accum,
    accumulate a L (normalise L (lat a) (lon a)) = Value accum
    /\ sumR (values_of accum)
       = sumR (selected_colors L (normalise L (lat a) (lon a)) col).
Proof.
  intros HL Hnx Hdx Hcol Hagg Hmc Hlen.
  pose proof (HexbinFacts.make_lattice_dims a L HL Hnx Hdx)
    as (Hx1 & Hy1 & Hx2 & Hy2).
  set (pts := normalise L (lat a) (lon a)) in *.
  destruct (np_empty_lists_ok _ _ Hx1 Hy1) as (e1 & He1 & Hs1 & _).
  destruct (np_empty_lists_ok _ _ Hx2 Hy2) as (e2 & He2 & Hs2 & _).
  destruct (HexbinFacts.fill_returns L col pts 0%nat e1 e2)
    as (l1 & l2 & Hfill); [simpl; exact Hlen|].
  pose proof (ValueFacts.fill_sum L col pts 0%nat e1 e2 l1 l2 Hs1 Hs2 Hfill)
    as Hsum.
  assert (Hz1 : total sumR e1 = 0).
  { unfold np_empty_lists in He1.
    destruct ((nx1 L <? 0) || (ny1 L <? 0))%Z; [discriminate|].
    injection He1 as <-. apply total_repeat. reflexivity. }
  assert (Hz2 : total sumR e2 = 0).
  { unfold np_empty_lists in He2.
    destruct ((nx2 L <? 0) || (ny2 L <? 0))%Z; [discriminate|].
    injection He2 as <-. apply total_repeat. reflexivity. }
  cbn [skipn] in Hsum. rewrite Hz1, Hz2 in Hsum.
  eexists. split.
  - unfold accumulate, accum_values, value_lattices.
    rewrite Hcol, He1, He2. cbn [bind]. rewrite Hfill. cbn [bind].
    reflexivity.
  - rewrite Hmc. cbn [default_min_count].
    rewrite !HexbinFacts.ravel_map, <- map_app.
    rewrite (map_ext _ (value_cell np_sum (Finite 0)))
      by (intros vals; unfold value_cell; rewrite Hagg; reflexivity).
    rewrite ValueFacts.values_of_sum_cells, map_app, sumR_app.
    unfold total in Hsum. lra.
Qed.

Lemma sum_aggregation_conserves_colour_witness :
  let a := {| lat := [0; 30]; lon := [0; 30];
              lat_range := Some (0, 30); lon_range := Some (0, 30);
              color := Some [7; 9]; nx := 1; agg_func := np_sum;
              min_count := None |} in
  exists accum,
    accumulate a lattice30 (normalise lattice30 (lat a) (lon a))
    = Value accum
    /\ sumR (values_of accum)
       = sumR (selected_colors lattice30
                               (normalise lattice30 (lat a) (lon a)) [7; 9]).
Proof.
  refine (sum_aggregation_conserves_colour
            {| lat := [0; 30]; lon := [0; 30];
               lat_range := Some (0, 30); lon_range := Some (0, 30);
               color := Some [7; 9]; nx := 1; agg_func := np_sum;
               min_count := None |} lattice30 [7; 9] _ _ _ _ _ _ _).
  - exact (Box30.make_lattice_box30 [0; 30] [0; 30] (Some [7; 9]) None).
  - reflexivity.
  - unfold lattice30. cbn [dx]. pose proof PI_RGT_0. lra.
  - reflexivity.
  - reflexivity.
  - reflexivity.
  - cbn [lat lon]. rewrite Box30.normalise_origin_corner. simpl. lia.
Defined.

(** * Order of the input points *)

Module OrderFacts.

Lemma upd_comm {A : Type} (f g : A -> A) (n m : nat) (l : list A) :
  (forall a, f (g a) = g (f a)) ->
  upd f n (upd g m l) = upd g m (upd f n l).
Proof.
  intros Hfg. revert n m.
  induction l as [|a t IH]; intros [|n] [|m]; simpl; try reflexivity.
  - rewrite Hfg. reflexivity.
  - f_equal. apply IH.
Qed.

Lemma upd2_comm (i j i' j' : Z) (l : list (list R)) :
  upd2 (fun c => c + 1) i j (upd2 (fun c => c + 1) i' j' l)
  = upd2 (fun c => c + 1) i' j' (upd2 (fun c => c + 1) i j l).
Proof.
  unfold upd2. apply upd_comm. intros row. apply upd_comm.
  intros c. ring.
Qed.

Lemma np_add_at_perm (idx idx' : list (Z * Z)) :
  Permutation idx idx' ->
  forall l, np_add_at l idx = np_add_at l idx'.
Proof.
  unfold np_add_at.
  induction 1 as [| x t t' _ IH | x y t | t1 t2 t3 _ IH1 _ IH2]; intros l.
  - reflexivity.
  - cbn [fold_left]. apply IH.
  - cbn [fold_left]. rewrite upd2_comm. reflexivity.
  - rewrite IH1. apply IH2.
Qed.

Lemma filter_perm {A : Type} (f : A -> bool) (l l' : list A) :
  Permutation l l' -> Permutation (filter f l) (filter f l').
Proof.
  induction 1 as [| x t t' _ IH | x y t | t1 t2 t3 _ IH1 _ IH2].
  - constructor.
  - simpl. destruct (f x); [constructor|]; exact IH.
  - simpl. destruct (f x), (f y); try reflexivity. apply perm_swap.
  - exact (Permutation_trans IH1 IH2).
Qed.

Lemma count_lattices_perm (L : Lattice) (pts pts' : list point) :
  Permutation pts pts' -> count_lattices L pts = count_lattices L pts'.
Proof.
  intros Hp. unfold count_lattices.
  destruct (np_zeros (nx1 L) (ny1 L)) as [z1|]; [|reflexivity].
  destruct (np_zeros (nx2 L) (ny2 L)) as [z2|]; [|reflexivity].
  cbn [bind]. f_equal. f_equal; apply np_add_at_perm, Permutation_map,
    filter_perm; exact Hp.
Qed.

End OrderFacts.

(** X22. Count mode does not depend on the order of the input points:
    presenting the same (lat, lon) points in another order gives the same
    array of cell counts, cell by cell, for every [min_count]. *)
Theorem count_mode_ignores_point_order
  (L : Lattice) (lat lon lat' lon' : list R) (min_count : option ExtR) :
  Permutation (combine lat lon) (combine lat' lon') ->
  accum_count L (normalise L lat lon) min_count
  = accum_count L (normalise L lat' lon') min_count.
Proof.
  intros Hp. unfold accum_count.
  rewrite !RangeFacts.normalise_map.
  rewrite (OrderFacts.count_lattices_perm L _ _ (Permutation_map _ Hp)).
  reflexivity.
Qed.

Lemma count_mode_ignores_point_order_witness :
  accum_count lattice30 (normalise lattice30 [0; 30] [0; 30]) (Some NegInf)
  = accum_count lattice30 (normalise lattice30 [30; 0] [30; 0]) (Some NegInf).
Proof.
  refine (count_mode_ignores_point_order lattice30 [0; 30] [0; 30]
            [30; 0] [30; 0] (Some NegInf) _).
  cbn [combine]. apply perm_swap.
Defined.

(** * Default view of the figure *)

(** X23. The default view stays within bounds: when [center] is omitted
    the centre is the midpoint of the bounding range and lies inside it,
    and when [zoom] is omitted the zoom never exceeds 18, whichever of
    [height] and [width] are given. *)
Theorem default_view_within_bounds
  (height width : option R) (lat_range lon_range : R * R) :
  fst lat_range <= snd lat_range ->
  fst lon_range <= snd lon_range ->
  fst lat_range <= fst (View.resolve_center None lat_range lon_range)
               <= snd lat_range
  /\ fst lon_range <= snd (View.resolve_center None lat_range lon_range)
                   <= snd lon_range
  /\ View.resolve_zoom None height width lon_range lat_range <= 18.
Proof.
  intros Hlat Hlon. unfold View.resolve_center, View.resolve_zoom.
  cbn [fst snd].
  split; [lra | split; [lra |]].
  unfold Zoom._getBoundsZoomLevel, Zoom.ZOOM_MAX. apply Rmin_r.
Qed.

Lemma default_view_within_bounds_witness :
  0 <= fst (View.resolve_center None (0, 30) (0, 30)) <= 30
  /\ 0 <= snd (View.resolve_center None (0, 30) (0, 30)) <= 30
  /\ View.resolve_zoom None None (Some 600) (0, 30) (0, 30) <= 18.
Proof.
  refine (default_view_within_bounds None (Some 600) (0, 30) (0, 30) _ _);
    cbn [fst snd]; lra.
Defined.
